(** * sync-docs-config: the documentation navigation synchronizer

    A shallow embedding of [scripts/sync-docs-config.ts] and the proofs of
    its specified properties.

    Conventions of the embedding.
    - A JavaScript string is a [string] whose characters are read as code
      units below 256.
    - [Map<string, V>] is [gmap string V], [Set<string>] is [gset string].
    - The objects of a parsed [config.json] are records.  A [NavItem[]]
      array is a [list NavItem]; the arrays are mutated in place by the
      script and reached through two kinds of references, the section or
      framework that owns them and the [Placement]s of the index.  The
      config is the store, and a [Placement] is the address of a container
      in it, so that a write through a placement is a write to the config.
    - The file system is a finite map from absolute paths to contents.  A
      [config.json] is held in two ways: as the typed value of its text
      ([FileSystem], on which the pass is studied), and as the text itself
      ([OnDisk.Disk], on which [JSON.parse] and [JSON.stringify] are part
      of the model); [onDisk_commutes] relates the two.
    - [async] functions are awaited one after the other; they are modelled
      as functions passing the state (cache, config, log) along. *)

From Stdlib Require Import ZArith Ascii String List Lia DecimalString DecimalZ.
From stdpp Require Import base option list gmap sets strings sorting.

Open Scope Z_scope.
#[local] Set Warnings "-clear-no-such-hyp".

(** ** JavaScript string primitives *)

Module Js.

(** [WhiteSpace] and [LineTerminator] code units below 256: what [\s]
    matches and what [trim] removes. *)
Definition isSpace (c : ascii) : bool :=
  let n := nat_of_ascii c in
  ((9 <=? n) && (n <=? 13) || (n =? 32) || (n =? 160))%nat.

Definition strLen (s : string) : Z := Z.of_nat (String.length s).

Fixpoint take (n : nat) (s : string) : string :=
  match n, s with
  | S n', String c s' => String c (take n' s')
  | _, _ => ""
  end.

Fixpoint drop (n : nat) (s : string) : string :=
  match n, s with
  | S n', String _ s' => drop n' s'
  | _, _ => s
  end.

(** [s.slice(b, e)]: negative positions count from the end, positions are
    clamped to the length. *)
Definition clampPos (len x : Z) : Z :=
  if x <? 0 then Z.max (len + x) 0 else Z.min x len.

Definition slice (s : string) (b e : Z) : string :=
  let from := clampPos (strLen s) b in
  let to := clampPos (strLen s) e in
  take (Z.to_nat (to - from)) (drop (Z.to_nat from) s).

(** [s.slice(b)] *)
Definition sliceFrom (s : string) (b : Z) : string := slice s b (strLen s).

Fixpoint indexOfFrom (c : ascii) (s : string) (i : Z) : Z :=
  match s with
  | "" => -1
  | String d s' => if Ascii.eqb d c then i else indexOfFrom c s' (i + 1)
  end.

(** [s.indexOf(c)] for a one-character needle *)
Definition indexOf (c : ascii) (s : string) : Z := indexOfFrom c s 0.

Fixpoint lastIndexOfFrom (c : ascii) (s : string) (i found : Z) : Z :=
  match s with
  | "" => found
  | String d s' => lastIndexOfFrom c s' (i + 1) (if Ascii.eqb d c then i else found)
  end.

(** [s.lastIndexOf(c)] for a one-character needle *)
Definition lastIndexOf (c : ascii) (s : string) : Z := lastIndexOfFrom c s 0 (-1).

Fixpoint startsWith (p s : string) : bool :=
  match p, s with
  | "", _ => true
  | String a p', String b s' => Ascii.eqb a b && startsWith p' s'
  | _, _ => false
  end.

Definition endsWith (p s : string) : bool :=
  startsWith (String.rev p) (String.rev s).

Fixpoint trimStart (s : string) : string :=
  match s with
  | String c s' => if isSpace c then trimStart s' else s
  | "" => ""
  end.

Definition trimEnd (s : string) : string := String.rev (trimStart (String.rev s)).

Definition trim (s : string) : string := trimEnd (trimStart s).

(** [toLowerCase] on code units below 256: the letters A-Z and the
    Latin-1 capitals 192-222 except the multiplication sign 215. *)
Definition lowerChar (c : ascii) : ascii :=
  let n := nat_of_ascii c in
  if ((65 <=? n) && (n <=? 90) || (192 <=? n) && (n <=? 222) && negb (n =? 215))%nat
  then ascii_of_nat (n + 32) else c.

Fixpoint toLowerCase (s : string) : string :=
  match s with
  | "" => ""
  | String c s' => String (lowerChar c) (toLowerCase s')
  end.

(** The truthiness of a string: [!s] holds of the empty string only. *)
Definition truthy (s : string) : bool :=
  match s with "" => false | _ => true end.

(** The truthiness of an optional string property: [undefined] and the
    empty string are falsy. *)
Definition truthyOpt (o : option string) : bool :=
  match o with Some s => truthy s | None => false end.

End Js.

(** ** [node:path], POSIX flavour *)

Module Path.

Definition sep : string := "/".

(** [s.split(c)] for a one-character separator *)
Fixpoint splitOn (c : ascii) (s : string) : list string :=
  match s with
  | "" => [""]
  | String d s' =>
    match splitOn c s' with
    | [] => [""]
    | piece :: pieces =>
      if Ascii.eqb d c then "" :: piece :: pieces else String d piece :: pieces
    end
  end.

(** [l.join(glue)] *)
Fixpoint joinWith (glue : string) (l : list string) : string :=
  match l with
  | [] => ""
  | [x] => x
  | x :: rest => x +:+ glue +:+ joinWith glue rest
  end.

Definition isAbsolute (p : string) : bool := Js.startsWith "/" p.

(** [normalizeString]: [done] holds the segments kept so far, last first. *)
Fixpoint normalizeSegments (allowAboveRoot : bool) (done segs : list string)
    : list string :=
  match segs with
  | [] => rev done
  | seg :: rest =>
    if String.eqb seg "" || String.eqb seg "." then
      normalizeSegments allowAboveRoot done rest
    else if String.eqb seg ".." then
      match done with
      | last :: done' =>
        if String.eqb last ".." then normalizeSegments allowAboveRoot (seg :: done) rest
        else normalizeSegments allowAboveRoot done' rest
      | [] =>
        if allowAboveRoot then normalizeSegments allowAboveRoot [seg] rest
        else normalizeSegments allowAboveRoot [] rest
      end
    else normalizeSegments allowAboveRoot (seg :: done) rest
  end.

(** The segments of an absolute path, normalized. *)
Definition absSegments (p : string) : list string :=
  normalizeSegments false [] (splitOn "/" p).

(** [path.resolve(...paths)] in a process whose working directory is
    [cwd] (an absolute path). *)
Definition resolve (cwd : string) (paths : list string) : string :=
  let joined :=
    foldl (fun acc p =>
             if negb (Js.truthy p) then acc
             else if isAbsolute p then p
             else acc +:+ "/" +:+ p) cwd paths in
  "/" +:+ joinWith "/" (absSegments joined).

(** [path.normalize(p)] *)
Definition normalize (p : string) : string :=
  if negb (Js.truthy p) then "."
  else
    let abs := isAbsolute p in
    let trailing := Js.endsWith "/" p in
    let body := joinWith "/" (normalizeSegments (negb abs) [] (splitOn "/" p)) in
    if negb (Js.truthy body) then (if abs then "/" else if trailing then "./" else ".")
    else (if abs then "/" else "") +:+ body +:+ (if trailing then "/" else "").

(** [path.join(...paths)] *)
Definition join (paths : list string) : string :=
  match filter (fun p => Js.truthy p = true) paths with
  | [] => "."
  | parts => normalize (joinWith "/" parts)
  end.

Fixpoint dropWhileSlash (yes : bool) (s : string) : string :=
  match s with
  | String c s' =>
    if Bool.eqb (Ascii.eqb c "/") yes then dropWhileSlash yes s' else s
  | "" => ""
  end.

Fixpoint takeUntilSlash (s : string) : string :=
  match s with
  | String c s' => if Ascii.eqb c "/" then "" else String c (takeUntilSlash s')
  | "" => ""
  end.

(** [path.basename(p)]: the part after the last slash, trailing slashes
    set aside. *)
Definition basename (p : string) : string :=
  String.rev (takeUntilSlash (dropWhileSlash true (String.rev p))).

(** [path.dirname(p)] *)
Definition dirname (p : string) : string :=
  match p with
  | "" => "."
  | String c0 rest =>
    let hasRoot := Ascii.eqb c0 "/" in
    (* positions length-1 down to 1: trailing slashes, then the last
       segment, then the slash that ends the directory part *)
    match dropWhileSlash false (dropWhileSlash true (String.rev rest)) with
    | "" => if hasRoot then "/" else "."
    | String _ before =>
      if hasRoot && (String.length before =? 0)%nat then "//"
      else String c0 (String.rev before)
    end
  end.

Fixpoint stripCommon (a b : list string) : list string * list string :=
  match a, b with
  | x :: a', y :: b' => if String.eqb x y then stripCommon a' b' else (a, b)
  | _, _ => (a, b)
  end.

(** [path.relative(from, to)] *)
Definition relative (cwd from target : string) : string :=
  if String.eqb from target then ""
  else
    let '(up, down) :=
      stripCommon (absSegments (resolve cwd [from])) (absSegments (resolve cwd [target])) in
    joinWith "/" (map (fun _ => "..") up ++ down).

End Path.

(** ** Frontmatter *)

Record FrontmatterInfo := mkFrontmatterInfo {
  title : option string;
  skip : option bool;
  ref : option string
}.

Definition setTitle (t : string) (info : FrontmatterInfo) : FrontmatterInfo :=
  {| title := Some t; skip := skip info; ref := ref info |}.

Definition setSkip (b : bool) (info : FrontmatterInfo) : FrontmatterInfo :=
  {| title := title info; skip := Some b; ref := ref info |}.

Definition setRef (r : string) (info : FrontmatterInfo) : FrontmatterInfo :=
  {| title := title info; skip := skip info; ref := Some r |}.

Definition newline : ascii := ascii_of_nat 10.
Definition carriageReturn : ascii := ascii_of_nat 13.

(** The text up to the first occurrence of a newline followed by three
    dashes, if there is one: what the lazy group of [FRONTMATTER_REGEX]
    captures once the opening line has been matched. *)
Fixpoint untilClosingLine (s : string) : option string :=
  match s with
  | "" => None
  | String c s' =>
    if Ascii.eqb c newline && Js.startsWith "---" s' then Some ""
    else String c <$> untilClosingLine s'
  end.

(** The ways [\s*\n] can match at the start of [s], each given by what is
    left of [s] after it, shortest match first. *)
Fixpoint afterOpeningLine (s : string) : list string :=
  match s with
  | "" => []
  | String c s' =>
    if Js.isSpace c
    then (if Ascii.eqb c newline then [s'] else []) ++ afterOpeningLine s'
    else []
  end.

Fixpoint firstSome {A B : Type} (f : A -> option B) (l : list A) : option B :=
  match l with
  | [] => None
  | x :: rest => match f x with Some y => Some y | None => firstSome f rest end
  end.

(** [raw.match(FRONTMATTER_REGEX)], giving the first group of the match.
    [\s*] is greedy: the longest stretch is tried first. *)
Definition matchFrontmatter (raw : string) : option string :=
  if Js.startsWith "---" raw
  then firstSome untilClosingLine (rev (afterOpeningLine (Js.drop 3 raw)))
  else None.

(** [block.split(/\r?\n/)] *)
Fixpoint splitLines (s : string) : list string :=
  match s with
  | "" => [""]
  | String c s' =>
    match splitLines s' with
    | [] => [""]
    | line :: lines =>
      if Ascii.eqb c newline then "" :: line :: lines
      else if Ascii.eqb c carriageReturn && Js.startsWith (String newline "") s'
      then line :: lines
      else String c line :: lines
    end
  end.

(** Does [s] start with [\s*#] ? *)
Fixpoint spacesThenHash (s : string) : bool :=
  match s with
  | String c s' => if Js.isSpace c then spacesThenHash s' else Ascii.eqb c "#"
  | "" => false
  end.

(** [s.split(/\s+#/)[0]] *)
Fixpoint beforeComment (s : string) : string :=
  match s with
  | "" => ""
  | String c s' =>
    if Js.isSpace c && spacesThenHash s' then "" else String c (beforeComment s')
  end.

(** [s.split(/[\s#]/)[0]] *)
Fixpoint beforeSpaceOrHash (s : string) : string :=
  match s with
  | "" => ""
  | String c s' =>
    if Js.isSpace c || Ascii.eqb c "#" then "" else String c (beforeSpaceOrHash s')
  end.

Definition doubleQuote : string := String (ascii_of_nat 34) "".

Definition stripQuotes (value : string) : string :=
  if (Js.startsWith doubleQuote value && Js.endsWith doubleQuote value)
     || (Js.startsWith "'" value && Js.endsWith "'" value)
  then Js.slice value 1 (-1)
  else value.

(** One turn of the loop over the lines of the block. *)
Definition parseLine (info : FrontmatterInfo) (line : string) : FrontmatterInfo :=
  let trimmed := Js.trim line in
  if negb (Js.truthy trimmed) || Js.startsWith "#" trimmed then info
  else
    let colonIndex := Js.indexOf ":" trimmed in
    if colonIndex <=? 0 then info
    else
      let keyPart := Js.trim (Js.slice trimmed 0 colonIndex) in
      let valuePart := Js.trim (Js.sliceFrom trimmed (colonIndex + 1)) in
      if negb (Js.truthy valuePart) then info
      else
        let valuePart := beforeComment valuePart in
        if String.eqb keyPart "title" then setTitle (Js.trim (stripQuotes valuePart)) info
        else if String.eqb keyPart "skip" then
          let normalized := Js.toLowerCase valuePart in
          setSkip (String.eqb normalized "true" || String.eqb normalized "yes"
                   || String.eqb normalized "1") info
        else if String.eqb keyPart "ref" then setRef (stripQuotes valuePart) info
        else info.

(** The info object after the loop over the lines. *)
Definition parseBlock (block : string) : FrontmatterInfo :=
  foldl parseLine (mkFrontmatterInfo None None None) (splitLines block).

(** What the file gives on its own, before any [ref] is followed. *)
Definition parseFrontmatter (raw : string) : option FrontmatterInfo :=
  parseBlock <$> matchFrontmatter raw.

Definition REPO_ROOT (cwd : string) : string := Path.resolve cwd ["."].
Definition DOCS_ROOT (cwd : string) : string := Path.resolve cwd ["docs"].

Definition resolveRefPath (cwd sourceFile refValue docsDir : string) : option string :=
  let cleanRef := beforeSpaceOrHash refValue in
  if negb (Js.truthy cleanRef) then None
  else if Js.startsWith "." cleanRef then
    Some (Path.resolve cwd [Path.dirname sourceFile; cleanRef])
  else if Js.startsWith "docs/" cleanRef then
    Some (Path.resolve cwd [REPO_ROOT cwd; cleanRef])
  else Some (Path.resolve cwd [docsDir; cleanRef]).

(** ** Outcomes *)

(** What running a function of the script gives: it returns, it throws (the
    promise is rejected), or the model is stuck: it has used up its fuel, or
    a placement does not refer to an array of the config.  The last one is
    an artefact of the model; the totality lemmas show it never happens. *)
Inductive Run (A : Type) : Type :=
| Returned (a : A)
| Thrown
| Stuck.
Arguments Returned {A} a.
Arguments Thrown {A}.
Arguments Stuck {A}.

Definition bindRun {A B : Type} (r : Run A) (k : A -> Run B) : Run B :=
  match r with
  | Returned a => k a
  | Thrown => Thrown
  | Stuck => Stuck
  end.

Notation "'await' x <- r ; k" := (bindRun r (fun x => k))
  (at level 10, x pattern, r at level 100, k at level 200).

(** ** Routes *)

(** [parentRoute]: the route up to the last slash, the empty string when
    there is none. *)
Definition parentRoute (route : string) : string :=
  let idx := Js.lastIndexOf "/" route in
  if idx =? -1 then "" else Js.slice route 0 idx.

(** ** The navigation config *)

(** A JSON tree: a value that the script carries along without looking
    inside and, in [OnDisk] below, the text of a file. *)
#[local] Set Warnings "-register-all".
Inductive Json : Type :=
| JNull
| JBool (b : bool)
| JNumber (literal : string)
| JString (s : string)
| JArray (items : list Json)
| JObject (members : list (string * Json)).

Record NavItem := mkNavItem {
  label : string;
  to : string;
  badge : option string
}.

Record FrameworkGroup := mkFrameworkGroup {
  fw_label : string;
  fw_children : list NavItem
}.

Record NavSection := mkNavSection {
  sec_label : string;
  sec_children : list NavItem;
  sec_frameworks : option (list FrameworkGroup)
}.

(** [DocsConfig].  [cfg_unknown] holds the members of the parsed object that
    the interface does not declare: [JSON.parse] keeps them on the object and
    [JSON.stringify] writes them back. *)
Record DocsConfig := mkDocsConfig {
  docSearch : Json;
  sections : list NavSection;
  users : option (list string);
  cfg_unknown : list (string * Json)
}.

Record Mismatch := mkMismatch {
  mm_to : string;
  mm_existing : string;
  mm_incoming : string
}.

Record ChangeLog := mkChangeLog {
  added : list string;
  labelMismatch : list Mismatch;
  removed : list string;
  skipped : list string;
  missingFrontmatter : list string;
  unmatched : list string;
  missingFiles : list string
}.

(** A [Placement] holds references to a section, to one of its arrays and,
    for a framework array, to the framework.  Its model is the address of
    that array: the position of the section in [config.sections] and, for a
    framework array, the position of the framework in [section.frameworks]. *)
Record Placement := mkPlacement {
  pl_section : nat;
  pl_framework : option nat
}.

Record PlacementIndex := mkPlacementIndex {
  byRoute : gmap string Placement;
  byDir : gmap string Placement
}.

(** ** The file system and the process *)

(** [docs]: the regular files and their text.  [configs]: the [config.json]
    files, held as the value [JSON.parse] gives for them, seen through the
    interfaces of the script: the typed value of the text.  A file whose
    text does not parse, or parses to a value without the shape of the
    interfaces, has no typed value and is not in [configs].  A
    [config.json] is not in [docs], and reading it as a document gives no
    frontmatter just as a missing file does, since JSON text does not start
    with three dashes.  The text itself, and what [JSON.parse] and
    [JSON.stringify] do to it, is in [OnDisk] below. *)
Record FileSystem := mkFileSystem {
  docs : gmap string string;
  configs : gmap string DocsConfig
}.

(** [docInfoCache]: [None] is the cached [null]. *)
Abbreviation Cache := (gmap string (option FrontmatterInfo)).

(** [fs.readFile(path, 'utf8')] of a document; [None] when it throws. *)
Definition readFile (fs : FileSystem) (path : string) : option string :=
  docs fs !! path.

(** [readJson] on the typed files: the typed value of the text, or the
    exception for a path that is not in [configs] ([OnDisk.readJson] reads
    the text, and [OnDisk.asConfig] takes the value through the
    interfaces). *)
Definition readJson (fs : FileSystem) (path : string) : Run DocsConfig :=
  match configs fs !! path with
  | Some config => Returned config
  | None => Thrown
  end.

(** [writeJson] on the typed files: the file now holds a text whose typed
    value is the value given.  [OnDisk.writeJson] writes the text, and
    can fail; here the write succeeds. *)
Definition writeJson (fs : FileSystem) (path : string) (value : DocsConfig) : FileSystem :=
  {| docs := docs fs; configs := <[path := value]> (configs fs) |}.

(** [listContentFiles], by its result on a tree whose directories can all
    be listed and whose regular files are the files of [docs]: the
    work-list walk visits every directory below [root] once and collects
    the regular files named [*.md] or [*.mdx]; the files are then sorted,
    so the order of the walk is not seen.  The walk itself is not
    modelled: a [readdir] that fails, and entries that are neither a
    directory nor a regular file that can be read. *)
Definition listContentFiles (fs : FileSystem) (root : string) : list string :=
  merge_sort String.le
    (filter (fun p => Js.startsWith (root +:+ "/") p = true
                      ∧ (Js.endsWith ".md" p = true ∨ Js.endsWith ".mdx" p = true))
            (elements (dom (docs fs)))).

(** ** Reading the info of a document *)

(** The part of [readDocInfo] after a [ref] has been followed. *)
Definition adoptReferenced (info : FrontmatterInfo) (referenced : option FrontmatterInfo)
    : FrontmatterInfo :=
  match referenced with
  | Some r =>
    let info1 := if Js.truthyOpt (title r) then
                   {| title := title r; skip := skip info; ref := ref info |}
                 else info in
    if bool_decide (skip r = Some true) then setSkip true info1 else info1
  | None => info
  end.

(** [readDocInfo], with fuel for the recursion along [ref]s.  [stack] is
    the set as the call finds it: the caller adds [refPath] before the
    call and deletes it afterwards, and [refPath] was not in the set before,
    so the caller's set is the same after the call as before it. *)
Fixpoint readDocInfoFuel (fuel : nat) (fs : FileSystem) (cwd filePath docsDir : string)
    (stack : gset string) (cache : Cache) : Run (option FrontmatterInfo * Cache) :=
  match fuel with
  | O => Stuck
  | S fuel' =>
    let key := Path.resolve cwd [filePath] in
    match cache !! key with
    | Some cached => Returned (cached, cache)
    | None =>
      match readFile fs filePath with
      | None => Returned (None, <[key := None]> cache)
      | Some raw =>
        match matchFrontmatter raw with
        | None => Returned (None, <[key := None]> cache)
        | Some block =>
          let info := parseBlock block in
          let unfollowed := Returned (Some info, <[key := Some info]> cache) in
          match ref info with
          | Some refValue =>
            if negb (Js.truthyOpt (title info)) && Js.truthy refValue then
              match resolveRefPath cwd filePath refValue docsDir with
              | Some refPath =>
                if Js.truthy refPath && negb (bool_decide (refPath ∈ stack)) then
                  await (referenced, cache1) <-
                    readDocInfoFuel fuel' fs cwd refPath docsDir ({[refPath]} ∪ stack) cache;
                  let info1 := adoptReferenced info referenced in
                  Returned (Some info1, <[key := Some info1]> cache1)
                else unfollowed
              | None => unfollowed
              end
            else unfollowed
          | None => unfollowed
          end
        end
      end
    end
  end.

(** A chain of [ref]s visits a readable file at most once, so it is not
    longer than the number of files ([readDocInfo_returns]). *)
Definition readDocInfo (fs : FileSystem) (cwd filePath docsDir : string)
    (stack : gset string) (cache : Cache) : Run (option FrontmatterInfo * Cache) :=
  readDocInfoFuel (2 + size (docs fs)) fs cwd filePath docsDir stack cache.

(** ** The placement index *)

(** The body of [register]'s [while (current)] loop, run at most [fuel]
    times.  A route loses at least its last character at each turn, so
    [register] starts it with more fuel than the loop can use
    ([registerDirs_fuel]). *)
Fixpoint registerDirs (fuel : nat) (current : string) (placement : Placement)
    (dirs : gmap string Placement) : gmap string Placement :=
  match fuel with
  | O => dirs
  | S fuel' =>
    if Js.truthy current then
      let dirs' :=
        match dirs !! current with
        | Some _ => dirs
        | None => <[current := placement]> dirs
        end in
      let parent := parentRoute current in
      if negb (Js.truthy parent) || String.eqb parent current then dirs'
      else registerDirs fuel' parent placement dirs'
    else dirs
  end.

Definition register (route : string) (placement : Placement)
    (index : PlacementIndex) : PlacementIndex :=
  {| byRoute := <[route := placement]> (byRoute index);
     byDir := registerDirs (S (String.length route)) route placement (byDir index) |}.

(** [for (const item of container) register(item.to, placement)] *)
Definition registerItems (container : list NavItem) (placement : Placement)
    (index : PlacementIndex) : PlacementIndex :=
  foldl (fun idx item => register (to item) placement idx) index container.

(** The loop over [section.frameworks], [j] being the position reached. *)
Fixpoint registerFrameworks (i j : nat) (frameworks : list FrameworkGroup)
    (index : PlacementIndex) : PlacementIndex :=
  match frameworks with
  | [] => index
  | framework :: rest =>
    registerFrameworks i (S j) rest
      (registerItems (fw_children framework) (mkPlacement i (Some j)) index)
  end.

(** The loop over [config.sections], [i] being the position reached. *)
Fixpoint registerSections (i : nat) (secs : list NavSection)
    (index : PlacementIndex) : PlacementIndex :=
  match secs with
  | [] => index
  | section :: rest =>
    let index1 := registerItems (sec_children section) (mkPlacement i None) index in
    let index2 :=
      match sec_frameworks section with
      | None => index1
      | Some frameworks => registerFrameworks i 0 frameworks index1
      end in
    registerSections (S i) rest index2
  end.

Definition buildPlacementIndex (config : DocsConfig) : PlacementIndex :=
  registerSections 0 (sections config) (mkPlacementIndex ∅ ∅).

(** [index.byRoute.get(current) ?? index.byDir.get(current)] *)
Definition lookupPlacement (index : PlacementIndex) (current : string) : option Placement :=
  match byRoute index !! current with
  | Some placement => Some placement
  | None => byDir index !! current
  end.

(** The [while (current !== undefined)] loop of [findPlacement], run at most
    [fuel] times ([findPlacementFrom_fuel]: the fuel given is never used up). *)
Fixpoint findPlacementFrom (fuel : nat) (current : string) (index : PlacementIndex)
    : option Placement :=
  match fuel with
  | O => None
  | S fuel' =>
    match lookupPlacement index current with
    | Some placement => Some placement
    | None =>
      let parent := parentRoute current in
      if negb (Js.truthy parent) || String.eqb parent current then None
      else findPlacementFrom fuel' parent index
    end
  end.

Definition findPlacement (route : string) (index : PlacementIndex) : option Placement :=
  findPlacementFrom (S (String.length route)) route index.

(** ** Containers *)

(** The array a placement refers to. *)
Definition containerOf (config : DocsConfig) (p : Placement) : option (list NavItem) :=
  section ← sections config !! pl_section p;
  match pl_framework p with
  | None => Some (sec_children section)
  | Some j =>
    frameworks ← sec_frameworks section;
    framework ← frameworks !! j;
    Some (fw_children framework)
  end.

Definition setFwChildren (c : list NavItem) (framework : FrameworkGroup) : FrameworkGroup :=
  {| fw_label := fw_label framework; fw_children := c |}.

Definition setSecChildren (c : list NavItem) (section : NavSection) : NavSection :=
  {| sec_label := sec_label section; sec_children := c;
     sec_frameworks := sec_frameworks section |}.

Definition setSecFrameworks (fws : option (list FrameworkGroup)) (section : NavSection)
    : NavSection :=
  {| sec_label := sec_label section; sec_children := sec_children section;
     sec_frameworks := fws |}.

Definition setSections (secs : list NavSection) (config : DocsConfig) : DocsConfig :=
  {| docSearch := docSearch config; sections := secs; users := users config;
     cfg_unknown := cfg_unknown config |}.

(** The config after the array at [p] has been given the contents [c]. *)
Definition setContainer (config : DocsConfig) (p : Placement) (c : list NavItem)
    : DocsConfig :=
  setSections
    (alter (fun section =>
       match pl_framework p with
       | None => setSecChildren c section
       | Some j => setSecFrameworks (alter (setFwChildren c) j <$> sec_frameworks section) section
       end) (pl_section p) (sections config))
    config.

Definition logAdded (entry : string) (log : ChangeLog) : ChangeLog :=
  {| added := added log ++ [entry]; labelMismatch := labelMismatch log;
     removed := removed log; skipped := skipped log;
     missingFrontmatter := missingFrontmatter log; unmatched := unmatched log;
     missingFiles := missingFiles log |}.

Definition logLabelMismatch (m : Mismatch) (log : ChangeLog) : ChangeLog :=
  {| added := added log; labelMismatch := labelMismatch log ++ [m];
     removed := removed log; skipped := skipped log;
     missingFrontmatter := missingFrontmatter log; unmatched := unmatched log;
     missingFiles := missingFiles log |}.

Definition logRemoved (route : string) (log : ChangeLog) : ChangeLog :=
  {| added := added log; labelMismatch := labelMismatch log;
     removed := removed log ++ [route]; skipped := skipped log;
     missingFrontmatter := missingFrontmatter log; unmatched := unmatched log;
     missingFiles := missingFiles log |}.

(** [ensureNavItem]: the array and the log after the call. *)
Definition ensureNavItem (container : list NavItem) (item : NavItem) (log : ChangeLog)
    : list NavItem * ChangeLog :=
  match List.find (fun entry => String.eqb (to entry) (to item)) container with
  | Some existing =>
    if negb (String.eqb (label existing) (label item))
    then (container, logLabelMismatch (mkMismatch (to item) (label existing) (label item)) log)
    else (container, log)
  | None => (container ++ [item], logAdded (label item +:+ " -> " +:+ to item) log)
  end.

(** The loop of [removeSkipped], from position [n - 1] down to 0;
    [delete i container] is [container.splice(i, 1)]. *)
Fixpoint removeSkippedFrom (n : nat) (container : list NavItem) (skipRoutes : gset string)
    (log : ChangeLog) : list NavItem * ChangeLog :=
  match n with
  | O => (container, log)
  | S i =>
    match container !! i with
    | Some entry =>
      if decide (to entry ∈ skipRoutes)
      then removeSkippedFrom i (delete i container) skipRoutes (logRemoved (to entry) log)
      else removeSkippedFrom i container skipRoutes log
    | None => removeSkippedFrom i container skipRoutes log
    end
  end.

Definition removeSkipped (container : list NavItem) (skipRoutes : gset string)
    (log : ChangeLog) : list NavItem * ChangeLog :=
  removeSkippedFrom (length container) container skipRoutes log.

Definition pushUnique (l : list string) (value : string) : list string :=
  if decide (value ∈ l) then l else l ++ [value].

(** ** The reconciler *)

(** [p.replace(/\.(md|mdx)$/i, '')] *)
Definition stripMdExtension (p : string) : string :=
  let lower := Js.toLowerCase p in
  if Js.endsWith ".md" lower then Js.slice p 0 (Js.strLen p - 3)
  else if Js.endsWith ".mdx" lower then Js.slice p 0 (Js.strLen p - 4)
  else p.

Definition routeFromFile (cwd baseDir filePath : string) : string :=
  let relPath := Path.relative cwd baseDir filePath in
  let withoutExt := stripMdExtension relPath in
  Path.joinWith "/" (Path.splitOn "/" withoutExt).

(** [README_REGEX.test(fileName)] *)
Definition isReadme (fileName : string) : bool :=
  let lower := Js.toLowerCase fileName in
  String.eqb lower "readme.md" || String.eqb lower "readme.mdx".

(** [DRAFT_REGEX.test(fileName)] *)
Definition isDraft (fileName : string) : bool :=
  let lower := Js.toLowerCase fileName in
  Js.endsWith ".draft.md" lower || Js.endsWith ".draft.mdx" lower.

Definition emptyLog : ChangeLog := mkChangeLog [] [] [] [] [] [] [].

Definition logSkipped (route : string) (log : ChangeLog) : ChangeLog :=
  {| added := added log; labelMismatch := labelMismatch log;
     removed := removed log; skipped := pushUnique (skipped log) route;
     missingFrontmatter := missingFrontmatter log; unmatched := unmatched log;
     missingFiles := missingFiles log |}.

Definition logMissingFrontmatter (file : string) (log : ChangeLog) : ChangeLog :=
  {| added := added log; labelMismatch := labelMismatch log;
     removed := removed log; skipped := skipped log;
     missingFrontmatter := pushUnique (missingFrontmatter log) file;
     unmatched := unmatched log; missingFiles := missingFiles log |}.

Definition logUnmatched (route : string) (log : ChangeLog) : ChangeLog :=
  {| added := added log; labelMismatch := labelMismatch log;
     removed := removed log; skipped := skipped log;
     missingFrontmatter := missingFrontmatter log;
     unmatched := pushUnique (unmatched log) route; missingFiles := missingFiles log |}.

Definition logMissingFile (route : string) (log : ChangeLog) : ChangeLog :=
  {| added := added log; labelMismatch := labelMismatch log;
     removed := removed log; skipped := skipped log;
     missingFrontmatter := missingFrontmatter log; unmatched := unmatched log;
     missingFiles := pushUnique (missingFiles log) route |}.

(** What the loop over the files of [processDocsConfig] reads and writes. *)
Record SyncState := mkSyncState {
  st_config : DocsConfig;
  st_log : ChangeLog;
  st_skipRoutes : gset string;
  st_seenRoutes : gset string;
  st_cache : Cache
}.

(** One turn of the loop over the files. *)
Definition processFile (fs : FileSystem) (cwd dir configPath : string)
    (index : PlacementIndex) (st : SyncState) (filePath : string) : Run SyncState :=
  if String.eqb filePath configPath then Returned st
  else
    let fileName := Path.basename filePath in
    let route := routeFromFile cwd dir filePath in
    let seen := {[route]} ∪ st_seenRoutes st in
    if isReadme fileName || isDraft fileName then
      Returned (mkSyncState (st_config st) (st_log st) ({[route]} ∪ st_skipRoutes st) seen
                            (st_cache st))
    else
      await (frontmatter, cache) <- readDocInfo fs cwd filePath dir ∅ (st_cache st);
      match frontmatter with
      | Some info =>
        match title info with
        | Some infoTitle =>
          if Js.truthy infoTitle then
            if bool_decide (skip info = Some true) then
              Returned (mkSyncState (st_config st) (logSkipped route (st_log st))
                                    ({[route]} ∪ st_skipRoutes st) seen cache)
            else
              match findPlacement route index with
              | Some placement =>
                match containerOf (st_config st) placement with
                | Some container =>
                  let '(container1, log1) :=
                    ensureNavItem container (mkNavItem (Js.trim infoTitle) route None)
                                  (st_log st) in
                  Returned (mkSyncState (setContainer (st_config st) placement container1)
                                        log1 (st_skipRoutes st) seen cache)
                | None => Stuck
                end
              | None =>
                Returned (mkSyncState (st_config st) (logUnmatched route (st_log st))
                                      (st_skipRoutes st) seen cache)
              end
          else
            Returned (mkSyncState (st_config st)
                        (logMissingFrontmatter (Path.relative cwd dir filePath) (st_log st))
                        (st_skipRoutes st) seen cache)
        | None =>
          Returned (mkSyncState (st_config st)
                      (logMissingFrontmatter (Path.relative cwd dir filePath) (st_log st))
                      (st_skipRoutes st) seen cache)
        end
      | None =>
        Returned (mkSyncState (st_config st)
                    (logMissingFrontmatter (Path.relative cwd dir filePath) (st_log st))
                    (st_skipRoutes st) seen cache)
      end.

(** [for (const filePath of files)] *)
Fixpoint processFiles (fs : FileSystem) (cwd dir configPath : string)
    (index : PlacementIndex) (files : list string) (st : SyncState) : Run SyncState :=
  match files with
  | [] => Returned st
  | filePath :: rest =>
    await st1 <- processFile fs cwd dir configPath index st filePath;
    processFiles fs cwd dir configPath index rest st1
  end.

(** The loop over the frameworks of a section in the pruning pass. *)
Fixpoint pruneFrameworks (frameworks : list FrameworkGroup) (skipRoutes : gset string)
    (log : ChangeLog) : list FrameworkGroup * ChangeLog :=
  match frameworks with
  | [] => ([], log)
  | framework :: rest =>
    let '(children, log1) := removeSkipped (fw_children framework) skipRoutes log in
    let '(rest1, log2) := pruneFrameworks rest skipRoutes log1 in
    (setFwChildren children framework :: rest1, log2)
  end.

(** The pruning pass over the sections. *)
Fixpoint pruneSections (secs : list NavSection) (skipRoutes : gset string)
    (log : ChangeLog) : list NavSection * ChangeLog :=
  match secs with
  | [] => ([], log)
  | section :: rest =>
    let '(children, log1) := removeSkipped (sec_children section) skipRoutes log in
    let '(frameworks, log2) :=
      match sec_frameworks section with
      | None => (None, log1)
      | Some fws =>
        let '(fws1, l) := pruneFrameworks fws skipRoutes log1 in (Some fws1, l)
      end in
    let '(rest1, log3) := pruneSections rest skipRoutes log2 in
    (mkNavSection (sec_label section) children frameworks :: rest1, log3)
  end.

(** The loop over the items of one array in the last pass. *)
Definition reportMissing (container : list NavItem) (seenRoutes skipRoutes : gset string)
    (log : ChangeLog) : ChangeLog :=
  foldl (fun l item =>
           if negb (bool_decide (to item ∈ seenRoutes))
              && negb (bool_decide (to item ∈ skipRoutes))
           then logMissingFile (to item) l else l) log container.

(** The last pass over the sections. *)
Definition reportMissingSections (secs : list NavSection) (seenRoutes skipRoutes : gset string)
    (log : ChangeLog) : ChangeLog :=
  foldl (fun l section =>
           let l1 := reportMissing (sec_children section) seenRoutes skipRoutes l in
           match sec_frameworks section with
           | None => l1
           | Some fws =>
             foldl (fun l2 framework =>
                      reportMissing (fw_children framework) seenRoutes skipRoutes l2) l1 fws
           end) log secs.

(** The part of [processDocsConfig] between [readJson] and [writeJson]:
    the config to write, the log and the cache. *)
Definition syncConfig (fs : FileSystem) (cwd dir : string) (cache : Cache)
    (config : DocsConfig) : Run (DocsConfig * ChangeLog * Cache) :=
  let configPath := Path.join [dir; "config.json"] in
  let index := buildPlacementIndex config in
  let files := listContentFiles fs dir in
  await st <- processFiles fs cwd dir configPath index files
                (mkSyncState config emptyLog ∅ ∅ cache);
  let '(secs, log1) := pruneSections (sections (st_config st)) (st_skipRoutes st) (st_log st) in
  let log2 := reportMissingSections secs (st_seenRoutes st) (st_skipRoutes st) log1 in
  Returned (setSections secs (st_config st), log2, st_cache st).

Definition processDocsConfig (cwd dir : string) (cache : Cache) (fs : FileSystem)
    : Run (ChangeLog * Cache * FileSystem) :=
  let configPath := Path.join [dir; "config.json"] in
  await config <- readJson fs configPath;
  await (config1, log, cache1) <- syncConfig fs cwd dir cache config;
  Returned (log, cache1, writeJson fs configPath config1).

(** ** Notions used to state the properties *)

(** The values [current] takes in the loop of [register]: the route and its
    non-empty ancestors, nearest first. *)
Fixpoint chainFrom (fuel : nat) (current : string) : list string :=
  match fuel with
  | O => []
  | S fuel' =>
    if Js.truthy current then
      current ::
        (let parent := parentRoute current in
         if negb (Js.truthy parent) || String.eqb parent current then []
         else chainFrom fuel' parent)
    else []
  end.

Definition routeChain (route : string) : list string :=
  chainFrom (S (String.length route)) route.

(** What one turn of [register]'s loop does to [byDir]. *)
Definition claimDir (placement : Placement) (dirs : gmap string Placement)
    (current : string) : gmap string Placement :=
  match dirs !! current with
  | Some _ => dirs
  | None => <[current := placement]> dirs
  end.

(** The calls of [register] made by [buildPlacementIndex], in order. *)
Definition itemRegistrations (container : list NavItem) (p : Placement)
    : list (string * Placement) :=
  map (fun item => (to item, p)) container.

Fixpoint frameworkRegistrations (i j : nat) (frameworks : list FrameworkGroup)
    : list (string * Placement) :=
  match frameworks with
  | [] => []
  | framework :: rest =>
    itemRegistrations (fw_children framework) (mkPlacement i (Some j))
      ++ frameworkRegistrations i (S j) rest
  end.

Fixpoint sectionRegistrations (i : nat) (secs : list NavSection)
    : list (string * Placement) :=
  match secs with
  | [] => []
  | section :: rest =>
    itemRegistrations (sec_children section) (mkPlacement i None)
      ++ match sec_frameworks section with
         | None => []
         | Some frameworks => frameworkRegistrations i 0 frameworks
         end
      ++ sectionRegistrations (S i) rest
  end.

Definition registrations (config : DocsConfig) : list (string * Placement) :=
  sectionRegistrations 0 (sections config).

Definition registerAll (regs : list (string * Placement)) (index : PlacementIndex)
    : PlacementIndex :=
  foldl (fun idx reg => register reg.1 reg.2 idx) index regs.

(** The placement of the first registration that has [x] on its chain. *)
Fixpoint firstClaim (x : string) (regs : list (string * Placement)) : option Placement :=
  match regs with
  | [] => None
  | reg :: rest => if decide (x ∈ routeChain reg.1) then Some reg.2 else firstClaim x rest
  end.

(** The placement of the last registration of the route [x] itself. *)
Fixpoint lastExact (x : string) (regs : list (string * Placement)) : option Placement :=
  match regs with
  | [] => None
  | reg :: rest =>
    match lastExact x rest with
    | Some q => Some q
    | None => if decide (reg.1 = x) then Some reg.2 else None
    end
  end.

(** The config with every container emptied: what is left is what the
    script does not own (labels, [docSearch], [users], the members it does
    not know, and the arrangement of sections and frameworks). *)
Definition skeletonOfSection (section : NavSection) : NavSection :=
  {| sec_label := sec_label section; sec_children := [];
     sec_frameworks :=
       (fun fws : list FrameworkGroup => setFwChildren [] <$> fws) <$> sec_frameworks section |}.

Definition skeleton (config : DocsConfig) : DocsConfig :=
  setSections (skeletonOfSection <$> sections config) config.

(** The readable files that are not on the stack. *)
Definition unvisited (fs : FileSystem) (stack : gset string) : gset string :=
  dom (docs fs) ∖ stack.

(** The entries of a container that the pruning pass keeps, and the routes of
    those it removes, in the order in which [removeSkipped] logs them. *)
Definition keepUnskipped (skipRoutes : gset string) (container : list NavItem)
    : list NavItem :=
  filter (fun entry => to entry ∉ skipRoutes) container.

Definition removedRoutes (skipRoutes : gset string) (container : list NavItem)
    : list string :=
  reverse (to <$> filter (fun entry => to entry ∈ skipRoutes) container).

Definition prunedFramework (skipRoutes : gset string) (framework : FrameworkGroup)
    : FrameworkGroup :=
  setFwChildren (keepUnskipped skipRoutes (fw_children framework)) framework.

Definition prunedSection (skipRoutes : gset string) (section : NavSection) : NavSection :=
  mkNavSection (sec_label section) (keepUnskipped skipRoutes (sec_children section))
    ((fun fws : list FrameworkGroup => prunedFramework skipRoutes <$> fws)
       <$> sec_frameworks section).

(** The containers of a list of sections, in the order of the passes. *)
Definition containersOfSection (section : NavSection) : list (list NavItem) :=
  sec_children section :: (fw_children <$> default [] (sec_frameworks section)).

Definition containersOf (secs : list NavSection) : list (list NavItem) :=
  secs ≫= containersOfSection.

Definition withRemoved (l : list string) (log : ChangeLog) : ChangeLog :=
  {| added := added log; labelMismatch := labelMismatch log;
     removed := l; skipped := skipped log;
     missingFrontmatter := missingFrontmatter log; unmatched := unmatched log;
     missingFiles := missingFiles log |}.

(** *** The two halves of a turn of the loop over the files

    What a turn of the loop does with a file depends on the file system and
    the cache only through a verdict on the file; what it does to the
    config, the log and the two sets of routes depends on the verdict only. *)
Inductive Verdict :=
| VConfigFile                                (* [filePath === configPath] *)
| VIgnored (route : string)                  (* a readme or a draft *)
| VMissing (route : string) (file : string)  (* no info, or no title *)
| VSkipped (route : string)                  (* a title and [skip] *)
| VPlace (route : string) (infoTitle : string).

Definition classify (fs : FileSystem) (cwd dir configPath : string) (cache : Cache)
    (filePath : string) : Run (Verdict * Cache) :=
  if String.eqb filePath configPath then Returned (VConfigFile, cache)
  else
    let route := routeFromFile cwd dir filePath in
    if isReadme (Path.basename filePath) || isDraft (Path.basename filePath) then
      Returned (VIgnored route, cache)
    else
      await (frontmatter, cache1) <- readDocInfo fs cwd filePath dir ∅ cache;
      match frontmatter with
      | Some info =>
        match title info with
        | Some infoTitle =>
          if Js.truthy infoTitle then
            if bool_decide (skip info = Some true) then Returned (VSkipped route, cache1)
            else Returned (VPlace route infoTitle, cache1)
          else Returned (VMissing route (Path.relative cwd dir filePath), cache1)
        | None => Returned (VMissing route (Path.relative cwd dir filePath), cache1)
        end
      | None => Returned (VMissing route (Path.relative cwd dir filePath), cache1)
      end.

Fixpoint classifyFiles (fs : FileSystem) (cwd dir configPath : string) (cache : Cache)
    (files : list string) : Run (list Verdict * Cache) :=
  match files with
  | [] => Returned ([], cache)
  | filePath :: rest =>
    await (v, cache1) <- classify fs cwd dir configPath cache filePath;
    await (vs, cache2) <- classifyFiles fs cwd dir configPath cache1 rest;
    Returned (v :: vs, cache2)
  end.

Definition setCache (cache : Cache) (st : SyncState) : SyncState :=
  mkSyncState (st_config st) (st_log st) (st_skipRoutes st) (st_seenRoutes st) cache.

Definition applyVerdict (index : PlacementIndex) (st : SyncState) (v : Verdict)
    : Run SyncState :=
  match v with
  | VConfigFile => Returned st
  | VIgnored route =>
    Returned (mkSyncState (st_config st) (st_log st) ({[route]} ∪ st_skipRoutes st)
                          ({[route]} ∪ st_seenRoutes st) (st_cache st))
  | VMissing route file =>
    Returned (mkSyncState (st_config st) (logMissingFrontmatter file (st_log st))
                          (st_skipRoutes st) ({[route]} ∪ st_seenRoutes st) (st_cache st))
  | VSkipped route =>
    Returned (mkSyncState (st_config st) (logSkipped route (st_log st))
                          ({[route]} ∪ st_skipRoutes st) ({[route]} ∪ st_seenRoutes st)
                          (st_cache st))
  | VPlace route infoTitle =>
    match findPlacement route index with
    | Some placement =>
      match containerOf (st_config st) placement with
      | Some container =>
        let '(container1, log1) :=
          ensureNavItem container (mkNavItem (Js.trim infoTitle) route None) (st_log st) in
        Returned (mkSyncState (setContainer (st_config st) placement container1)
                              log1 (st_skipRoutes st) ({[route]} ∪ st_seenRoutes st)
                              (st_cache st))
      | None => Stuck
      end
    | None =>
      Returned (mkSyncState (st_config st) (logUnmatched route (st_log st))
                            (st_skipRoutes st) ({[route]} ∪ st_seenRoutes st) (st_cache st))
    end
  end.

Fixpoint applyVerdicts (index : PlacementIndex) (st : SyncState) (vs : list Verdict)
    : Run SyncState :=
  match vs with
  | [] => Returned st
  | v :: rest => await st1 <- applyVerdict index st v; applyVerdicts index st1 rest
  end.

(** The passes after the loop. *)
Definition finishSync (st : SyncState) : DocsConfig * ChangeLog :=
  let '(secs, log1) := pruneSections (sections (st_config st)) (st_skipRoutes st) (st_log st) in
  (setSections secs (st_config st),
   reportMissingSections secs (st_seenRoutes st) (st_skipRoutes st) log1).

(** What a pass makes of a config, given the verdicts on the files. *)
Definition reconcile (config : DocsConfig) (vs : list Verdict) : Run (DocsConfig * ChangeLog) :=
  await st <- applyVerdicts (buildPlacementIndex config)
                (mkSyncState config emptyLog ∅ ∅ ∅) vs;
  Returned (finishSync st).

(** The verdicts of a pass over [dir]. *)
Definition verdicts (fs : FileSystem) (cwd dir : string) (cache : Cache)
    : Run (list Verdict * Cache) :=
  classifyFiles fs cwd dir (Path.join [dir; "config.json"]) cache (listContentFiles fs dir).

(** The routes a list of verdicts puts in [skipRoutes] and in [seenRoutes]. *)
Definition skipRouteOf (v : Verdict) : gset string :=
  match v with
  | VIgnored route | VSkipped route => {[route]}
  | _ => ∅
  end.

Definition seenRouteOf (v : Verdict) : gset string :=
  match v with
  | VConfigFile => ∅
  | VIgnored route | VMissing route _ | VSkipped route | VPlace route _ => {[route]}
  end.

Definition skipRoutesOf (vs : list Verdict) : gset string := ⋃ (skipRouteOf <$> vs).
Definition seenRoutesOf (vs : list Verdict) : gset string := ⋃ (seenRouteOf <$> vs).

Definition prunedConfig (skipRoutes : gset string) (config : DocsConfig) : DocsConfig :=
  setSections (prunedSection skipRoutes <$> sections config) config.

#[global] Instance Placement_eq_dec : EqDecision Placement.
Proof. solve_decision. Defined.

(** What a turn of the loop, and the whole loop, make of the container at
    [p]. *)
Definition growContainer (index : PlacementIndex) (p : Placement) (c : list NavItem)
    (v : Verdict) : list NavItem :=
  match v with
  | VPlace route infoTitle =>
    if decide (findPlacement route index = Some p)
    then (ensureNavItem c (mkNavItem (Js.trim infoTitle) route None) emptyLog).1
    else c
  | _ => c
  end.

Definition grownContainer (index : PlacementIndex) (p : Placement) (c : list NavItem)
    (vs : list Verdict) : list NavItem :=
  foldl (growContainer index p) c vs.

(** The placements the index can give refer to arrays of the config. *)
Definition indexValid (index : PlacementIndex) (config : DocsConfig) : Prop :=
  ∀ route p, findPlacement route index = Some p → is_Some (containerOf config p).

Definition withMissingFiles (l : list string) (log : ChangeLog) : ChangeLog :=
  {| added := added log; labelMismatch := labelMismatch log;
     removed := removed log; skipped := skipped log;
     missingFrontmatter := missingFrontmatter log; unmatched := unmatched log;
     missingFiles := l |}.

(** The routes of the entries of a container that have no file. *)
Definition unbackedRoutes (seenRoutes skipRoutes : gset string) (container : list NavItem)
    : list string :=
  to <$> filter (fun item => (to item ∉ seenRoutes) ∧ (to item ∉ skipRoutes)) container.

(** The values [current] takes in the loop of [findPlacement]: the route,
    empty or not, and its non-empty ancestors, nearest first. *)
Fixpoint walkFrom (fuel : nat) (current : string) : list string :=
  match fuel with
  | O => []
  | S fuel' =>
    current ::
      (let parent := parentRoute current in
       if negb (Js.truthy parent) || String.eqb parent current then []
       else walkFrom fuel' parent)
  end.

Definition walk (route : string) : list string :=
  walkFrom (S (String.length route)) route.

(** The routes of the entries of a config. *)
Definition routesOf (config : DocsConfig) : list string := (registrations config).*1.

(** Within each container of the config the routes are pairwise distinct. *)
Definition uniqueRoutes (config : DocsConfig) : Prop :=
  ∀ p c, containerOf config p = Some c → NoDup (to <$> c).

(** A state of the world in which the synchronizer is run on [run_dir]. *)
Record RunEnv := mkRunEnv {
  run_fs : FileSystem;
  run_cwd : string;
  run_dir : string;
  run_cache : Cache
}.

(** Successive runs on a config; between two runs the files may change in
    any way, the config is only changed by the runs. *)
Fixpoint syncRuns (runs : list RunEnv) (config : DocsConfig) : Run DocsConfig :=
  match runs with
  | [] => Returned config
  | env :: rest =>
    await (config1, _, _) <-
      syncConfig (run_fs env) (run_cwd env) (run_dir env) (run_cache env) config;
    syncRuns rest config1
  end.

(** ** Sample data *)

Module Sample.

Definition nl : string := String newline "".

(** A document that starts with a frontmatter block of the given lines. *)
Definition document (lines : list string) (body : string) : string :=
  "---" +:+ nl +:+ Path.joinWith nl lines +:+ nl +:+ "---" +:+ nl +:+ body.

Definition entry (l r : string) : NavItem := mkNavItem l r None.

(** Two sections; the second registers [a/b] itself after the first has
    claimed it as the parent of [a/b/c]. *)
Definition twoSections : DocsConfig :=
  mkDocsConfig JNull
    [ mkNavSection "First" [entry "Z" "z"; entry "C" "a/b/c"] None;
      mkNavSection "Second" [entry "B" "a/b"; entry "A" "a"] None ]
    None [].

Definition cwd : string := "/repo".
Definition dir : string := "/repo/docs/r".
Definition configPath : string := "/repo/docs/r/config.json".

(** A directory with two pages with a title (one through a [ref]), a
    skipped page, a readme and a page without frontmatter; the config has
    an entry without a file and an entry for the skipped page. *)
Definition siteConfig : DocsConfig :=
  mkDocsConfig (JObject [("appId", JString "X")])
    [ mkNavSection "Guide"
        [ entry "Old" "guide/old"; mkNavItem "S" "guide/s" (Some "new") ]
        (Some [ mkFrameworkGroup "react" [entry "Intro" "guide/intro"] ]) ]
    (Some ["someone"]) [("version", JNumber "2")].

Definition site : FileSystem :=
  {| docs := list_to_map
       [ ("/repo/docs/r/guide/intro.md", document ["title: Introduction"] "Text.");
         ("/repo/docs/r/guide/deep/x.md", document ["ref: ../intro.md"] "");
         ("/repo/docs/r/guide/s.mdx", document ["title: S"; "skip: true"] "");
         ("/repo/docs/r/readme.md", "No frontmatter here.");
         ("/repo/docs/r/notitle.md", "Nor here.") ];
     configs := {[ configPath := siteConfig ]} |}.

(** [a/b] is in the first section, [a/b/c/d] in the second, and there is
    a new file at [a/b/c]. *)
Definition nestedConfig : DocsConfig :=
  mkDocsConfig JNull
    [ mkNavSection "Guide" [entry "B" "a/b"] None;
      mkNavSection "Deep" [entry "D" "a/b/c/d"] None ]
    None [].

Definition nested : FileSystem :=
  {| docs := list_to_map [ ("/repo/docs/r/a/b/c.md", document ["title: C"] "") ];
     configs := {[ configPath := nestedConfig ]} |}.

(** [a/b] is in the first section, and nothing is at [a/b/c] or below. *)
Definition flatConfig : DocsConfig :=
  mkDocsConfig JNull
    [ mkNavSection "Guide" [entry "B" "a/b"] None;
      mkNavSection "Other" [entry "Z" "z"] None ]
    None [].

Definition flat : FileSystem :=
  {| docs := list_to_map [ ("/repo/docs/r/a/b/c.md", document ["title: C"] "") ];
     configs := {[ configPath := flatConfig ]} |}.

(** A page with [skip: true] and no title, which has an entry. *)
Definition untitledSkipConfig : DocsConfig :=
  mkDocsConfig JNull [ mkNavSection "Guide" [entry "A" "a"] None ] None [].

Definition untitledSkip : FileSystem :=
  {| docs := list_to_map [ ("/repo/docs/r/a.md", document ["skip: true"] "") ];
     configs := {[ configPath := untitledSkipConfig ]} |}.

(** A page that refers to the page next to it. *)
Definition referring : FileSystem :=
  {| docs := list_to_map
       [ ("/repo/docs/r/g/page.md", document ["ref: ./other.md"] "");
         ("/repo/docs/r/g/other.md", document ["title: Foo"; "skip: true"] "") ];
     configs := ∅ |}.

(** Two pages that refer to each other. *)
Definition cyclic : FileSystem :=
  {| docs := list_to_map
       [ ("/repo/docs/r/a.md", document ["ref: ./b.md"] "");
         ("/repo/docs/r/b.md", document ["ref: ./a.md"; "skip: yes"] "") ];
     configs := ∅ |}.



End Sample.

(** No file to place has a route to skip. *)
Definition placedNotSkipped (vs : list Verdict) (v : Verdict) : Prop :=
  match v with
  | VPlace route _ => route ∉ skipRoutesOf vs
  | _ => True
  end.

#[global] Instance placedNotSkipped_dec vs v : Decision (placedNotSkipped vs v).
Proof. destruct v; simpl; apply _. Defined.

(** What the loop logs under [skipped] and [missingFrontmatter]. *)
Definition skippedAfter (l : list string) (vs : list Verdict) : list string :=
  foldl (fun l v => match v with VSkipped route => pushUnique l route | _ => l end) l vs.

Definition missingFrontmatterAfter (l : list string) (vs : list Verdict) : list string :=
  foldl (fun l v => match v with VMissing _ file => pushUnique l file | _ => l end) l vs.

(** The report of a run and the file system it leaves. *)
Definition reportOf (r : Run (ChangeLog * Cache * FileSystem)) : option ChangeLog :=
  match r with
  | Returned (log, _, _) => Some log
  | _ => None
  end.

Definition fileSystemAfter (fs : FileSystem) (r : Run (ChangeLog * Cache * FileSystem))
    : FileSystem :=
  match r with
  | Returned (_, _, fs1) => fs1
  | _ => fs
  end.

Definition configAfter (dir : string) (fs : FileSystem)
    (r : Run (ChangeLog * Cache * FileSystem)) : option DocsConfig :=
  configs (fileSystemAfter fs r) !! Path.join [dir; "config.json"].

(** The last container, in the order of the registrations, that has an
    entry at the route [x]: what [byRoute] maps [x] to. *)
Fixpoint lastHolderFrameworks (i j : nat) (frameworks : list FrameworkGroup) (x : string)
    : option Placement :=
  match frameworks with
  | [] => None
  | framework :: rest =>
    match lastHolderFrameworks i (S j) rest x with
    | Some p => Some p
    | None =>
      if decide (x ∈ to <$> fw_children framework) then Some (mkPlacement i (Some j)) else None
    end
  end.

Fixpoint lastHolderSections (i : nat) (secs : list NavSection) (x : string)
    : option Placement :=
  match secs with
  | [] => None
  | section :: rest =>
    match lastHolderSections (S i) rest x with
    | Some p => Some p
    | None =>
      match from_option (fun fws => lastHolderFrameworks i 0 fws x) None
                        (sec_frameworks section) with
      | Some p => Some p
      | None =>
        if decide (x ∈ to <$> sec_children section) then Some (mkPlacement i None) else None
      end
    end
  end.

(** Two lists of sections of the same shape whose containers hold the
    route [x] at the same places. *)
Definition sameHolding (x : string) (secs secs' : list NavSection) : Prop :=
  Forall2 (fun s s' =>
             (x ∈ to <$> sec_children s ↔ x ∈ to <$> sec_children s')
             ∧ option_Forall2
                 (Forall2 (fun f f' => x ∈ to <$> fw_children f ↔ x ∈ to <$> fw_children f'))
                 (sec_frameworks s) (sec_frameworks s'))
          secs secs'.

(** What the loop logs under [labelMismatch] for a file to place whose
    container is [c]. *)
Definition mismatchOf (c : list NavItem) (item : NavItem) : list Mismatch :=
  match List.find (fun entry => String.eqb (to entry) (to item)) c with
  | Some existing =>
    if negb (String.eqb (label existing) (label item))
    then [mkMismatch (to item) (label existing) (label item)]
    else []
  | None => []
  end.

(** A path segment that [normalizeString] keeps as it is: a name, not
    empty, not [.] or [..], without a slash. *)
Definition plainSegment (s : string) : bool :=
  negb (String.eqb s "") && negb (String.eqb s ".") && negb (String.eqb s "..")
  && (Js.indexOf "/" s =? -1).

(** ** The report of a root *)

(** [printSection]: the arguments of its [console.log] calls. *)
Definition printSection (title : string) (values : list string) : list string :=
  match values with
  | [] => []
  | _ => ("  " +:+ title +:+ ":") :: map (fun value => "    - " +:+ value) values
  end.

Definition mismatchLine (item : Mismatch) : string :=
  mm_existing item +:+ " != " +:+ mm_incoming item +:+ " (" +:+ mm_to item +:+ ")".

(** [!list.length] *)
Definition hasNone {A : Type} (l : list A) : bool :=
  match l with [] => true | _ => false end.

(** The arguments of the [console.log] calls that [main] makes for a root
    once [processDocsConfig] has returned. *)
Definition printReport (log : ChangeLog) : list string :=
  printSection "Added entries" (added log)
  ++ printSection "Label/title mismatches (unchanged)" (map mismatchLine (labelMismatch log))
  ++ printSection "Removed (skip:true)" (removed log)
  ++ printSection "Skipped (skip:true) files" (skipped log)
  ++ printSection "Missing frontmatter title" (missingFrontmatter log)
  ++ printSection "Unmatched routes (manual placement required)" (unmatched log)
  ++ printSection "Config entries missing source file" (missingFiles log)
  ++ (if hasNone (added log) && hasNone (labelMismatch log) && hasNone (removed log)
         && hasNone (skipped log) && hasNone (missingFrontmatter log)
         && hasNone (unmatched log) && hasNone (missingFiles log)
      then ["  No changes detected."] else []).

(** The values that [main] hands to [printSection] for a report. *)
Definition reportValues (log : ChangeLog) : list string :=
  added log ++ map mismatchLine (labelMismatch log) ++ removed log ++ skipped log
  ++ missingFrontmatter log ++ unmatched log ++ missingFiles log.

(** What a sequence of [console.log] calls with one string each writes to
    the standard output: each string, followed by a line break. *)
Definition stdout (calls : list string) : string :=
  foldr (fun arg out => arg +:+ String newline out) "" calls.

(** The lines of a text; the last one is what follows the last line
    break. *)
Definition linesOf (text : string) : list string := Path.splitOn newline text.


(** ** More sample data *)

Module Example.

(** A section without entries, and a page with a title below the root. *)
Definition emptyGuideConfig : DocsConfig :=
  mkDocsConfig JNull [ mkNavSection "Guide" [] None ] None [].

Definition emptyGuide : FileSystem :=
  {| docs := list_to_map
       [ ("/repo/docs/r/guide/intro.md", Sample.document ["title: Introduction"] "") ];
     configs := {[ Sample.configPath := emptyGuideConfig ]} |}.

(** The route [x] is held by two containers. *)
Definition heldTwice : DocsConfig :=
  mkDocsConfig JNull
    [ mkNavSection "One" [Sample.entry "A" "x"] None;
      mkNavSection "Two" [Sample.entry "B" "x"] None ]
    None [].

(** A page with a title of its own and a [ref] to a skipped page. *)
Definition titled : FileSystem :=
  {| docs := list_to_map
       [ ("/repo/docs/r/a.md", Sample.document ["title: A"; "ref: ./b.md"] "");
         ("/repo/docs/r/b.md", Sample.document ["title: B"; "skip: true"] "") ];
     configs := ∅ |}.

End Example.

Module Forged.

(** A report whose only entry is a route with a line break in it. *)
Definition log : ChangeLog :=
  {| added := []; labelMismatch := []; removed := []; skipped := [];
     missingFrontmatter := [];
     unmatched := ["x" +:+ String newline "  No changes detected."];
     missingFiles := [] |}.

End Forged.

Module Inherited.

(** A page whose title is a pair of quotes and which refers to a page with
    a title. *)
Definition config : DocsConfig :=
  mkDocsConfig JNull [ mkNavSection "Guide" [Sample.entry "Foo" "g/b"] None ] None [].

Definition page : string :=
  Sample.document ["title: " +:+ doubleQuote +:+ doubleQuote; "ref: ./b.md"] "".

Definition site : FileSystem :=
  {| docs := list_to_map
       [ ("/repo/docs/r/g/p.md", page);
         ("/repo/docs/r/g/b.md", Sample.document ["title: Foo"] "") ];
     configs := {[ Sample.configPath := config ]} |}.

End Inherited.

(** ** The config file as a text *)

(** Above, a [config.json] is held as the value that [JSON.parse] gives for
    it, seen through the interfaces of the script.  Here it is held as the
    text that is in the file, so that what [JSON.parse] and
    [JSON.stringify] do to it is part of the model.  The text is modelled
    by its tree, a [Json]: the members of an object in the order of the
    text, a key as many times as the text has it, a number by its literal.
    White space and the escapes of strings are below the level of the
    tree. *)
Module OnDisk.

(** An array index: the canonical numeric string of an integer from 0 to
    [2^32 - 2]. *)
Definition arrayIndex (key : string) : option N :=
  match NilEmpty.uint_of_string key with
  | Some digits =>
    let n := N.of_uint digits in
    if String.eqb (NilEmpty.string_of_uint (N.to_uint n)) key && (n <? 4294967295)%N
    then Some n else None
  | None => None
  end.

(** The value of a number literal, printed as [JSON.stringify] prints it.
    The model follows the literals of whole numbers that a double holds
    exactly, up to [2^53] in size, [-0] included; any other literal (a
    fraction, an exponent, a larger number) is outside the model. *)
Definition numberToString (literal : string) : option string :=
  match NilEmpty.int_of_string literal with
  | Some digits =>
    let z := Z.of_int digits in
    let printed := NilEmpty.string_of_int (Z.to_int z) in
    if (String.eqb printed literal || String.eqb literal "-0")
       && (Z.abs z <=? 9007199254740992)
    then Some printed else None
  | None => None
  end.

(** The properties of an object, in the order in which its keys are
    enumerated: the array indices in ascending order, then the other keys
    in the order of their creation. *)
Abbreviation Properties := (list (string * Json)).

Definition hasProperty (key : string) (obj : Properties) : bool :=
  existsb (fun kv => String.eqb (fst kv) key) obj.

(** The value of an existing property is replaced; its place stays. *)
Fixpoint setValue (key : string) (v : Json) (obj : Properties) : Properties :=
  match obj with
  | [] => []
  | (k, w) :: rest =>
    if String.eqb k key then (k, v) :: rest else (k, w) :: setValue key v rest
  end.

(** A new property whose key is the array index [i]. *)
Fixpoint addIndex (i : N) (key : string) (v : Json) (obj : Properties) : Properties :=
  match obj with
  | [] => [(key, v)]
  | (k, w) :: rest =>
    match arrayIndex k with
    | Some j => if (j <? i)%N then (k, w) :: addIndex i key v rest else (key, v) :: obj
    | None => (key, v) :: obj
    end
  end.

(** [CreateDataProperty(obj, key, v)], as [JSON.parse] does it for each
    member of an object of the text. *)
Definition createDataProperty (key : string) (v : Json) (obj : Properties) : Properties :=
  if hasProperty key obj then setValue key v obj
  else
    match arrayIndex key with
    | Some i => addIndex i key v obj
    | None => obj ++ [(key, v)]
    end.

(** [JSON.parse], from the tree of the text to the value, written as a
    tree again: the properties of an object in the order of their
    enumeration, a number by what [JSON.stringify] prints for it.  [None]:
    the text has a number that is outside the model. *)
Fixpoint jsonParse (text : Json) : option Json :=
  match text with
  | JNull => Some JNull
  | JBool b => Some (JBool b)
  | JNumber literal => JNumber <$> numberToString literal
  | JString s => Some (JString s)
  | JArray items =>
    JArray <$>
      (fix elements (l : list Json) : option (list Json) :=
         match l with
         | [] => Some []
         | x :: rest =>
           match jsonParse x, elements rest with
           | Some v, Some vs => Some (v :: vs)
           | _, _ => None
           end
         end) items
  | JObject members =>
    JObject <$>
      (fix properties (l : list (string * Json)) (obj : Properties) : option Properties :=
         match l with
         | [] => Some obj
         | (key, x) :: rest =>
           match jsonParse x with
           | Some v => properties rest (createDataProperty key v obj)
           | None => None
           end
         end) members []
  end.



(** [obj[key]] for an own property. *)
Definition member (key : string) (obj : Properties) : option Json :=
  snd <$> List.find (fun kv => String.eqb (fst kv) key) obj.

(** *** The value seen through the interfaces

    The script reaches into the value by [config.sections],
    [section.children], [section.frameworks], [framework.children],
    [item.to] and [item.label].  Where the value has the shape of the
    interfaces, the view is the typed config of the sections above.
    [Thrown]: the script throws a [TypeError] in [buildPlacementIndex],
    reading a property of [null] or iterating over something that cannot
    be iterated.  [Stuck]: the value is outside the interfaces in a way
    that lets the script go on (an entry without [to], members that the
    interfaces do not declare, or in another order than [label],
    [children], [frameworks] and [label], [to], [badge]); the model does
    not follow it there. *)

Fixpoint mapRun {A B : Type} (f : A -> Run B) (l : list A) : Run (list B) :=
  match l with
  | [] => Returned []
  | x :: rest => await y <- f x; await ys <- mapRun f rest; Returned (y :: ys)
  end.

Definition asItem (v : Json) : Run NavItem :=
  match v with
  | JNull => Thrown
  | JObject [(k1, JString l); (k2, JString t)] =>
    if String.eqb k1 "label" && String.eqb k2 "to"
    then Returned (mkNavItem l t None) else Stuck
  | JObject [(k1, JString l); (k2, JString t); (k3, JString b)] =>
    if String.eqb k1 "label" && String.eqb k2 "to" && String.eqb k3 "badge"
    then Returned (mkNavItem l t (Some b)) else Stuck
  | _ => Stuck
  end.

(** [for (const item of x.children)] *)
Definition asChildren (children : option Json) : Run (list NavItem) :=
  match children with
  | None | Some JNull => Thrown
  | Some (JArray items) => mapRun asItem items
  | Some _ => Stuck
  end.

Definition asFramework (v : Json) : Run FrameworkGroup :=
  match v with
  | JObject members =>
    match member "children" members, members with
    | None, _ => Thrown
    | Some _, [(k1, JString l); (k2, c)] =>
      if String.eqb k1 "label" && String.eqb k2 "children"
      then await children <- asChildren (Some c); Returned (mkFrameworkGroup l children)
      else Stuck
    | Some _, _ => Stuck
    end
  | _ => Thrown
  end.

Definition asSection (v : Json) : Run NavSection :=
  match v with
  | JObject members =>
    match member "children" members, members with
    | None, _ => Thrown
    | Some _, [(k1, JString l); (k2, c)] =>
      if String.eqb k1 "label" && String.eqb k2 "children"
      then await children <- asChildren (Some c); Returned (mkNavSection l children None)
      else Stuck
    | Some _, [(k1, JString l); (k2, c); (k3, JArray frameworks)] =>
      if String.eqb k1 "label" && String.eqb k2 "children" && String.eqb k3 "frameworks"
      then await children <- asChildren (Some c);
           await groups <- mapRun asFramework frameworks;
           Returned (mkNavSection l children (Some groups))
      else Stuck
    | Some _, _ => Stuck
    end
  | _ => Thrown
  end.

Definition asUsers (v : option Json) : option (list string) :=
  match v with
  | Some (JArray items) =>
    mapM (fun item => match item with JString s => Some s | _ => None end) items
  | _ => None
  end.

(** The typed config.  The script does not look at [docSearch], at [users]
    or at the other members of the object; they are in the typed config as
    far as it can hold them, and are written from the value itself. *)
Definition asConfig (value : Json) : Run DocsConfig :=
  match value with
  | JObject properties =>
    match member "sections" properties with
    | None | Some JNull => Thrown
    | Some (JArray sections) =>
      await secs <- mapRun asSection sections;
      Returned
        (mkDocsConfig (default JNull (member "docSearch" properties)) secs
           (asUsers (member "users" properties))
           (filter (fun kv => fst kv ∉ ["docSearch"; "sections"; "users"]) properties))
    | Some _ => Stuck
    end
  | _ => Thrown
  end.

(** The objects of the typed config, as trees.  An entry that the script
    creates is the object [{ label, to }]. *)
Definition ofItem (item : NavItem) : Json :=
  JObject ([("label", JString (label item)); ("to", JString (to item))]
           ++ match badge item with Some b => [("badge", JString b)] | None => [] end).

Definition ofFramework (framework : FrameworkGroup) : Json :=
  JObject [("label", JString (fw_label framework));
           ("children", JArray (ofItem <$> fw_children framework))].

Definition ofSection (section : NavSection) : Json :=
  JObject ([("label", JString (sec_label section));
            ("children", JArray (ofItem <$> sec_children section))]
           ++ match sec_frameworks section with
              | Some frameworks => [("frameworks", JArray (ofFramework <$> frameworks))]
              | None => []
              end).

(** The value after the pass.  The script changes the [children] arrays of
    the value in place and nothing else of it: as a tree, the value is
    the one parsed, with the sections as the pass leaves them. *)
Definition withSections (value : Json) (secs : list NavSection) : Json :=
  match value with
  | JObject properties => JObject (setValue "sections" (JArray (ofSection <$> secs)) properties)
  | _ => value
  end.

(** The files: the documents and their text, the [config.json] files and
    the tree of their text, and the paths at which [fs.writeFile] fails. *)
Record Disk := mkDisk {
  pages : gmap string string;
  jsonFiles : gmap string Json;
  readOnly : gset string
}.

(** [readJson]: the file is read and parsed; it throws when there is no
    file or its text is not JSON. *)
Definition readJson (d : Disk) (path : string) : Run Json :=
  match jsonFiles d !! path with
  | Some text =>
    match jsonParse text with
    | Some value => Returned value
    | None => Stuck
    end
  | None => Thrown
  end.

(** The disk once the file at [path] holds the text of [value]:
    [JSON.stringify] prints the properties of each object in the order of
    their enumeration, so that the tree of the text written is the
    value. *)
Definition withFile (d : Disk) (path : string) (value : Json) : Disk :=
  {| pages := pages d;
     jsonFiles := <[path := value]> (jsonFiles d);
     readOnly := readOnly d |}.

(** [writeJson]: the value is printed and written; it throws when the file
    cannot be written. *)
Definition writeJson (d : Disk) (path : string) (value : Json) : Run Disk :=
  if bool_decide (path ∈ readOnly d) then Thrown else Returned (withFile d path value).

(** The files as the sections above hold them: each [config.json] as the
    typed value of its text. *)
Definition parsedFile (text : Json) : option DocsConfig :=
  match jsonParse text with
  | Some value =>
    match asConfig value with
    | Returned config => Some config
    | _ => None
    end
  | None => None
  end.

Definition parsed (d : Disk) : FileSystem :=
  {| docs := pages d; configs := omap parsedFile (jsonFiles d) |}.

(** [processDocsConfig], from the text read to the text written. *)
Definition processDocsConfig (cwd dir : string) (cache : Cache) (d : Disk)
    : Run (ChangeLog * Cache * Disk) :=
  let configPath := Path.join [dir; "config.json"] in
  await value <- readJson d configPath;
  await config <- asConfig value;
  await (config1, log, cache1) <- syncConfig (parsed d) cwd dir cache config;
  await d1 <- writeJson d configPath (withSections value (sections config1));
  Returned (log, cache1, d1).






Definition indexLe (a b : string) : Prop :=
  (default 0 (arrayIndex a) ≤ default 0 (arrayIndex b))%N.

#[global] Instance indexLe_dec : RelDecision indexLe.
Proof. intros a b. unfold indexLe. apply _. Defined.









End OnDisk.

Module Reordered.

(** A config whose text has two keys that are array indices, after the
    other keys and in descending order, and the number [-0]. *)
Definition text : Json :=
  JObject
    [ ("docSearch", JObject [("indexName", JString "docs"); ("7", JNumber "-0")]);
      ("sections",
       JArray [ JObject [("label", JString "Guide");
                         ("children", JArray [ JObject [("label", JString "A");
                                                        ("to", JString "a")] ])] ]);
      ("10", JBool true);
      ("9", JBool false) ].



End Reordered.

(** * Proofs *)

(** ** Strings *)

Lemma strLength_take n s : String.length (Js.take n s) = Nat.min n (String.length s).
Proof.
  revert s; induction n as [|n IH]; intros [|c s]; simpl; auto.
Qed.

Lemma strLength_drop n s : String.length (Js.drop n s) = (String.length s - n)%nat.
Proof.
  revert s; induction n as [|n IH]; intros [|c s]; simpl; auto.
Qed.

Lemma lastIndexOfFrom_range c s i found :
  Js.lastIndexOfFrom c s i found = found
  ∨ i <= Js.lastIndexOfFrom c s i found < i + Js.strLen s.
Proof.
  revert i found; induction s as [|d s IH]; intros i found; simpl; [by left|].
  unfold Js.strLen in *; simpl String.length.
  destruct (IH (i + 1) (if Ascii.eqb d c then i else found)) as [-> | H].
  - destruct (Ascii.eqb d c); [right; lia | by left].
  - right; lia.
Qed.

Lemma truthy_false s : Js.truthy s = false ↔ s = "".
Proof. by destruct s. Qed.

Lemma truthy_true s : Js.truthy s = true ↔ s ≠ "".
Proof. by destruct s. Qed.

Lemma parentRoute_empty : parentRoute "" = "".
Proof. reflexivity. Qed.

(** A route is strictly longer than its parent. *)
Lemma parentRoute_shorter route :
  route ≠ "" → (String.length (parentRoute route) < String.length route)%nat.
Proof.
  intros Hne. unfold parentRoute, Js.lastIndexOf.
  assert (0 < String.length route)%nat by (destruct route; [done | simpl; lia]).
  destruct (lastIndexOfFrom_range "/" route 0 (-1)) as [-> | Hr]; [done|].
  destruct (Z.eqb_spec (Js.lastIndexOfFrom "/" route 0 (-1)) (-1)) as [|_]; [done|].
  unfold Js.slice, Js.clampPos, Js.strLen in *.
  change (0 <? 0)%Z with false. cbv iota.
  rewrite (Z.min_l 0) by lia. simpl Js.drop.
  destruct (Z.ltb_spec (Js.lastIndexOfFrom "/" route 0 (-1)) 0); [lia|].
  rewrite strLength_take. lia.
Qed.

Lemma parentRoute_neq route : route ≠ "" → parentRoute route ≠ route.
Proof.
  intros Hne Heq. pose proof (parentRoute_shorter route Hne) as H.
  rewrite Heq in H. lia.
Qed.

Lemma parent_eqb_false route :
  route ≠ "" → String.eqb (parentRoute route) route = false.
Proof. intros H. apply String.eqb_neq. by apply parentRoute_neq. Qed.

(** ** The loops over the ancestors of a route *)

(** With more fuel than the route has characters, the loop ends on its own
    condition: more fuel changes nothing. *)
Lemma chainFrom_fuel fuel1 fuel2 current :
  (String.length current < fuel1)%nat → (String.length current < fuel2)%nat →
  chainFrom fuel1 current = chainFrom fuel2 current.
Proof.
  revert fuel2 current; induction fuel1 as [|fuel1 IH]; intros fuel2 current H1 H2; [lia|].
  destruct fuel2 as [|fuel2]; [lia|]. simpl.
  destruct (Js.truthy current) eqn:Ht; [|done]. f_equal.
  apply truthy_true in Ht. pose proof (parentRoute_shorter _ Ht).
  destruct (negb (Js.truthy (parentRoute current)) || _); [done|].
  apply IH; lia.
Qed.

Lemma routeChain_empty : routeChain "" = [].
Proof. reflexivity. Qed.

Lemma routeChain_unfold route :
  route ≠ "" →
  routeChain route =
    route :: (if Js.truthy (parentRoute route) then routeChain (parentRoute route) else []).
Proof.
  intros Hne. unfold routeChain at 1. simpl.
  rewrite (proj2 (truthy_true route) Hne), parent_eqb_false, orb_false_r by done.
  f_equal. destruct (Js.truthy (parentRoute route)) eqn:Hp; [|done]. simpl.
  pose proof (parentRoute_shorter _ Hne).
  apply chainFrom_fuel; lia.
Qed.

Lemma registerDirs_chain fuel current placement dirs :
  registerDirs fuel current placement dirs
  = foldl (claimDir placement) dirs (chainFrom fuel current).
Proof.
  revert current dirs; induction fuel as [|fuel IH]; intros current dirs; [done|].
  simpl. destruct (Js.truthy current); [|done]. simpl. fold (claimDir placement dirs current).
  destruct (negb (Js.truthy (parentRoute current)) || _); [done|]. apply IH.
Qed.

(** [register]'s loop is run to its end. *)
Lemma registerDirs_fuel route placement dirs :
  registerDirs (S (String.length route)) route placement dirs
  = foldl (claimDir placement) dirs (routeChain route).
Proof. apply registerDirs_chain. Qed.

Lemma byDir_register route placement index :
  byDir (register route placement index)
  = foldl (claimDir placement) (byDir index) (routeChain route).
Proof. apply registerDirs_fuel. Qed.

Lemma claimDir_lookup placement dirs current x :
  claimDir placement dirs current !! x
  = match dirs !! x with
    | Some q => Some q
    | None => if decide (x = current) then Some placement else None
    end.
Proof.
  unfold claimDir. destruct (dirs !! current) eqn:Hc.
  - destruct (dirs !! x) eqn:Hx; [done|]. case_decide; [congruence | done].
  - case_decide as Heq.
    + subst. rewrite lookup_insert_eq. by rewrite Hc.
    + rewrite lookup_insert_ne by done. by destruct (dirs !! x).
Qed.

Lemma claimDirs_lookup placement chain dirs x :
  foldl (claimDir placement) dirs chain !! x
  = match dirs !! x with
    | Some q => Some q
    | None => if decide (x ∈ chain) then Some placement else None
    end.
Proof.
  revert dirs; induction chain as [|c chain IH]; intros dirs; simpl.
  - by destruct (dirs !! x).
  - rewrite IH, claimDir_lookup. destruct (dirs !! x); [done|].
    destruct (decide (x = c)) as [->|Hne].
    + rewrite decide_True by set_solver. done.
    + destruct (decide (x ∈ chain)).
      * rewrite decide_True by set_solver. done.
      * rewrite decide_False by set_solver. done.
Qed.

(** ** The index as a function of the registrations *)

Lemma registerItems_registerAll container p index :
  registerItems container p index = registerAll (itemRegistrations container p) index.
Proof.
  unfold registerItems, registerAll, itemRegistrations.
  revert index; induction container as [|item container IH]; intros index; simpl; auto.
Qed.

Lemma registerAll_app regs1 regs2 index :
  registerAll (regs1 ++ regs2) index = registerAll regs2 (registerAll regs1 index).
Proof. apply foldl_app. Qed.

Lemma registerFrameworks_registerAll i j frameworks index :
  registerFrameworks i j frameworks index
  = registerAll (frameworkRegistrations i j frameworks) index.
Proof.
  revert j index; induction frameworks as [|fw frameworks IH]; intros j index; simpl; [done|].
  by rewrite IH, registerAll_app, registerItems_registerAll.
Qed.

Lemma registerSections_registerAll i secs index :
  registerSections i secs index = registerAll (sectionRegistrations i secs) index.
Proof.
  revert i index; induction secs as [|section secs IH]; intros i index; simpl; [done|].
  rewrite IH, !registerAll_app, registerItems_registerAll.
  destruct (sec_frameworks section); simpl; [|done].
  by rewrite registerFrameworks_registerAll.
Qed.

Lemma buildPlacementIndex_registrations config :
  buildPlacementIndex config = registerAll (registrations config) (mkPlacementIndex ∅ ∅).
Proof. apply registerSections_registerAll. Qed.

Lemma byDir_registerAll regs index x :
  byDir (registerAll regs index) !! x
  = match byDir index !! x with
    | Some q => Some q
    | None => firstClaim x regs
    end.
Proof.
  revert index; induction regs as [|[r p] regs IH]; intros index; simpl.
  - by destruct (byDir index !! x).
  - unfold registerAll in *; simpl. rewrite IH, byDir_register, claimDirs_lookup.
    destruct (byDir index !! x); [done|]. by case_decide.
Qed.

Lemma byRoute_registerAll regs index x :
  byRoute (registerAll regs index) !! x
  = match lastExact x regs with
    | Some q => Some q
    | None => byRoute index !! x
    end.
Proof.
  revert index; induction regs as [|[r p] regs IH]; intros index; simpl; [done|].
  unfold registerAll in *; simpl. rewrite IH.
  destruct (lastExact x regs); [done|]. simpl.
  case_decide as Heq.
  - subst. by rewrite lookup_insert_eq.
  - by rewrite lookup_insert_ne.
Qed.

Lemma firstClaim_app x regs1 regs2 :
  firstClaim x (regs1 ++ regs2)
  = match firstClaim x regs1 with Some q => Some q | None => firstClaim x regs2 end.
Proof.
  induction regs1 as [|reg regs1 IH]; simpl; [done|]. by case_decide.
Qed.

Lemma firstClaim_None x regs :
  firstClaim x regs = None ↔ ∀ reg, reg ∈ regs → x ∉ routeChain reg.1.
Proof.
  induction regs as [|reg regs IH]; simpl.
  - split; [|done]. intros _ reg H. by apply elem_of_nil in H.
  - case_decide as Hx.
    + split; [done|]. intros H. exfalso. apply (H reg); [left | done].
    + rewrite IH. split.
      * intros H reg' [->|Hin]%elem_of_cons; auto.
      * intros H reg' Hin. apply H. by right.
Qed.

Lemma firstClaim_Some x regs p :
  firstClaim x regs = Some p → ∃ r, (r, p) ∈ regs ∧ x ∈ routeChain r.
Proof.
  induction regs as [|[r q] regs IH]; simpl; [done|].
  case_decide as Hx.
  - intros [= ->]. exists r. split; [left | done].
  - intros [r' [Hin Hc]]%IH. exists r'. split; [by right | done].
Qed.

Lemma lastExact_app x regs1 regs2 :
  lastExact x (regs1 ++ regs2)
  = match lastExact x regs2 with Some q => Some q | None => lastExact x regs1 end.
Proof.
  induction regs1 as [|reg regs1 IH]; simpl.
  - by destruct (lastExact x regs2).
  - rewrite IH. by destruct (lastExact x regs2).
Qed.

Lemma lastExact_None x regs : lastExact x regs = None ↔ x ∉ regs.*1.
Proof.
  induction regs as [|[r p] regs IH]; simpl.
  - split; [|done]. intros _ H. by apply elem_of_nil in H.
  - destruct (lastExact x regs) eqn:Hl.
    + split; [done|]. intros Hn. exfalso.
      assert (x ∉ regs.*1) as Hx by set_solver. apply IH in Hx. done.
    + assert (x ∉ regs.*1) by (by apply IH).
      case_decide; [split; [done | set_solver] | split; [set_solver | done]].
Qed.

Lemma lastExact_Some x regs p : lastExact x regs = Some p → (x, p) ∈ regs.
Proof.
  induction regs as [|[r q] regs IH]; simpl; [done|].
  destruct (lastExact x regs).
  - intros [= ->]. right. by apply IH.
  - case_decide; [|done]. intros [= ->]. subst. left.
Qed.

(** The chain of a route holds the non-empty results of applying
    [parentRoute] repeatedly. *)
Lemma elem_of_routeChain x route :
  x ∈ routeChain route ↔ x ≠ "" ∧ ∃ k, Nat.iter k parentRoute route = x.
Proof.
  remember (String.length route) as n eqn:Hn.
  revert route Hn; induction (lt_wf n) as [n _ IH]; intros route ->.
  destruct (decide (route = "")) as [->|Hne].
  - rewrite routeChain_empty. split; [by intros H%elem_of_nil|].
    intros [Hx [k Hk]]. exfalso. apply Hx. rewrite <- Hk.
    clear. induction k as [|k IHk]; simpl; [done|]. by rewrite IHk.
  - rewrite routeChain_unfold by done. rewrite elem_of_cons.
    pose proof (parentRoute_shorter _ Hne) as Hlt.
    specialize (IH _ Hlt (parentRoute route) eq_refl).
    split.
    + intros [->|Hin]; [split; [done | by exists O]|].
      destruct (Js.truthy (parentRoute route)); [|by apply elem_of_nil in Hin].
      apply IH in Hin as [Hx [k Hk]]. split; [done|]. exists (S k).
      by rewrite Nat.iter_succ_r.
    + intros [Hx [k Hk]]. destruct k as [|k]; [by left|]. right.
      rewrite Nat.iter_succ_r in Hk.
      destruct (Js.truthy (parentRoute route)) eqn:Hp.
      * apply IH. split; [done | by exists k].
      * apply truthy_false in Hp. rewrite Hp in Hk. exfalso. apply Hx. rewrite <- Hk.
        clear. induction k as [|k IHk]; simpl; [done|]. by rewrite IHk.
Qed.

Lemma lookup_byDir_register index route placement x q :
  byDir index !! x = Some q → byDir (register route placement index) !! x = Some q.
Proof. intros H. by rewrite byDir_register, claimDirs_lookup, H. Qed.

(** C7.  Take the calls [register(route, placement)] that
    [buildPlacementIndex] makes for a config, in order, and one of them,
    for an entry with route [route] in the container [placement].  Let [x]
    be a non-empty route reached from [route] by applying [parentRoute]
    repeatedly, which no earlier call has on its chain.  Then [byDir] maps
    [x] to [placement] from that call on: after every later call, exact
    registrations of [x] itself included, and in the index returned.  More
    generally [register] never changes what [byDir] already maps. *)
Theorem byDir_first_registrant_wins
    (config : DocsConfig) (before after : list (string * Placement))
    (route : string) (placement : Placement) (k : nat) (x : string) :
  registrations config = before ++ (route, placement) :: after →
  Nat.iter k parentRoute route = x →
  x ≠ "" →
  (∀ r p j, (r, p) ∈ before → Nat.iter j parentRoute r ≠ x) →
  (∀ n, (length before < n)%nat →
        byDir (registerAll (take n (registrations config)) (mkPlacementIndex ∅ ∅)) !! x
        = Some placement)
  ∧ byDir (buildPlacementIndex config) !! x = Some placement
  ∧ (∀ index later q, byDir index !! x = Some placement →
        byDir (register later q index) !! x = Some placement).
Proof.
  intros Hregs Hk Hx Hfirst.
  assert (∀ rest, byDir (registerAll (before ++ (route, placement) :: rest)
                           (mkPlacementIndex ∅ ∅)) !! x = Some placement) as Hany.
  { intros rest. rewrite byDir_registerAll. simpl. rewrite lookup_empty.
    rewrite firstClaim_app.
    assert (firstClaim x before = None) as ->.
    { apply firstClaim_None. intros [r p] Hin [_ [j Hj]]%elem_of_routeChain.
      by apply (Hfirst r p j). }
    simpl. rewrite decide_True; [done|].
    apply elem_of_routeChain. split; [done | by exists k]. }
  split; [|split].
  - intros n Hn. rewrite Hregs.
    rewrite take_app_ge by lia.
    destruct (n - length before)%nat as [|m] eqn:Hm; [lia|]. simpl. apply Hany.
  - rewrite buildPlacementIndex_registrations, Hregs. apply Hany.
  - intros index later q. apply lookup_byDir_register.
Qed.

(** ** The config as a store of containers *)

Lemma setContainer_sections config p c :
  sections (setContainer config p c)
  = alter (fun section =>
       match pl_framework p with
       | None => setSecChildren c section
       | Some j => setSecFrameworks (alter (setFwChildren c) j <$> sec_frameworks section) section
       end) (pl_section p) (sections config).
Proof. reflexivity. Qed.

Lemma containerOf_setContainer_eq config p c :
  is_Some (containerOf config p) → containerOf (setContainer config p c) p = Some c.
Proof.
  destruct p as [i f]. unfold containerOf. rewrite setContainer_sections. simpl.
  rewrite list_lookup_alter_eq.
  destruct (sections config !! i) as [section|]; simpl; [|by intros [? ?]].
  destruct f as [j|]; simpl; [|done].
  destruct (sec_frameworks section) as [fws|]; simpl; [|by intros [? ?]].
  rewrite list_lookup_alter_eq.
  destruct (fws !! j); simpl; [done | by intros [? ?]].
Qed.

Lemma containerOf_setContainer_ne config p p' c :
  p ≠ p' → containerOf (setContainer config p c) p' = containerOf config p'.
Proof.
  destruct p as [i f], p' as [i' f']. intros Hne.
  unfold containerOf. rewrite setContainer_sections. simpl.
  destruct (decide (i = i')) as [<-|Hi]; [|by rewrite list_lookup_alter_ne].
  rewrite list_lookup_alter_eq.
  destruct (sections config !! i) as [section|]; simpl; [|done].
  destruct f as [j|], f' as [j'|]; simpl; try done.
  destruct (sec_frameworks section) as [fws|]; simpl; [|done].
  rewrite list_lookup_alter_ne; [done | congruence].
Qed.

Lemma setContainer_same config p c :
  containerOf config p = Some c → setContainer config p c = config.
Proof.
  destruct p as [i f], config as [ds secs us un]. unfold containerOf, setContainer, setSections.
  simpl. intros H. f_equal.
  apply list_eq. intros i'.
  destruct (decide (i = i')) as [<-|Hi]; [|by rewrite list_lookup_alter_ne].
  rewrite list_lookup_alter_eq.
  destruct (secs !! i) as [[l ch fws]|]; simpl in *; [|done]. f_equal.
  unfold setSecChildren, setSecFrameworks. simpl.
  destruct f as [j|]; simpl in *; [|congruence].
  f_equal. destruct fws as [fws|]; simpl in *; [|done]. f_equal.
  apply list_eq. intros j'.
  destruct (decide (j = j')) as [<-|Hj]; [|by rewrite list_lookup_alter_ne].
  rewrite list_lookup_alter_eq.
  destruct (fws !! j) as [[fl fc]|]; simpl in *; [|done].
  unfold setFwChildren; simpl. congruence.
Qed.

Lemma skeleton_setContainer config p c :
  skeleton (setContainer config p c) = skeleton config.
Proof.
  destruct p as [i f], config as [ds secs us un]. unfold skeleton, setContainer, setSections.
  simpl. f_equal.
  apply list_eq. intros i'. rewrite !list_lookup_fmap.
  destruct (decide (i = i')) as [<-|Hi]; [|by rewrite list_lookup_alter_ne].
  rewrite list_lookup_alter_eq.
  destruct (secs !! i) as [[l ch fws]|]; simpl; [|done]. f_equal.
  unfold skeletonOfSection; simpl.
  destruct f as [j|]; simpl; [|done]. f_equal.
  destruct fws as [fws|]; simpl; [|done]. f_equal.
  apply list_eq. intros j'. rewrite !list_lookup_fmap.
  destruct (decide (j = j')) as [<-|Hj]; [|by rewrite list_lookup_alter_ne].
  rewrite list_lookup_alter_eq. by destruct (fws !! j).
Qed.

Lemma containerOf_skeleton config p :
  containerOf (skeleton config) p = (fun _ => []) <$> containerOf config p.
Proof.
  destruct p as [i f]. unfold containerOf, skeleton. simpl.
  rewrite list_lookup_fmap.
  destruct (sections config !! i) as [section|]; simpl; [|done].
  destruct f as [j|]; simpl; [|done].
  destruct (sec_frameworks section) as [fws|]; simpl; [|done].
  rewrite list_lookup_fmap. by destruct (fws !! j).
Qed.

(** Whether a placement refers to an array depends on the skeleton only. *)
Lemma containerOf_is_Some_skeleton config config' p :
  skeleton config = skeleton config' →
  is_Some (containerOf config p) → is_Some (containerOf config' p).
Proof.
  intros Hs [c Hc].
  assert (containerOf (skeleton config') p = Some []) as H.
  { rewrite <- Hs, containerOf_skeleton, Hc. done. }
  rewrite containerOf_skeleton in H.
  destruct (containerOf config' p); [by eexists | done].
Qed.

(** The registrations are the entries of the containers. *)
Lemma elem_of_itemRegistrations container p r q :
  (r, q) ∈ itemRegistrations container p ↔ q = p ∧ ∃ item, item ∈ container ∧ to item = r.
Proof.
  unfold itemRegistrations. rewrite list_elem_of_fmap. split.
  - intros [item [[= -> ->] Hin]]. eauto.
  - intros [-> [item [Hin <-]]]. eauto.
Qed.

Lemma elem_of_frameworkRegistrations i j fws r q :
  (r, q) ∈ frameworkRegistrations i j fws
  ↔ ∃ j' fw item, q = mkPlacement i (Some (j + j')%nat) ∧ fws !! j' = Some fw
                  ∧ item ∈ fw_children fw ∧ to item = r.
Proof.
  revert j; induction fws as [|fw fws IH]; intros j; simpl.
  - split; [by intros H%elem_of_nil | by intros (? & ? & ? & _ & ? & _)].
  - rewrite elem_of_app, elem_of_itemRegistrations, IH. split.
    + intros [[-> [item [Hin Hto]]] | (j' & fw' & item & -> & Hl & Hin & Hto)].
      * exists O, fw, item. rewrite Nat.add_0_r. done.
      * exists (S j'), fw', item. rewrite <- Nat.add_succ_comm. done.
    + intros (j' & fw' & item & -> & Hl & Hin & Hto). destruct j' as [|j'].
      * left. simpl in Hl. injection Hl as <-. rewrite Nat.add_0_r. eauto.
      * right. exists j', fw', item. rewrite Nat.add_succ_comm. done.
Qed.

Lemma elem_of_sectionRegistrations i secs r q :
  (r, q) ∈ sectionRegistrations i secs
  ↔ ∃ i' c item, pl_section q = (i + i')%nat
                 ∧ containerOf (mkDocsConfig JNull secs None [])
                               (mkPlacement i' (pl_framework q)) = Some c
                 ∧ item ∈ c ∧ to item = r.
Proof.
  revert i; induction secs as [|section secs IH]; intros i; simpl.
  - split; [by intros H%elem_of_nil|]. by intros (i' & c & item & _ & H & _).
  - rewrite !elem_of_app, elem_of_itemRegistrations, IH. split.
    + intros [[-> [item [Hin Hto]]] | [Hfw | (i' & c & item & Hq & Hc & Hin & Hto)]].
      * exists O, (sec_children section), item. simpl. rewrite Nat.add_0_r. done.
      * destruct (sec_frameworks section) as [fws|] eqn:Hfws; [|by apply elem_of_nil in Hfw].
        apply elem_of_frameworkRegistrations in Hfw
          as (j' & fw & item & -> & Hl & Hin & Hto).
        exists O, (fw_children fw), item. unfold containerOf. simpl.
        rewrite Nat.add_0_r, Hfws. simpl. rewrite Hl. done.
      * exists (S i'), c, item. rewrite <- Nat.add_succ_comm. done.
    + intros (i' & c & item & Hq & Hc & Hin & Hto). destruct i' as [|i'].
      * rewrite Nat.add_0_r in Hq. unfold containerOf in Hc. simpl in Hc.
        destruct q as [qi [j|]]; simpl in *; subst qi.
        -- right; left.
           destruct (sec_frameworks section) as [fws|]; simpl in Hc; [|done].
           apply elem_of_frameworkRegistrations.
           destruct (fws !! j) as [fw|] eqn:Hl; simpl in Hc; [|done].
           injection Hc as <-. exists j, fw, item. done.
        -- left. injection Hc as <-. eauto.
      * right; right. exists i', c, item. rewrite Nat.add_succ_comm. done.
Qed.

Lemma elem_of_registrations config r p :
  (r, p) ∈ registrations config
  ↔ ∃ c item, containerOf config p = Some c ∧ item ∈ c ∧ to item = r.
Proof.
  unfold registrations. rewrite elem_of_sectionRegistrations. split.
  - intros (i' & c & item & Hq & Hc & Hin & Hto). exists c, item.
    destruct p as [i f]; simpl in *. subst i. done.
  - intros (c & item & Hc & Hin & Hto). exists (pl_section p), c, item.
    destruct p as [i f]; simpl in *. done.
Qed.

(** ** [readDocInfo] returns *)

Lemma bindRun_Returned {A B : Type} (r : Run A) (k : A → Run B) b :
  bindRun r k = Returned b ↔ ∃ a, r = Returned a ∧ k a = Returned b.
Proof.
  destruct r; simpl; split; try done; try (by intros [? [? ?]]).
  - eauto.
  - by intros [a' [[= <-] H]].
Qed.

Lemma unvisited_push fs stack refPath :
  refPath ∉ stack → is_Some (docs fs !! refPath) →
  (size (unvisited fs ({[refPath]} ∪ stack)) < size (unvisited fs stack))%nat.
Proof.
  intros Hn Hs. apply subset_size. unfold unvisited.
  apply elem_of_dom in Hs. set_solver.
Qed.

Lemma unvisited_size fs stack : (size (unvisited fs stack) ≤ size (docs fs))%nat.
Proof.
  rewrite <- size_dom. apply subseteq_size. unfold unvisited. set_solver.
Qed.

(** Each call down a chain of [ref]s puts a file that was not on the stack
    on it; when that file is readable the unvisited files get fewer, and
    when it is not the call returns at once. *)
Lemma readDocInfoFuel_returns fuel fs cwd filePath docsDir stack cache :
  (size (unvisited fs stack) + 2 ≤ fuel)%nat
  ∨ ((1 ≤ fuel)%nat ∧ docs fs !! filePath = None) →
  ∃ result, readDocInfoFuel fuel fs cwd filePath docsDir stack cache = Returned result.
Proof.
  revert filePath stack cache.
  induction fuel as [|fuel IH]; intros filePath stack cache Hfuel; [lia|].
  simpl. destruct (cache !! _); [by eexists|].
  unfold readFile. destruct (docs fs !! filePath) as [raw|] eqn:Hraw; [|by eexists].
  destruct Hfuel as [Hfuel | [_ ?]]; [|done].
  destruct (matchFrontmatter raw) as [block|]; [|by eexists].
  destruct (ref (parseBlock block)) as [refValue|]; [|by eexists].
  destruct (negb _ && _); [|by eexists].
  destruct (resolveRefPath _ _ _ _) as [refPath|]; [|by eexists].
  destruct (Js.truthy refPath); simpl; [|by eexists].
  destruct (bool_decide_reflect (refPath ∈ stack)) as [|Hstack]; simpl; [by eexists|].
  destruct (IH refPath ({[refPath]} ∪ stack) cache) as [[referenced cache1] ->].
  - destruct (docs fs !! refPath) eqn:Href.
    + left. pose proof (unvisited_push fs stack refPath Hstack (mk_is_Some _ _ Href)). lia.
    + right. split; [lia | done].
  - simpl. by eexists.
Qed.

(** More fuel does not change what a call returns. *)
Lemma readDocInfoFuel_mono fuel fuel' fs cwd filePath docsDir stack cache result :
  (fuel ≤ fuel')%nat →
  readDocInfoFuel fuel fs cwd filePath docsDir stack cache = Returned result →
  readDocInfoFuel fuel' fs cwd filePath docsDir stack cache = Returned result.
Proof.
  revert fuel' filePath stack cache result.
  induction fuel as [|fuel IH]; intros fuel' filePath stack cache result Hle; [done|].
  destruct fuel' as [|fuel']; [lia|]. simpl.
  destruct (cache !! _); [done|].
  destruct (readFile fs filePath) as [raw|]; [|done].
  destruct (matchFrontmatter raw) as [block|]; [|done].
  destruct (ref (parseBlock block)) as [refValue|]; [|done].
  destruct (negb _ && _); [|done].
  destruct (resolveRefPath _ _ _ _) as [refPath|]; [|done].
  destruct (Js.truthy refPath && _); [|done].
  intros ([referenced cache1] & Hrec & Hk)%bindRun_Returned.
  rewrite (IH fuel' _ _ _ _ ltac:(lia) Hrec). done.
Qed.

(** C8.  [readDocInfo] returns for every file system, every file, every
    stack and every cache: it neither throws nor runs on for ever, whatever
    the chains of [ref]s are, cyclic ones included, and more fuel gives the
    same result.  When the [ref] of the file resolves to a path that is on
    the stack (the chain has come back to a file in progress) the chain is
    cut there: the call returns the info parsed from the file alone. *)
Theorem readDocInfo_terminates
    (fs : FileSystem) (cwd filePath docsDir : string) (stack : gset string) (cache : Cache) :
  ∃ info cache',
    readDocInfo fs cwd filePath docsDir stack cache = Returned (info, cache')
    ∧ (∀ fuel, (2 + size (docs fs) ≤ fuel)%nat →
         readDocInfoFuel fuel fs cwd filePath docsDir stack cache = Returned (info, cache'))
    ∧ (∀ raw block refValue refPath,
         cache !! Path.resolve cwd [filePath] = None →
         readFile fs filePath = Some raw →
         matchFrontmatter raw = Some block →
         ref (parseBlock block) = Some refValue →
         resolveRefPath cwd filePath refValue docsDir = Some refPath →
         refPath ∈ stack →
         info = Some (parseBlock block)).
Proof.
  destruct (readDocInfoFuel_returns (2 + size (docs fs)) fs cwd filePath docsDir stack cache)
    as [[info cache'] Hret].
  { left. pose proof (unvisited_size fs stack). lia. }
  exists info, cache'. split; [done|]. split.
  - intros fuel Hfuel. by apply (readDocInfoFuel_mono (2 + size (docs fs))).
  - intros raw block refValue refPath Hcache Hraw Hblock Href Hres Hstack.
    unfold readDocInfo in Hret. simpl in Hret.
    rewrite Hcache, Hraw, Hblock, Href, Hres in Hret.
    rewrite (bool_decide_eq_true_2 _ Hstack) in Hret.
    rewrite andb_false_r in Hret.
    destruct (negb _ && _); by injection Hret as <- _.
Qed.

(** ** [ensureNavItem] and [removeSkipped] *)

Lemma find_route_Some container route entry :
  List.find (fun e => String.eqb (to e) route) container = Some entry →
  entry ∈ container ∧ to entry = route.
Proof.
  intros H. apply find_some in H as [Hin Heq].
  split; [by apply list_elem_of_In | by apply String.eqb_eq].
Qed.

Lemma find_route_None container route :
  List.find (fun e => String.eqb (to e) route) container = None ↔ route ∉ to <$> container.
Proof.
  induction container as [|e container IH]; simpl.
  - split; [|done]. intros _ H. by apply elem_of_nil in H.
  - destruct (String.eqb_spec (to e) route) as [Heq|Hne].
    + split; [done|]. intros H. exfalso. apply H. rewrite Heq. left.
    + rewrite IH. set_solver.
Qed.

Lemma ensureNavItem_existing container item log :
  to item ∈ to <$> container → (ensureNavItem container item log).1 = container.
Proof.
  intros Hin. unfold ensureNavItem.
  destruct (List.find _ container) eqn:Hf.
  - by destruct (negb _).
  - by apply find_route_None in Hf.
Qed.

Lemma ensureNavItem_absent container item log :
  to item ∉ to <$> container →
  ensureNavItem container item log
  = (container ++ [item], logAdded (label item +:+ " -> " +:+ to item) log).
Proof.
  intros Hn. unfold ensureNavItem. by apply find_route_None in Hn as ->.
Qed.

Lemma withRemoved_removed log : withRemoved (removed log) log = log.
Proof. by destruct log. Qed.

Lemma removeSkippedFrom_spec n container skipRoutes log :
  (n ≤ length container)%nat →
  removeSkippedFrom n container skipRoutes log
  = (keepUnskipped skipRoutes (take n container) ++ drop n container,
     withRemoved (removed log ++ removedRoutes skipRoutes (take n container)) log).
Proof.
  unfold keepUnskipped, removedRoutes.
  revert container log; induction n as [|n IH]; intros container log Hn.
  - rewrite take_0, drop_0. cbn. by rewrite app_nil_r, withRemoved_removed.
  - cbn [removeSkippedFrom]. destruct (lookup_lt_is_Some_2 container n ltac:(lia)) as [entry Hentry].
    rewrite Hentry. rewrite (take_S_r _ _ _ Hentry), !filter_app, !filter_cons, !filter_nil.
    case_decide as Hskip.
    + rewrite IH by (rewrite length_delete; [lia | by eexists]).
      rewrite delete_take_drop.
      rewrite take_app_length', drop_app_length' by (rewrite length_take; lia).
      destruct (decide (to entry ∉ skipRoutes)) as [Hk|_]; [by destruct Hk|].
      rewrite app_nil_r, fmap_app, reverse_app. f_equal.
      unfold withRemoved, logRemoved. simpl. by rewrite <- app_assoc.
    + rewrite IH by lia.
      destruct (decide (to entry ∉ skipRoutes)) as [_|Hk]; [|by destruct Hk].
      rewrite !app_nil_r, <- app_assoc. simpl.
      by rewrite (drop_S _ _ _ Hentry).
Qed.

Lemma removeSkipped_spec container skipRoutes log :
  removeSkipped container skipRoutes log
  = (keepUnskipped skipRoutes container,
     withRemoved (removed log ++ removedRoutes skipRoutes container) log).
Proof.
  unfold removeSkipped. rewrite removeSkippedFrom_spec by done.
  by rewrite take_ge, drop_all, app_nil_r.
Qed.

(** ** The loop over the files, in two halves *)

Lemma classify_returns fs cwd dir configPath cache filePath :
  ∃ v cache1, classify fs cwd dir configPath cache filePath = Returned (v, cache1).
Proof.
  unfold classify. destruct (String.eqb _ _); [by eexists _, _|].
  destruct (isReadme _ || isDraft _); [by eexists _, _|].
  destruct (readDocInfo_terminates fs cwd filePath dir ∅ cache) as (info & cache1 & -> & _).
  simpl. destruct info as [info|]; [|by eexists _, _].
  destruct (title info) as [t|]; [|by eexists _, _].
  destruct (Js.truthy t); [|by eexists _, _].
  destruct (bool_decide _); by eexists _, _.
Qed.

Lemma classifyFiles_returns fs cwd dir configPath cache files :
  ∃ vs cache1, classifyFiles fs cwd dir configPath cache files = Returned (vs, cache1).
Proof.
  revert cache; induction files as [|f files IH]; intros cache; simpl; [by eexists _, _|].
  destruct (classify_returns fs cwd dir configPath cache f) as (v & c1 & ->). simpl.
  destruct (IH c1) as (vs & c2 & ->). simpl. by eexists _, _.
Qed.

Lemma setCache_same st : setCache (st_cache st) st = st.
Proof. by destruct st. Qed.

Lemma processFile_classify fs cwd dir configPath index st filePath :
  processFile fs cwd dir configPath index st filePath
  = await (v, cache1) <- classify fs cwd dir configPath (st_cache st) filePath;
    await st1 <- applyVerdict index st v;
    Returned (setCache cache1 st1).
Proof.
  unfold processFile, classify.
  destruct (String.eqb _ _); simpl; [by rewrite setCache_same|].
  destruct (isReadme _ || isDraft _); simpl; [done|].
  destruct (readDocInfo _ _ _ _ _ _) as [[[info|] cache1]| |]; simpl; try done.
  destruct (title info) as [t|]; simpl; [|done].
  destruct (Js.truthy t); simpl; [|done].
  destruct (bool_decide _); simpl; [done|].
  destruct (findPlacement _ _) as [placement|]; simpl; [|done].
  destruct (containerOf _ _) as [container|]; simpl; [|done].
  by destruct (ensureNavItem _ _ _).
Qed.

Lemma applyVerdict_setCache index cache st v :
  applyVerdict index (setCache cache st) v
  = await st1 <- applyVerdict index st v; Returned (setCache cache st1).
Proof.
  destruct v; simpl; try done.
  destruct (findPlacement _ _) as [placement|]; simpl; [|done].
  destruct (containerOf _ _) as [container|]; simpl; [|done].
  by destruct (ensureNavItem _ _ _).
Qed.

Lemma applyVerdicts_setCache index cache st vs :
  applyVerdicts index (setCache cache st) vs
  = await st1 <- applyVerdicts index st vs; Returned (setCache cache st1).
Proof.
  revert st; induction vs as [|v vs IH]; intros st; simpl; [done|].
  rewrite applyVerdict_setCache.
  destruct (applyVerdict index st v) as [st1| |]; simpl; [|done..]. apply IH.
Qed.

Lemma processFiles_classifyFiles fs cwd dir configPath index files st :
  processFiles fs cwd dir configPath index files st
  = await (vs, cache1) <- classifyFiles fs cwd dir configPath (st_cache st) files;
    await st1 <- applyVerdicts index st vs;
    Returned (setCache cache1 st1).
Proof.
  revert st; induction files as [|f files IH]; intros st; simpl.
  - by rewrite setCache_same.
  - rewrite processFile_classify.
    destruct (classify_returns fs cwd dir configPath (st_cache st) f) as (v & c1 & ->).
    simpl.
    destruct (classifyFiles_returns fs cwd dir configPath c1 files) as (vs & c2 & Hvs).
    rewrite Hvs. simpl.
    destruct (applyVerdict index st v) as [st1| |]; simpl; [|done..].
    rewrite IH. simpl. rewrite Hvs. simpl.
    rewrite applyVerdicts_setCache.
    by destruct (applyVerdicts index st1 vs).
Qed.

(** A pass is the verdicts on the files followed by the reconciliation of
    the config with them. *)
Lemma syncConfig_reconcile fs cwd dir cache config :
  syncConfig fs cwd dir cache config
  = await (vs, cache1) <- verdicts fs cwd dir cache;
    await (config1, log) <- reconcile config vs;
    Returned (config1, log, cache1).
Proof.
  unfold syncConfig, verdicts, reconcile. rewrite processFiles_classifyFiles. simpl.
  destruct (classifyFiles _ _ _ _ _ _) as [[vs cache1]| |]; simpl; [|done..].
  change (mkSyncState config emptyLog ∅ ∅ cache)
    with (setCache cache (mkSyncState config emptyLog ∅ ∅ ∅)).
  rewrite applyVerdicts_setCache.
  destruct (applyVerdicts _ _ vs) as [st| |]; simpl; [|done..].
  unfold finishSync. simpl. by destruct (pruneSections _ _ _).
Qed.

Lemma verdicts_returns fs cwd dir cache :
  ∃ vs cache1, verdicts fs cwd dir cache = Returned (vs, cache1).
Proof. apply classifyFiles_returns. Qed.

(** ** What the loop does to the config *)

Lemma findPlacementFrom_lookup fuel current index p :
  findPlacementFrom fuel current index = Some p → ∃ x, lookupPlacement index x = Some p.
Proof.
  revert current; induction fuel as [|fuel IH]; intros current; simpl; [done|].
  destruct (lookupPlacement index current) as [q|] eqn:Hl.
  - intros [= ->]. eauto.
  - destruct (negb _ || _); [done | apply IH].
Qed.

Lemma lookupPlacement_registered config x p :
  lookupPlacement (buildPlacementIndex config) x = Some p →
  ∃ r, (r, p) ∈ registrations config.
Proof.
  unfold lookupPlacement. rewrite buildPlacementIndex_registrations.
  rewrite byRoute_registerAll, byDir_registerAll. simpl. rewrite !lookup_empty.
  destruct (lastExact x _) as [q|] eqn:Hl.
  - intros [= ->]. apply lastExact_Some in Hl. eauto.
  - intros (r & Hin & _)%firstClaim_Some. eauto.
Qed.

Lemma indexValid_build config : indexValid (buildPlacementIndex config) config.
Proof.
  intros route p (x & Hx)%findPlacementFrom_lookup.
  apply lookupPlacement_registered in Hx as [r Hr].
  apply elem_of_registrations in Hr as (c & _ & Hc & _). by eexists.
Qed.

Lemma indexValid_skeleton index config config' :
  skeleton config = skeleton config' → indexValid index config → indexValid index config'.
Proof.
  intros Hs Hv route p Hf. eapply containerOf_is_Some_skeleton; [done|]. by eapply Hv.
Qed.

Lemma ensureNavItem_container_log container item log log' :
  (ensureNavItem container item log).1 = (ensureNavItem container item log').1.
Proof.
  unfold ensureNavItem. destruct (List.find _ _); [|done]. by destruct (negb _).
Qed.

Lemma removed_ensureNavItem container item log :
  removed (ensureNavItem container item log).2 = removed log
  ∧ missingFiles (ensureNavItem container item log).2 = missingFiles log
  ∧ skipped (ensureNavItem container item log).2 = skipped log
  ∧ missingFrontmatter (ensureNavItem container item log).2 = missingFrontmatter log
  ∧ unmatched (ensureNavItem container item log).2 = unmatched log.
Proof.
  unfold ensureNavItem. destruct (List.find _ _); [|done]. by destruct (negb _).
Qed.

Lemma applyVerdict_spec index st v :
  indexValid index (st_config st) →
  ∃ st1, applyVerdict index st v = Returned st1
    ∧ skeleton (st_config st1) = skeleton (st_config st)
    ∧ (∀ p, containerOf (st_config st1) p
            = (fun c => growContainer index p c v) <$> containerOf (st_config st) p)
    ∧ st_skipRoutes st1 = skipRouteOf v ∪ st_skipRoutes st
    ∧ st_seenRoutes st1 = seenRouteOf v ∪ st_seenRoutes st
    ∧ removed (st_log st1) = removed (st_log st)
    ∧ missingFiles (st_log st1) = missingFiles (st_log st).
Proof.
  intros Hvalid.
  assert (∀ p, containerOf (st_config st) p = id <$> containerOf (st_config st) p) as Hid.
  { intros p. by rewrite option_fmap_id. }
  destruct v as [|route|route file|route|route t]; simpl;
    try (eexists; split; [done|]; simpl; repeat split; try done; set_solver).
  destruct (findPlacement route index) as [placement|] eqn:Hf.
  - destruct (Hvalid _ _ Hf) as [container Hc]. rewrite Hc.
    destruct (ensureNavItem container _ (st_log st)) as [container1 log1] eqn:He.
    eexists; split; [done|]. simpl.
    split; [apply skeleton_setContainer|].
    split; [|split; [set_solver|split; [done|]]].
    + intros p. destruct (decide (placement = p)) as [<-|Hne].
      * rewrite containerOf_setContainer_eq by (by eexists). rewrite Hc. simpl.
        rewrite decide_True by done. f_equal.
        rewrite (ensureNavItem_container_log _ _ emptyLog (st_log st)). by rewrite He.
      * rewrite containerOf_setContainer_ne by done.
        destruct (containerOf (st_config st) p); simpl; [|done].
        rewrite decide_False; [done | congruence].
    + pose proof (removed_ensureNavItem container (mkNavItem (Js.trim t) route None)
                                        (st_log st)) as H.
      rewrite He in H. simpl in H. by destruct H as (-> & -> & _).
  - eexists; split; [done|]. simpl. split; [done|].
    split; [|split; [set_solver | done]].
    intros p. by destruct (containerOf (st_config st) p).
Qed.

Lemma applyVerdicts_spec index st vs :
  indexValid index (st_config st) →
  ∃ st1, applyVerdicts index st vs = Returned st1
    ∧ skeleton (st_config st1) = skeleton (st_config st)
    ∧ (∀ p, containerOf (st_config st1) p
            = (fun c => grownContainer index p c vs) <$> containerOf (st_config st) p)
    ∧ st_skipRoutes st1 = skipRoutesOf vs ∪ st_skipRoutes st
    ∧ st_seenRoutes st1 = seenRoutesOf vs ∪ st_seenRoutes st
    ∧ removed (st_log st1) = removed (st_log st)
    ∧ missingFiles (st_log st1) = missingFiles (st_log st).
Proof.
  revert st; induction vs as [|v vs IH]; intros st Hvalid; simpl.
  - exists st. split; [done|]. split; [done|].
    split; [intros p; by destruct (containerOf _ p)|].
    unfold skipRoutesOf, seenRoutesOf. simpl. repeat split; try done; set_solver.
  - destruct (applyVerdict_spec index st v Hvalid)
      as (st1 & -> & Hsk & Hc & Hskip & Hseen & Hrem & Hmiss).
    simpl.
    destruct (IH st1) as (st2 & -> & Hsk2 & Hc2 & Hskip2 & Hseen2 & Hrem2 & Hmiss2).
    { eapply indexValid_skeleton; [|done]. done. }
    exists st2. split; [done|]. split; [congruence|].
    split; [|split; [|split; [|split; congruence]]].
    + intros p. rewrite Hc2, Hc. by destruct (containerOf (st_config st) p).
    + rewrite Hskip2, Hskip. unfold skipRoutesOf. simpl. set_solver.
    + rewrite Hseen2, Hseen. unfold seenRoutesOf. simpl. set_solver.
Qed.

(** ** The passes after the loop *)

Lemma withRemoved_withRemoved l l' log :
  withRemoved l (withRemoved l' log) = withRemoved l log.
Proof. done. Qed.

Lemma pruneFrameworks_spec fws skipRoutes log :
  pruneFrameworks fws skipRoutes log
  = (prunedFramework skipRoutes <$> fws,
     withRemoved (removed log ++ concat (removedRoutes skipRoutes <$> (fw_children <$> fws)))
                 log).
Proof.
  revert log; induction fws as [|fw fws IH]; intros log; simpl.
  - by rewrite app_nil_r, withRemoved_removed.
  - rewrite removeSkipped_spec, IH. simpl. by rewrite <- app_assoc.
Qed.

Lemma pruneSections_spec secs skipRoutes log :
  pruneSections secs skipRoutes log
  = (prunedSection skipRoutes <$> secs,
     withRemoved (removed log ++ concat (removedRoutes skipRoutes <$> containersOf secs)) log).
Proof.
  revert log; induction secs as [|section secs IH]; intros log; simpl.
  - by rewrite app_nil_r, withRemoved_removed.
  - rewrite removeSkipped_spec.
    unfold containersOf. simpl. fold (containersOf secs).
    rewrite fmap_app, concat_app. simpl.
    destruct (sec_frameworks section) as [fws|] eqn:Hfws; simpl.
    + rewrite pruneFrameworks_spec, IH. simpl. unfold prunedSection. rewrite Hfws. simpl.
      by rewrite <- !app_assoc.
    + rewrite IH. simpl. unfold prunedSection. rewrite Hfws. simpl.
      by rewrite <- !app_assoc.
Qed.

Lemma containerOf_prunedConfig skipRoutes config p :
  containerOf (prunedConfig skipRoutes config) p
  = keepUnskipped skipRoutes <$> containerOf config p.
Proof.
  destruct p as [i f]. unfold containerOf, prunedConfig. simpl.
  rewrite list_lookup_fmap.
  destruct (sections config !! i) as [section|]; simpl; [|done].
  destruct f as [j|]; simpl; [|done].
  destruct (sec_frameworks section) as [fws|]; simpl; [|done].
  rewrite list_lookup_fmap. by destruct (fws !! j).
Qed.

Lemma skeleton_prunedConfig skipRoutes config :
  skeleton (prunedConfig skipRoutes config) = skeleton config.
Proof.
  unfold skeleton, prunedConfig, setSections. simpl. f_equal.
  rewrite <- list_fmap_compose. apply list_fmap_ext. intros _ section _.
  unfold skeletonOfSection, prunedSection. simpl. f_equal.
  destruct (sec_frameworks section) as [fws|]; simpl; [|done]. f_equal.
  rewrite <- list_fmap_compose. by apply list_fmap_ext.
Qed.

Lemma elem_of_foldl_pushUnique x l xs :
  x ∈ foldl pushUnique l xs ↔ x ∈ l ∨ x ∈ xs.
Proof.
  revert l; induction xs as [|y xs IH]; intros l; simpl.
  - split; [by left | intros [?|H]; [done | by apply elem_of_nil in H]].
  - rewrite IH. unfold pushUnique. case_decide; set_solver.
Qed.

Lemma reportMissing_spec container seenRoutes skipRoutes log :
  reportMissing container seenRoutes skipRoutes log
  = withMissingFiles
      (foldl pushUnique (missingFiles log) (unbackedRoutes seenRoutes skipRoutes container))
      log.
Proof.
  unfold reportMissing, unbackedRoutes.
  revert log; induction container as [|item container IH]; intros log; simpl.
  - by destruct log.
  - rewrite IH, filter_cons.
    destruct (bool_decide_reflect (to item ∈ seenRoutes)) as [Hs|Hs]; simpl.
    + rewrite decide_False by (by intros [? _]). done.
    + destruct (bool_decide_reflect (to item ∈ skipRoutes)) as [Hk|Hk]; simpl.
      * rewrite decide_False by (by intros [_ ?]). done.
      * rewrite decide_True by done. done.
Qed.

Lemma reportMissingFrameworks_spec fws seenRoutes skipRoutes log :
  foldl (fun l framework => reportMissing (fw_children framework) seenRoutes skipRoutes l)
        log fws
  = withMissingFiles
      (foldl pushUnique (missingFiles log)
             (concat (unbackedRoutes seenRoutes skipRoutes <$> (fw_children <$> fws))))
      log.
Proof.
  revert log; induction fws as [|fw fws IH]; intros log; simpl.
  - by destruct log.
  - rewrite IH, reportMissing_spec. simpl. by rewrite foldl_app.
Qed.

Lemma reportMissingSections_spec secs seenRoutes skipRoutes log :
  reportMissingSections secs seenRoutes skipRoutes log
  = withMissingFiles
      (foldl pushUnique (missingFiles log)
             (concat (unbackedRoutes seenRoutes skipRoutes <$> containersOf secs)))
      log.
Proof.
  unfold reportMissingSections.
  revert log; induction secs as [|section secs IH]; intros log; simpl.
  - by destruct log.
  - rewrite IH. unfold containersOf. simpl. fold (containersOf secs).
    rewrite fmap_app, concat_app, !foldl_app. simpl.
    rewrite reportMissing_spec.
    destruct (sec_frameworks section) as [fws|]; simpl; [|done].
    rewrite reportMissingFrameworks_spec. done.
Qed.

Lemma finishSync_spec st :
  finishSync st
  = (prunedConfig (st_skipRoutes st) (st_config st),
     withMissingFiles
       (foldl pushUnique (missingFiles (st_log st))
          (concat (unbackedRoutes (st_seenRoutes st) (st_skipRoutes st)
                     <$> containersOf (sections (prunedConfig (st_skipRoutes st) (st_config st))))))
       (withRemoved
          (removed (st_log st)
             ++ concat (removedRoutes (st_skipRoutes st)
                          <$> containersOf (sections (st_config st))))
          (st_log st))).
Proof.
  unfold finishSync. rewrite pruneSections_spec, reportMissingSections_spec. done.
Qed.

(** ** The walk of [findPlacement] *)

Lemma walkFrom_chainFrom fuel current :
  current ≠ "" → walkFrom fuel current = chainFrom fuel current.
Proof.
  revert current; induction fuel as [|fuel IH]; intros current Hne; simpl; [done|].
  rewrite (proj2 (truthy_true current) Hne). f_equal.
  destruct (Js.truthy (parentRoute current)) eqn:Hp; simpl; [|done].
  destruct (String.eqb _ _); [done|]. apply IH. by apply truthy_true.
Qed.

Lemma walk_nonempty route : route ≠ "" → walk route = routeChain route.
Proof. intros H. by apply walkFrom_chainFrom. Qed.

Lemma walk_empty : walk "" = [""].
Proof. reflexivity. Qed.

Lemma findPlacementFrom_walk fuel current index :
  findPlacementFrom fuel current index
  = firstSome (lookupPlacement index) (walkFrom fuel current).
Proof.
  revert current; induction fuel as [|fuel IH]; intros current; simpl; [done|].
  destruct (lookupPlacement index current); [done|].
  destruct (negb _ || _); [done | apply IH].
Qed.

(** [findPlacement]'s loop is run to its end. *)
Lemma findPlacementFrom_fuel route index :
  findPlacement route index = firstSome (lookupPlacement index) (walk route).
Proof. apply findPlacementFrom_walk. Qed.

Lemma firstSome_None {A B : Type} (f : A → option B) l :
  firstSome f l = None ↔ ∀ x, x ∈ l → f x = None.
Proof.
  induction l as [|a l IH]; simpl.
  - split; [|done]. intros _ x H. by apply elem_of_nil in H.
  - destruct (f a) eqn:Ha.
    + split; [done|]. intros H. rewrite <- Ha. apply H. left.
    + rewrite IH. split.
      * intros H x [->|Hin]%elem_of_cons; auto.
      * intros H x Hin. apply H. by right.
Qed.

Lemma firstSome_Some {A B : Type} (f : A → option B) l y :
  firstSome f l = Some y → ∃ x, x ∈ l ∧ f x = Some y.
Proof.
  induction l as [|a l IH]; simpl; [done|].
  destruct (f a) eqn:Ha.
  - intros [= ->]. exists a. split; [left | done].
  - intros (x & Hin & Hx)%IH. exists x. split; [by right | done].
Qed.

Lemma findPlacement_None route index :
  findPlacement route index = None ↔ ∀ x, x ∈ walk route → lookupPlacement index x = None.
Proof. rewrite findPlacementFrom_fuel. apply firstSome_None. Qed.

Lemma elem_of_walk x route :
  x ∈ walk route ↔ x = route ∨ x ∈ routeChain route.
Proof.
  destruct (decide (route = "")) as [->|Hne].
  - rewrite walk_empty, routeChain_empty. set_solver.
  - rewrite walk_nonempty by done. split; [by right|]. intros [->|H]; [|done].
    rewrite routeChain_unfold by done. left.
Qed.

Lemma walk_self route : route ∈ walk route.
Proof. apply elem_of_walk. by left. Qed.

Lemma routeChain_trans x y route :
  y ∈ routeChain x → x ∈ routeChain route → y ∈ routeChain route.
Proof.
  rewrite !elem_of_routeChain. intros [Hy [k Hk]] [Hx [j Hj]]. split; [done|].
  exists (k + j)%nat. by rewrite Nat.iter_add, Hj.
Qed.

Lemma walk_trans x y route : y ∈ walk x → x ∈ walk route → y ∈ walk route.
Proof.
  rewrite !elem_of_walk. intros [->|Hy] [->|Hx]; auto.
  right. by eapply routeChain_trans.
Qed.

Lemma routeChain_linear x y route :
  x ∈ routeChain route → y ∈ routeChain route → y ∈ walk x ∨ x ∈ walk y.
Proof.
  rewrite !elem_of_routeChain. intros [Hx [j Hj]] [Hy [k Hk]].
  destruct (decide (j ≤ k)%nat) as [Hle|Hgt].
  - left. apply elem_of_walk. right. apply elem_of_routeChain. split; [done|].
    exists (k - j)%nat. rewrite <- Hj, <- Nat.iter_add.
    by replace (k - j + j)%nat with k by lia.
  - right. apply elem_of_walk. right. apply elem_of_routeChain. split; [done|].
    exists (j - k)%nat. rewrite <- Hk, <- Nat.iter_add.
    by replace (j - k + k)%nat with j by lia.
Qed.

Lemma walk_linear x y route : x ∈ walk route → y ∈ walk route → y ∈ walk x ∨ x ∈ walk y.
Proof.
  rewrite !(elem_of_walk _ route). intros [->|Hx] [->|Hy].
  - left. apply walk_self.
  - left. apply elem_of_walk. by right.
  - right. apply elem_of_walk. by right.
  - by eapply routeChain_linear.
Qed.

(** A route has a placement in the index of a config exactly when the walk
    of some entry's route goes through it. *)
Lemma lookupPlacement_None config x :
  lookupPlacement (buildPlacementIndex config) x = None
  ↔ ∀ r, r ∈ routesOf config → x ∉ walk r.
Proof.
  unfold lookupPlacement, routesOf. rewrite buildPlacementIndex_registrations.
  rewrite byRoute_registerAll, byDir_registerAll. simpl. rewrite !lookup_empty.
  destruct (lastExact x _) as [q|] eqn:Hl.
  - split; [done|]. intros H. exfalso. apply lastExact_Some in Hl.
    apply (H x); [|apply walk_self]. apply list_elem_of_fmap. by exists (x, q).
  - apply lastExact_None in Hl. rewrite firstClaim_None. split.
    + intros H r [[r' p] [-> Hin]]%list_elem_of_fmap [->|Hc]%elem_of_walk.
      * apply Hl. apply list_elem_of_fmap. by exists (r', p).
      * by apply (H _ Hin).
    + intros H [r p] Hin Hc. apply (H r).
      * apply list_elem_of_fmap. by exists (r, p).
      * apply elem_of_walk. by right.
Qed.

Lemma findPlacement_build_None config route :
  findPlacement route (buildPlacementIndex config) = None
  ↔ ∀ x r, x ∈ walk route → r ∈ routesOf config → x ∉ walk r.
Proof.
  rewrite findPlacement_None. split.
  - intros H x r Hx. by apply lookupPlacement_None, H.
  - intros H x Hx. apply lookupPlacement_None. intros r. by apply H.
Qed.

(** An exact entry is found at once, in a container that holds it. *)
Lemma findPlacement_exact config route :
  route ∈ routesOf config →
  ∃ p, findPlacement route (buildPlacementIndex config) = Some p
       ∧ (route, p) ∈ registrations config.
Proof.
  intros Hin. unfold findPlacement. simpl. unfold lookupPlacement at 1.
  rewrite buildPlacementIndex_registrations, byRoute_registerAll.
  destruct (lastExact route (registrations config)) as [p|] eqn:Hl.
  - exists p. split; [done | by apply lastExact_Some].
  - by apply lastExact_None in Hl.
Qed.

(** ** A pass, summed up *)

Lemma reconcile_spec config vs :
  ∃ stL,
    applyVerdicts (buildPlacementIndex config) (mkSyncState config emptyLog ∅ ∅ ∅) vs
      = Returned stL
    ∧ reconcile config vs = Returned (finishSync stL)
    ∧ skeleton (st_config stL) = skeleton config
    ∧ (∀ p, containerOf (st_config stL) p
            = (fun c => grownContainer (buildPlacementIndex config) p c vs)
                <$> containerOf config p)
    ∧ st_skipRoutes stL = skipRoutesOf vs
    ∧ st_seenRoutes stL = seenRoutesOf vs
    ∧ removed (st_log stL) = []
    ∧ missingFiles (st_log stL) = [].
Proof.
  destruct (applyVerdicts_spec (buildPlacementIndex config)
              (mkSyncState config emptyLog ∅ ∅ ∅) vs (indexValid_build config))
    as (stL & Hrun & Hsk & Hc & Hskip & Hseen & Hrem & Hmiss).
  exists stL. unfold reconcile. rewrite Hrun. simpl in *.
  repeat split; try done; set_solver.
Qed.

Lemma syncConfig_spec fs cwd dir cache config :
  ∃ vs cache1 stL,
    verdicts fs cwd dir cache = Returned (vs, cache1)
    ∧ applyVerdicts (buildPlacementIndex config) (mkSyncState config emptyLog ∅ ∅ ∅) vs
      = Returned stL
    ∧ syncConfig fs cwd dir cache config
      = Returned ((finishSync stL).1, (finishSync stL).2, cache1).
Proof.
  destruct (verdicts_returns fs cwd dir cache) as (vs & cache1 & Hv).
  destruct (reconcile_spec config vs) as (stL & Hrun & Hrec & _).
  exists vs, cache1, stL. split; [done|]. split; [done|].
  rewrite syncConfig_reconcile, Hv. simpl. rewrite Hrec. simpl.
  by destruct (finishSync stL).
Qed.

(** ** Routes stay unique within a container *)

Lemma ensureNavItem_NoDup container item log :
  NoDup (to <$> container) → NoDup (to <$> (ensureNavItem container item log).1).
Proof.
  intros Hnd. destruct (decide (to item ∈ to <$> container)) as [Hin|Hout].
  - by rewrite ensureNavItem_existing.
  - rewrite ensureNavItem_absent by done. simpl. rewrite fmap_app. simpl.
    apply NoDup_app. split; [done|]. split; [|apply NoDup_singleton].
    intros x Hx ->%list_elem_of_singleton. done.
Qed.

Lemma growContainer_NoDup index p c v :
  NoDup (to <$> c) → NoDup (to <$> growContainer index p c v).
Proof.
  intros Hnd. destruct v; simpl; try done.
  case_decide; [by apply ensureNavItem_NoDup | done].
Qed.

Lemma grownContainer_NoDup index p c vs :
  NoDup (to <$> c) → NoDup (to <$> grownContainer index p c vs).
Proof.
  unfold grownContainer. revert c; induction vs as [|v vs IH]; intros c Hnd; simpl; [done|].
  by apply IH, growContainer_NoDup.
Qed.

Lemma keepUnskipped_NoDup skipRoutes c :
  NoDup (to <$> c) → NoDup (to <$> keepUnskipped skipRoutes c).
Proof.
  unfold keepUnskipped. induction c as [|e c IH]; simpl; [done|].
  intros [Hn Hnd]%NoDup_cons. rewrite filter_cons. case_decide.
  - simpl. apply NoDup_cons. split; [|by apply IH].
    intros [e' [He' [_ Hin]%list_elem_of_filter]]%list_elem_of_fmap.
    apply Hn. apply list_elem_of_fmap. eauto.
  - by apply IH.
Qed.

Lemma syncConfig_uniqueRoutes fs cwd dir cache config :
  uniqueRoutes config →
  ∃ config1 log cache1,
    syncConfig fs cwd dir cache config = Returned (config1, log, cache1)
    ∧ uniqueRoutes config1.
Proof.
  intros Huniq.
  destruct (syncConfig_spec fs cwd dir cache config) as (vs & cache1 & stL & Hv & Hrun & ->).
  destruct (reconcile_spec config vs) as (stL' & Hrun' & _ & _ & Hc & _).
  rewrite Hrun in Hrun'. injection Hrun' as <-.
  eexists _, _, _. split; [done|].
  rewrite finishSync_spec. simpl. intros p c.
  rewrite containerOf_prunedConfig, Hc.
  destruct (containerOf config p) as [c0|] eqn:Hc0; simpl; [|done].
  intros [= <-]. apply keepUnskipped_NoDup, grownContainer_NoDup. by eapply Huniq.
Qed.

(** C2.  On a container whose routes are pairwise distinct, [ensureNavItem]
    keeps them distinct.  When an entry with the route of the item exists,
    nothing is appended and no entry is changed: the array is the same
    afterwards, and a differing label is only logged under [labelMismatch].
    Otherwise the item is appended at the end.  Hence a config whose
    containers have pairwise distinct routes remains so after any number
    of runs, whatever the files are at each run. *)
Theorem container_routes_stay_unique :
  (∀ (container : list NavItem) (item : NavItem) (log : ChangeLog),
     NoDup (to <$> container) →
     NoDup (to <$> (ensureNavItem container item log).1)
     ∧ (∀ existing, existing ∈ container → to existing = to item →
          (ensureNavItem container item log).1 = container
          ∧ added (ensureNavItem container item log).2 = added log
          ∧ labelMismatch (ensureNavItem container item log).2
            = if decide (label existing = label item) then labelMismatch log
              else labelMismatch log ++ [mkMismatch (to item) (label existing) (label item)])
     ∧ ((∀ existing, existing ∈ container → to existing ≠ to item) →
          ensureNavItem container item log
          = (container ++ [item], logAdded (label item +:+ " -> " +:+ to item) log)))
  ∧ (∀ (config : DocsConfig) (runs : list RunEnv),
       uniqueRoutes config →
       ∃ config', syncRuns runs config = Returned config' ∧ uniqueRoutes config').
Proof.
  split.
  - intros container item log Hnd. split; [by apply ensureNavItem_NoDup|]. split.
    + intros existing Hin Hto. unfold ensureNavItem.
      destruct (List.find _ container) as [found|] eqn:Hf.
      * apply find_route_Some in Hf as [Hfin Hfto].
        assert (found = existing) as ->.
        { apply list_elem_of_lookup in Hfin as [i Hi], Hin as [j Hj].
          assert (i = j) as ->; [|congruence].
          apply (NoDup_lookup _ i j (to item) Hnd);
            rewrite list_lookup_fmap; [rewrite Hi | rewrite Hj]; simpl; congruence. }
        destruct (String.eqb_spec (label existing) (label item)) as [Heq|Hne]; simpl.
        -- by rewrite decide_True.
        -- by rewrite decide_False.
      * apply find_route_None in Hf. exfalso. apply Hf.
        apply list_elem_of_fmap. eauto.
    + intros Hnone. apply ensureNavItem_absent.
      intros [e [He Hin]]%list_elem_of_fmap. by apply (Hnone e).
  - intros config runs. revert config.
    induction runs as [|env runs IH]; intros config Huniq; simpl; [by eexists|].
    destruct (syncConfig_uniqueRoutes (run_fs env) (run_cwd env) (run_dir env)
                (run_cache env) config Huniq) as (config1 & log & cache1 & -> & Huniq1).
    simpl. by apply IH.
Qed.

(** ** A run on a directory, summed up *)

Lemma processDocsConfig_spec cwd dir cache fs log cache1 fs1 :
  processDocsConfig cwd dir cache fs = Returned (log, cache1, fs1) →
  ∃ config vs stL,
    configs fs !! Path.join [dir; "config.json"] = Some config
    ∧ verdicts fs cwd dir cache = Returned (vs, cache1)
    ∧ applyVerdicts (buildPlacementIndex config) (mkSyncState config emptyLog ∅ ∅ ∅) vs
      = Returned stL
    ∧ log = (finishSync stL).2
    ∧ fs1 = writeJson fs (Path.join [dir; "config.json"]) (finishSync stL).1.
Proof.
  unfold processDocsConfig, readJson.
  destruct (configs fs !! _) as [config|] eqn:Hcfg; simpl; [|done].
  destruct (syncConfig_spec fs cwd dir cache config) as (vs & c1 & stL & Hv & Hrun & ->).
  simpl. intros [= <- <- <-]. by exists config, vs, stL.
Qed.

Lemma processDocsConfig_returns cwd dir cache fs config :
  configs fs !! Path.join [dir; "config.json"] = Some config →
  ∃ log cache1 fs1, processDocsConfig cwd dir cache fs = Returned (log, cache1, fs1).
Proof.
  intros Hcfg. unfold processDocsConfig, readJson. rewrite Hcfg. simpl.
  destruct (syncConfig_spec fs cwd dir cache config) as (vs & c1 & stL & _ & _ & ->).
  simpl. by eexists _, _, _.
Qed.

(** The loop only appends to a container. *)
Lemma growContainer_app index p c v :
  ∃ appended, growContainer index p c v = c ++ appended
    ∧ ∀ item, item ∈ appended →
        ∃ route infoTitle, v = VPlace route infoTitle
          ∧ item = mkNavItem (Js.trim infoTitle) route None
          ∧ findPlacement route index = Some p
          ∧ route ∉ to <$> c.
Proof.
  assert (∃ appended : list NavItem, c = c ++ appended ∧ ∀ item, item ∈ appended →
            ∃ route infoTitle, v = VPlace route infoTitle
              ∧ item = mkNavItem (Js.trim infoTitle) route None
              ∧ findPlacement route index = Some p ∧ route ∉ to <$> c) as Hsame.
  { exists []. split; [by rewrite app_nil_r|]. by intros item H%elem_of_nil. }
  destruct v as [| | | |route t]; simpl; try done.
  case_decide as Hf; [|done].
  destruct (decide (route ∈ to <$> c)) as [Hin|Hout].
  - by rewrite ensureNavItem_existing.
  - rewrite ensureNavItem_absent by done. simpl. eexists. split; [done|].
    intros item ->%list_elem_of_singleton. by exists route, t.
Qed.

Lemma grownContainer_app index p c vs :
  ∃ appended, grownContainer index p c vs = c ++ appended
    ∧ ∀ item, item ∈ appended →
        ∃ route infoTitle, VPlace route infoTitle ∈ vs
          ∧ item = mkNavItem (Js.trim infoTitle) route None
          ∧ findPlacement route index = Some p
          ∧ route ∉ to <$> c.
Proof.
  unfold grownContainer. revert c; induction vs as [|v vs IH]; intros c; simpl.
  - exists []. split; [by rewrite app_nil_r|]. by intros item H%elem_of_nil.
  - destruct (growContainer_app index p c v) as (app1 & -> & H1).
    destruct (IH (c ++ app1)) as (app2 & -> & H2).
    exists (app1 ++ app2). split; [by rewrite app_assoc|].
    intros item [Hin|Hin]%elem_of_app.
    + destruct (H1 _ Hin) as (r & t & -> & ? & ? & ?). exists r, t.
      split; [left | done].
    + destruct (H2 _ Hin) as (r & t & ? & ? & ? & Hn). exists r, t.
      split; [by right|]. split; [done|]. split; [done|].
      intros Hr. apply Hn. rewrite fmap_app. apply elem_of_app. by left.
Qed.



(** ** The routes seen and the routes to skip *)

Lemma classify_seenRoute fs cwd dir configPath cache filePath v cache1 :
  classify fs cwd dir configPath cache filePath = Returned (v, cache1) →
  seenRouteOf v = if String.eqb filePath configPath then ∅
                  else {[routeFromFile cwd dir filePath]}.
Proof.
  unfold classify. destruct (String.eqb _ _); [by intros [= <- _]|].
  destruct (isReadme _ || isDraft _); [by intros [= <- _]|].
  destruct (readDocInfo _ _ _ _ _ _) as [[[info|] c]| |]; simpl; try done;
    [|by intros [= <- _]].
  destruct (title info) as [t|]; [|by intros [= <- _]].
  destruct (Js.truthy t); [|by intros [= <- _]].
  destruct (bool_decide _); by intros [= <- _].
Qed.

Lemma skipRouteOf_seenRouteOf v : skipRouteOf v ⊆ seenRouteOf v.
Proof. destruct v; simpl; set_solver. Qed.

Lemma skipRoutesOf_seenRoutesOf vs : skipRoutesOf vs ⊆ seenRoutesOf vs.
Proof.
  unfold skipRoutesOf, seenRoutesOf. induction vs as [|v vs IH]; simpl; [done|].
  pose proof (skipRouteOf_seenRouteOf v). set_solver.
Qed.

Lemma elem_of_seenRoutesOf fs cwd dir configPath cache files vs cache1 route :
  classifyFiles fs cwd dir configPath cache files = Returned (vs, cache1) →
  route ∈ seenRoutesOf vs
  ↔ ∃ filePath, filePath ∈ files ∧ filePath ≠ configPath
                ∧ routeFromFile cwd dir filePath = route.
Proof.
  unfold seenRoutesOf.
  revert cache vs; induction files as [|f files IH]; intros cache vs; simpl.
  - intros [= <- _]. simpl. split; [set_solver|]. by intros (? & H%elem_of_nil & _).
  - destruct (classify _ _ _ _ _ f) as [[v c1]| |] eqn:Hv; simpl; [|done..].
    destruct (classifyFiles _ _ _ _ c1 files) as [[vs' c2]| |] eqn:Hvs; simpl; [|done..].
    intros [= <- <-]. simpl. rewrite elem_of_union, (IH _ _ Hvs).
    rewrite (classify_seenRoute _ _ _ _ _ _ _ _ Hv).
    destruct (String.eqb_spec f configPath) as [->|Hne]; split.
    + intros [H|(f' & Hin & Hne & Hr)]; [set_solver|].
      exists f'. split; [by right | done].
    + intros (f' & [->|Hin]%elem_of_cons & Hne & Hr); [done|]. right. eauto.
    + intros [->%elem_of_singleton|(f' & Hin & Hne' & Hr)].
      * exists f. split; [left | done].
      * exists f'. split; [by right | done].
    + intros (f' & [->|Hin]%elem_of_cons & Hne' & Hr); [left; set_solver|]. right. eauto.
Qed.

Lemma elem_of_containersOf config p c :
  containerOf config p = Some c → c ∈ containersOf (sections config).
Proof.
  destruct p as [i f]. unfold containerOf, containersOf. simpl.
  destruct (sections config !! i) as [section|] eqn:Hs; simpl; [|done].
  intros Hc. apply list_elem_of_bind. exists section.
  split; [|by eapply list_elem_of_lookup_2].
  unfold containersOfSection. destruct f as [j|]; simpl in Hc.
  - destruct (sec_frameworks section) as [fws|]; simpl in *; [|done].
    destruct (fws !! j) as [fw|] eqn:Hfw; simpl in Hc; [|done]. injection Hc as <-.
    right. apply list_elem_of_fmap. exists fw. split; [done|].
    by eapply list_elem_of_lookup_2.
  - injection Hc as <-. left.
Qed.

Lemma elem_of_concat {A : Type} (x : A) (ls : list (list A)) :
  x ∈ concat ls ↔ ∃ l, x ∈ l ∧ l ∈ ls.
Proof.
  induction ls as [|l ls IH]; simpl.
  - split; [by intros H%elem_of_nil | by intros (? & _ & H%elem_of_nil)].
  - rewrite elem_of_app, IH. split.
    + intros [H|(l' & Hx & Hl)]; [exists l; split; [done | left] |].
      exists l'. split; [done | by right].
    + intros (l' & Hx & [->|Hl]%elem_of_cons); [by left | right; eauto].
Qed.

Lemma elem_of_missingFiles_finishSync stL p c item :
  missingFiles (st_log stL) = [] →
  containerOf (finishSync stL).1 p = Some c → item ∈ c →
  to item ∉ st_seenRoutes stL → to item ∉ st_skipRoutes stL →
  to item ∈ missingFiles (finishSync stL).2.
Proof.
  rewrite finishSync_spec. simpl. intros -> Hc Hin Hseen Hskip.
  apply elem_of_foldl_pushUnique. right.
  apply elem_of_concat.
  exists (unbackedRoutes (st_seenRoutes stL) (st_skipRoutes stL) c). split.
  - unfold unbackedRoutes. apply list_elem_of_fmap. exists item. split; [done|].
    by apply list_elem_of_filter.
  - apply list_elem_of_fmap. exists c. split; [done|].
    exact (elem_of_containersOf _ _ _ Hc).
Qed.

(** C6.  Take a run on a directory and an entry of the config it reads
    whose route is the route of none of the content files scanned (such a
    route is not in the skip-eligible set either, which holds routes of
    scanned files only).  The route is logged under [missingFiles], and
    the config written still has the entry, in the same container. *)
Theorem missing_file_reported_and_kept
    (cwd dir : string) (cache : Cache) (fs : FileSystem)
    (log : ChangeLog) (cache1 : Cache) (fs1 : FileSystem) :
  processDocsConfig cwd dir cache fs = Returned (log, cache1, fs1) →
  ∃ config config1 vs,
    configs fs !! Path.join [dir; "config.json"] = Some config
    ∧ configs fs1 !! Path.join [dir; "config.json"] = Some config1
    ∧ verdicts fs cwd dir cache = Returned (vs, cache1)
    ∧ skipRoutesOf vs ⊆ seenRoutesOf vs
    ∧ ∀ p c item,
        containerOf config p = Some c → item ∈ c →
        (∀ filePath, filePath ∈ listContentFiles fs dir →
                     filePath ≠ Path.join [dir; "config.json"] →
                     routeFromFile cwd dir filePath ≠ to item) →
        (to item ∉ seenRoutesOf vs)
        ∧ (to item ∉ skipRoutesOf vs)
        ∧ (to item ∈ missingFiles log)
        ∧ ∃ c1, containerOf config1 p = Some c1 ∧ item ∈ c1.
Proof.
  intros (config & vs & stL & Hcfg & Hv & Hrun & -> & ->)%processDocsConfig_spec.
  destruct (reconcile_spec config vs)
    as (stL' & Hrun' & _ & Hsk & Hc & Hskip & Hseen & _ & Hmiss).
  rewrite Hrun in Hrun'. injection Hrun' as <-.
  exists config, (finishSync stL).1, vs. simpl. rewrite lookup_insert_eq.
  pose proof (skipRoutesOf_seenRoutesOf vs) as Hsub.
  split; [done|]. split; [done|]. split; [done|]. split; [done|].
  intros p c item Hp Hin Hfiles.
  assert (to item ∉ seenRoutesOf vs) as Hns.
  { intros (f & Hf & Hne & Hr)%(elem_of_seenRoutesOf _ _ _ _ _ _ _ _ _ Hv).
    by apply (Hfiles f). }
  assert (to item ∉ skipRoutesOf vs) as Hnk by set_solver.
  assert (∃ c1, containerOf (finishSync stL).1 p = Some c1 ∧ item ∈ c1) as (c1 & Hc1 & Hin1).
  { rewrite finishSync_spec. simpl. rewrite containerOf_prunedConfig, Hc, Hp. simpl.
    eexists. split; [done|].
    destruct (grownContainer_app (buildPlacementIndex config) p c vs) as (app & -> & _).
    unfold keepUnskipped. apply list_elem_of_filter. rewrite Hskip.
    split; [done|]. apply elem_of_app. by left. }
  split; [done|]. split; [done|]. split; [|by exists c1].
  eapply elem_of_missingFiles_finishSync; try done; congruence.
Qed.

(** ** One file *)

(** What a turn of the loop does with a file that is neither the config,
    a readme nor a draft, given what [readDocInfo] returns for it. *)
Lemma processFile_read fs cwd dir configPath index st filePath frontmatter cache1 :
  filePath ≠ configPath →
  isReadme (Path.basename filePath) = false →
  isDraft (Path.basename filePath) = false →
  readDocInfo fs cwd filePath dir ∅ (st_cache st) = Returned (frontmatter, cache1) →
  processFile fs cwd dir configPath index st filePath
  = await st1 <-
      applyVerdict index st
        (match frontmatter with
         | Some info =>
           if Js.truthyOpt (title info) then
             if bool_decide (skip info = Some true)
             then VSkipped (routeFromFile cwd dir filePath)
             else VPlace (routeFromFile cwd dir filePath) (default "" (title info))
           else VMissing (routeFromFile cwd dir filePath) (Path.relative cwd dir filePath)
         | None => VMissing (routeFromFile cwd dir filePath) (Path.relative cwd dir filePath)
         end);
    Returned (setCache cache1 st1).
Proof.
  intros Hne Hreadme Hdraft Hread. rewrite processFile_classify. unfold classify.
  rewrite (proj2 (String.eqb_neq _ _) Hne), Hreadme, Hdraft, Hread. simpl.
  destruct frontmatter as [info|]; simpl; [|done].
  destruct (title info) as [t|]; simpl; [|done].
  destruct (Js.truthy t); simpl; [|done].
  by destruct (bool_decide _).
Qed.

(** The amended C3.  Let [route] be a route whose parent route is not
    empty, in a config that has no entry at [route] or below it, and let [p]
    be the last container, in the order of the config, with an entry at
    the parent route (the only one, when the parent route has one entry).
    Then [findPlacement] gives [p] for [route]; and the turn of the loop
    for a file at [route] that has a title and is not skipped, when the
    container does not hold [route] yet, appends the entry with the title
    as label and [route] as route to that container, logs it under
    [added], and changes nothing else in the config. *)
Theorem ancestor_placement
    (config : DocsConfig) (p : Placement) (route : string)
    (before after : list (string * Placement)) :
  parentRoute route ≠ "" →
  registrations config = before ++ (parentRoute route, p) :: after →
  parentRoute route ∉ after.*1 →
  (∀ r k, r ∈ routesOf config → Nat.iter k parentRoute r ≠ route) →
  findPlacement route (buildPlacementIndex config) = Some p
  ∧ ∀ fs cwd dir configPath st filePath info infoTitle cache1 c,
      filePath ≠ configPath →
      isReadme (Path.basename filePath) = false →
      isDraft (Path.basename filePath) = false →
      routeFromFile cwd dir filePath = route →
      readDocInfo fs cwd filePath dir ∅ (st_cache st) = Returned (Some info, cache1) →
      title info = Some infoTitle → infoTitle ≠ "" → skip info ≠ Some true →
      containerOf (st_config st) p = Some c →
      route ∉ to <$> c →
      processFile fs cwd dir configPath (buildPlacementIndex config) st filePath
      = Returned
          (mkSyncState
             (setContainer (st_config st) p (c ++ [mkNavItem (Js.trim infoTitle) route None]))
             (logAdded (Js.trim infoTitle +:+ " -> " +:+ route) (st_log st))
             (st_skipRoutes st) ({[route]} ∪ st_seenRoutes st) cache1).
Proof.
  intros Hparent Hregs Hlast Hbelow.
  assert (route ≠ "") as Hroute by (intros ->; by apply Hparent).
  assert (findPlacement route (buildPlacementIndex config) = Some p) as Hfind.
  { rewrite findPlacementFrom_fuel, walk_nonempty, routeChain_unfold by done.
    rewrite (proj2 (truthy_true _) Hparent). simpl.
    assert (lookupPlacement (buildPlacementIndex config) route = None) as ->.
    { apply lookupPlacement_None. intros r Hr [<-|Hw]%elem_of_walk.
      - by apply (Hbelow route 0%nat).
      - apply elem_of_routeChain in Hw as [_ [k Hk]]. by apply (Hbelow r k). }
    destruct (decide (parentRoute route = "")) as [|_]; [done|].
    assert (walk (parentRoute route) = routeChain (parentRoute route)) as <-
      by (by apply walk_nonempty).
    unfold walk. simpl. unfold lookupPlacement at 1.
    rewrite buildPlacementIndex_registrations, byRoute_registerAll, Hregs.
    change (before ++ (parentRoute route, p) :: after)
      with (before ++ [(parentRoute route, p)] ++ after).
    rewrite !lastExact_app.
    apply lastExact_None in Hlast. rewrite Hlast. simpl.
    by rewrite decide_True. }
  split; [done|].
  intros fs cwd dir configPath st filePath info infoTitle cache1 c
    Hne Hreadme Hdraft Hr Hread Htitle Ht Hskip Hc Hnew.
  rewrite (processFile_read _ _ _ _ _ _ _ _ _ Hne Hreadme Hdraft Hread).
  rewrite Htitle. simpl. rewrite (proj2 (truthy_true _) Ht).
  rewrite bool_decide_eq_false_2 by done. rewrite Hr. simpl.
  rewrite Hfind, Hc. rewrite ensureNavItem_absent by done. done.
Qed.

Lemma readDocInfoFuel_S fuel fs cwd filePath docsDir stack cache :
  readDocInfoFuel (S fuel) fs cwd filePath docsDir stack cache
  = let key := Path.resolve cwd [filePath] in
    match cache !! key with
    | Some cached => Returned (cached, cache)
    | None =>
      match readFile fs filePath with
      | None => Returned (None, <[key := None]> cache)
      | Some raw =>
        match matchFrontmatter raw with
        | None => Returned (None, <[key := None]> cache)
        | Some block =>
          let info := parseBlock block in
          let unfollowed := Returned (Some info, <[key := Some info]> cache) in
          match ref info with
          | Some refValue =>
            if negb (Js.truthyOpt (title info)) && Js.truthy refValue then
              match resolveRefPath cwd filePath refValue docsDir with
              | Some refPath =>
                if Js.truthy refPath && negb (bool_decide (refPath ∈ stack)) then
                  await (referenced, cache1) <-
                    readDocInfoFuel fuel fs cwd refPath docsDir ({[refPath]} ∪ stack) cache;
                  let info1 := adoptReferenced info referenced in
                  Returned (Some info1, <[key := Some info1]> cache1)
                else unfollowed
              | None => unfollowed
              end
            else unfollowed
          | None => unfollowed
          end
        end
      end
    end.
Proof. reflexivity. Qed.

(** C5.  Take a file whose frontmatter has a [ref] to [./other.md] and
    nothing else, and let the file [other.md] next to it have a frontmatter
    with a non-empty title.  With a cache that has no entry for the file and
    none, or the right one, for [other.md], [readDocInfo] gives the file
    the title of [other.md].  If moreover [other.md] has [skip] true, the
    info of the file has [skip] true, and the loop of [processDocsConfig]
    puts the route of the file among the routes to skip. *)
Theorem ref_inherits_title_and_skip
    (fs : FileSystem) (cwd docsDir filePath : string) (cache : Cache)
    (raw rawOther : string) (other : FrontmatterInfo) (otherTitle : string) :
  readFile fs filePath = Some raw →
  parseFrontmatter raw = Some (mkFrontmatterInfo None None (Some "./other.md")) →
  readFile fs (Path.resolve cwd [Path.dirname filePath; "./other.md"]) = Some rawOther →
  parseFrontmatter rawOther = Some other →
  title other = Some otherTitle →
  otherTitle ≠ "" →
  cache !! Path.resolve cwd [filePath] = None →
  cache !! Path.resolve cwd [Path.resolve cwd [Path.dirname filePath; "./other.md"]] = None
  ∨ cache !! Path.resolve cwd [Path.resolve cwd [Path.dirname filePath; "./other.md"]]
    = Some (Some other) →
  ∃ info cache1,
    readDocInfo fs cwd filePath docsDir ∅ cache = Returned (Some info, cache1)
    ∧ title info = Some otherTitle
    ∧ (skip other = Some true →
       skip info = Some true
       ∧ ∀ configPath index st,
           st_cache st = cache →
           filePath ≠ configPath →
           isReadme (Path.basename filePath) = false →
           isDraft (Path.basename filePath) = false →
           ∃ st1, processFile fs cwd docsDir configPath index st filePath = Returned st1
                  ∧ routeFromFile cwd docsDir filePath ∈ st_skipRoutes st1
                  ∧ st_config st1 = st_config st).
Proof.
  intros Hraw Hown Hrawo Hother Htitle Ht Hcache Hcacheo.
  unfold parseFrontmatter in Hown, Hother.
  destruct (matchFrontmatter raw) as [block|] eqn:Hblock; [|done].
  destruct (matchFrontmatter rawOther) as [blocko|] eqn:Hblocko; [|done].
  simpl in Hown, Hother. injection Hown as Hown. injection Hother as Hother.
  set (otherPath := Path.resolve cwd [Path.dirname filePath; "./other.md"]) in *.
  assert (∃ cache0,
            readDocInfoFuel (S (size (docs fs))) fs cwd otherPath docsDir
              ({[otherPath]} ∪ ∅) cache = Returned (Some other, cache0)) as [cache0 Hrec].
  { rewrite readDocInfoFuel_S. cbv zeta.
    destruct Hcacheo as [-> | ->]; [|by eexists].
    rewrite Hrawo, Hblocko, Hother.
    destruct (ref other) as [refValue|]; [|by eexists].
    rewrite Htitle. simpl. rewrite (proj2 (truthy_true _) Ht). simpl. by eexists. }
  assert (readDocInfo fs cwd filePath docsDir ∅ cache
          = Returned (Some (adoptReferenced (mkFrontmatterInfo None None (Some "./other.md"))
                              (Some other)),
                      <[Path.resolve cwd [filePath] :=
                          Some (adoptReferenced
                                  (mkFrontmatterInfo None None (Some "./other.md"))
                                  (Some other))]> cache0)) as Hread.
  { unfold readDocInfo. change (2 + size (docs fs))%nat with (S (S (size (docs fs)))).
    rewrite readDocInfoFuel_S. cbv zeta. rewrite Hcache, Hraw, Hblock, Hown.
    cbn [ref title Js.truthyOpt negb andb Js.truthy].
    change (resolveRefPath cwd filePath "./other.md" docsDir) with (Some otherPath).
    cbv beta iota. change (Js.truthy otherPath) with true.
    rewrite bool_decide_eq_false_2 by set_solver.
    cbn [negb andb]. rewrite Hrec. done. }
  eexists _, _. split; [exact Hread|].
  unfold adoptReferenced. rewrite Htitle. simpl. rewrite (proj2 (truthy_true _) Ht).
  split; [by destruct (bool_decide _)|].
  intros Hskip. rewrite bool_decide_eq_true_2 by done. split; [done|].
  intros configPath index st <- Hne Hreadme Hdraft.
  rewrite (processFile_read _ _ _ _ _ _ _ _ _ Hne Hreadme Hdraft Hread).
  unfold adoptReferenced. rewrite Htitle. simpl. rewrite (proj2 (truthy_true _) Ht).
  rewrite (bool_decide_eq_true_2 _ Hskip). simpl.
  rewrite (proj2 (truthy_true _) Ht). simpl.
  eexists. split; [done|]. simpl. split; [set_solver | done].
Qed.

(** ** Pruning *)

Lemma classifyFiles_split fs cwd dir configPath cache files1 filePath files2 vs cache3 :
  classifyFiles fs cwd dir configPath cache (files1 ++ filePath :: files2)
    = Returned (vs, cache3) →
  ∃ vs1 cache1 v cache2 vs2,
    classifyFiles fs cwd dir configPath cache files1 = Returned (vs1, cache1)
    ∧ classify fs cwd dir configPath cache1 filePath = Returned (v, cache2)
    ∧ classifyFiles fs cwd dir configPath cache2 files2 = Returned (vs2, cache3)
    ∧ vs = vs1 ++ v :: vs2.
Proof.
  revert cache vs; induction files1 as [|f files1 IH]; intros cache vs; simpl.
  - destruct (classify _ _ _ _ cache filePath) as [[v c2]| |] eqn:Hv; simpl; [|done..].
    destruct (classifyFiles _ _ _ _ c2 files2) as [[vs2 c3]| |] eqn:Hvs2; simpl; [|done..].
    intros [= <- <-]. by exists [], cache, v, c2, vs2.
  - destruct (classify _ _ _ _ cache f) as [[v0 c0]| |] eqn:Hv0; simpl; [|done..].
    destruct (classifyFiles _ _ _ _ c0 _) as [[vs' c3]| |] eqn:Hrest; simpl; [|done..].
    intros [= <- <-].
    destruct (IH _ _ Hrest) as (vs1 & c1 & v & c2 & vs2 & Hvs1 & Hv & Hvs2 & ->).
    exists (v0 :: vs1), c1, v, c2, vs2. rewrite Hvs1. simpl. done.
Qed.

Lemma elem_of_skipRoutesOf route vs :
  route ∈ skipRoutesOf vs ↔ ∃ v, v ∈ vs ∧ route ∈ skipRouteOf v.
Proof.
  unfold skipRoutesOf. rewrite elem_of_union_list. split.
  - intros (X & [v [-> Hv]]%list_elem_of_fmap & Hr). eauto.
  - intros (v & Hv & Hr). exists (skipRouteOf v). split; [|done].
    apply list_elem_of_fmap. eauto.
Qed.

(** The turn of the loop for a file whose resolved skip is true. *)
Lemma processFile_skip_true fs cwd dir configPath index st filePath info cache1 :
  filePath ≠ configPath →
  readDocInfo fs cwd filePath dir ∅ (st_cache st) = Returned (Some info, cache1) →
  skip info = Some true →
  ∃ st1,
    processFile fs cwd dir configPath index st filePath = Returned st1
    ∧ st_config st1 = st_config st
    ∧ added (st_log st1) = added (st_log st)
    ∧ (isReadme (Path.basename filePath) || isDraft (Path.basename filePath) = true
       ∨ Js.truthyOpt (title info) = true →
       routeFromFile cwd dir filePath ∈ st_skipRoutes st1).
Proof.
  intros Hne Hread Hskip.
  destruct (isReadme (Path.basename filePath) || isDraft (Path.basename filePath)) eqn:Hname.
  - unfold processFile. rewrite (proj2 (String.eqb_neq _ _) Hne), Hname.
    eexists. split; [done|]. simpl. repeat split; try done. intros _. set_solver.
  - apply orb_false_iff in Hname as [Hreadme Hdraft].
    rewrite (processFile_read _ _ _ _ _ _ _ _ _ Hne Hreadme Hdraft Hread).
    rewrite (bool_decide_eq_true_2 _ Hskip).
    destruct (Js.truthyOpt (title info)); simpl.
    + eexists. split; [done|]. simpl. repeat split; try done. intros _. set_solver.
    + eexists. split; [done|]. simpl. repeat split; try done. by intros [|].
Qed.

(** The amended C4.  After the files of a directory have been scanned, the
    run removes, from every container, the entries whose route is a route
    to skip, and logs the route of each entry removed under [removed]:
    each container of the config written is the container as the scan left
    it, less those entries, and holds no route to skip.  The routes to skip
    are the routes of the readme files, of the drafts, and of the files
    for which [readDocInfo] gives a non-empty title and [skip] true.  In any
    run, the turn of the loop for a file whose resolved skip is true
    appends nothing to any container: the config is the same after it,
    whether the file has a title or not. *)
Theorem skip_eligible_entries_pruned
    (cwd dir : string) (cache : Cache) (fs : FileSystem)
    (log : ChangeLog) (cache1 : Cache) (fs1 : FileSystem) :
  processDocsConfig cwd dir cache fs = Returned (log, cache1, fs1) →
  ∃ config config1 vs scanned,
    configs fs !! Path.join [dir; "config.json"] = Some config
    ∧ configs fs1 !! Path.join [dir; "config.json"] = Some config1
    ∧ verdicts fs cwd dir cache = Returned (vs, cache1)
    ∧ applyVerdicts (buildPlacementIndex config) (mkSyncState config emptyLog ∅ ∅ ∅) vs
      = Returned scanned
    ∧ st_skipRoutes scanned = skipRoutesOf vs
    ∧ (∀ p, containerOf config1 p
            = keepUnskipped (skipRoutesOf vs) <$> containerOf (st_config scanned) p)
    ∧ removed log
      = concat (removedRoutes (skipRoutesOf vs)
                  <$> containersOf (sections (st_config scanned)))
    ∧ (∀ p c item, containerOf config1 p = Some c → item ∈ c →
                   to item ∉ skipRoutesOf vs)
    ∧ (∀ files1 filePath files2 vs1 cacheAt,
         listContentFiles fs dir = files1 ++ filePath :: files2 →
         classifyFiles fs cwd dir (Path.join [dir; "config.json"]) cache files1
           = Returned (vs1, cacheAt) →
         filePath ≠ Path.join [dir; "config.json"] →
         isReadme (Path.basename filePath) || isDraft (Path.basename filePath) = true
         ∨ (∃ info cacheAfter,
              readDocInfo fs cwd filePath dir ∅ cacheAt = Returned (Some info, cacheAfter)
              ∧ Js.truthyOpt (title info) = true ∧ skip info = Some true) →
         routeFromFile cwd dir filePath ∈ skipRoutesOf vs)
    ∧ (∀ index st filePath info cacheAfter,
         filePath ≠ Path.join [dir; "config.json"] →
         readDocInfo fs cwd filePath dir ∅ (st_cache st) = Returned (Some info, cacheAfter) →
         skip info = Some true →
         ∃ st1,
           processFile fs cwd dir (Path.join [dir; "config.json"]) index st filePath
             = Returned st1
           ∧ st_config st1 = st_config st
           ∧ added (st_log st1) = added (st_log st)).
Proof.
  intros (config & vs & stL & Hcfg & Hv & Hrun & -> & ->)%processDocsConfig_spec.
  destruct (reconcile_spec config vs)
    as (stL' & Hrun' & _ & Hsk & Hc & Hskip & Hseen & Hrem & Hmiss).
  rewrite Hrun in Hrun'. injection Hrun' as <-.
  exists config, (finishSync stL).1, vs, stL. simpl. rewrite lookup_insert_eq.
  rewrite finishSync_spec. simpl. rewrite Hrem, Hskip. simpl.
  split; [done|]. split; [done|]. split; [done|]. split; [done|]. split; [done|].
  split; [intros p; apply containerOf_prunedConfig|]. split; [done|].
  split; [|split].
  - intros p c item. rewrite containerOf_prunedConfig.
    destruct (containerOf (st_config stL) p) as [c0|]; simpl; [|done].
    intros [= <-] Hin. unfold keepUnskipped in Hin.
    by apply list_elem_of_filter in Hin as [? _].
  - intros files1 filePath files2 vs1 cacheAt Hfiles Hvs1 Hne Hwhy.
    unfold verdicts in Hv. rewrite Hfiles in Hv.
    apply classifyFiles_split in Hv
      as (vs1' & c1 & v & c2 & vs2 & Hvs1' & Hclass & _ & ->).
    rewrite Hvs1 in Hvs1'. injection Hvs1' as <- <-.
    apply elem_of_skipRoutesOf. exists v. split; [apply elem_of_app; right; left|].
    unfold classify in Hclass. rewrite (proj2 (String.eqb_neq _ _) Hne) in Hclass.
    destruct Hwhy as [Hname | (info & c & Hread & Ht & Hs)].
    + rewrite Hname in Hclass. injection Hclass as <- _. simpl. set_solver.
    + destruct (isReadme _ || isDraft _); [injection Hclass as <- _; simpl; set_solver|].
      rewrite Hread in Hclass. simpl in Hclass.
      destruct (title info) as [t|]; [|done]. simpl in Ht. rewrite Ht in Hclass.
      rewrite (bool_decide_eq_true_2 _ Hs) in Hclass.
      injection Hclass as <- _. simpl. set_solver.
  - intros index st filePath info cacheAfter Hne Hread Hs.
    destruct (processFile_skip_true fs cwd dir _ index st filePath info cacheAfter
                Hne Hread Hs) as (st1 & H1 & H2 & H3 & _).
    by exists st1.
Qed.

(** ** The second run *)

Lemma readDocInfoFuel_docs fuel fs fs' cwd filePath docsDir stack cache :
  docs fs = docs fs' →
  readDocInfoFuel fuel fs cwd filePath docsDir stack cache
  = readDocInfoFuel fuel fs' cwd filePath docsDir stack cache.
Proof.
  intros Hdocs. revert filePath stack cache.
  induction fuel as [|fuel IH]; intros filePath stack cache; [done|].
  rewrite !readDocInfoFuel_S. cbv zeta. unfold readFile. rewrite <- Hdocs.
  destruct (cache !! _); [done|].
  destruct (docs fs !! filePath) as [raw|]; [|done].
  destruct (matchFrontmatter raw) as [block|]; [|done].
  destruct (ref (parseBlock block)) as [refValue|]; [|done].
  destruct (negb _ && _); [|done].
  destruct (resolveRefPath _ _ _ _) as [refPath|]; [|done].
  destruct (Js.truthy refPath && _); [|done].
  by rewrite IH.
Qed.

Lemma classifyFiles_docs fs fs' cwd dir configPath cache files :
  docs fs = docs fs' →
  classifyFiles fs cwd dir configPath cache files
  = classifyFiles fs' cwd dir configPath cache files.
Proof.
  intros Hdocs. revert cache; induction files as [|f files IH]; intros cache; simpl; [done|].
  assert (classify fs cwd dir configPath cache f = classify fs' cwd dir configPath cache f)
    as ->.
  { unfold classify, readDocInfo. rewrite <- Hdocs.
    by rewrite (readDocInfoFuel_docs _ fs fs'). }
  destruct (classify fs' _ _ _ _ _) as [[v c]| |]; simpl; [|done..]. by rewrite IH.
Qed.

Lemma verdicts_writeJson fs path value cwd dir cache :
  verdicts (writeJson fs path value) cwd dir cache = verdicts fs cwd dir cache.
Proof. unfold verdicts. by apply classifyFiles_docs. Qed.

Lemma growContainer_keeps index p c v route :
  route ∈ to <$> c → route ∈ to <$> growContainer index p c v.
Proof.
  destruct (growContainer_app index p c v) as (app & -> & _).
  rewrite fmap_app, elem_of_app. by left.
Qed.

Lemma grownContainer_keeps index p c vs route :
  route ∈ to <$> c → route ∈ to <$> grownContainer index p c vs.
Proof.
  destruct (grownContainer_app index p c vs) as (app & -> & _).
  rewrite fmap_app, elem_of_app. by left.
Qed.

(** After the loop, the container found for a file to place holds its
    route. *)
Lemma grownContainer_placed index p c vs route infoTitle :
  VPlace route infoTitle ∈ vs → findPlacement route index = Some p →
  route ∈ to <$> grownContainer index p c vs.
Proof.
  unfold grownContainer. revert c; induction vs as [|v vs IH]; intros c Hin Hf; simpl.
  - by apply elem_of_nil in Hin.
  - apply elem_of_cons in Hin as [<-|Hin]; [|by apply IH].
    apply (grownContainer_keeps index p _ vs). simpl. rewrite decide_True by done.
    destruct (decide (route ∈ to <$> c)) as [Hc|Hc].
    + by rewrite ensureNavItem_existing.
    + rewrite ensureNavItem_absent by done. simpl. rewrite fmap_app, elem_of_app.
      right. simpl. left.
Qed.

Lemma elem_of_routesOf config route :
  route ∈ routesOf config
  ↔ ∃ p c, containerOf config p = Some c ∧ route ∈ to <$> c.
Proof.
  unfold routesOf. rewrite list_elem_of_fmap. split.
  - intros [[r p] [-> (c & item & Hc & Hin & Hto)%elem_of_registrations]].
    exists p, c. split; [done|]. apply list_elem_of_fmap. eauto.
  - intros (p & c & Hc & [item [-> Hin]]%list_elem_of_fmap).
    exists (to item, p). split; [done|]. apply elem_of_registrations. eauto.
Qed.

(** The routes of the config written: routes of the config read, and
    routes of files to place for which a placement was found. *)
Lemma routesOf_finishSync config vs stL route :
  applyVerdicts (buildPlacementIndex config) (mkSyncState config emptyLog ∅ ∅ ∅) vs
    = Returned stL →
  route ∈ routesOf (finishSync stL).1 →
  route ∈ routesOf config
  ∨ ∃ infoTitle p, VPlace route infoTitle ∈ vs
                   ∧ findPlacement route (buildPlacementIndex config) = Some p.
Proof.
  intros Hrun.
  destruct (reconcile_spec config vs) as (stL' & Hrun' & _ & _ & Hc & _).
  rewrite Hrun in Hrun'. injection Hrun' as <-.
  rewrite finishSync_spec. simpl.
  intros (p & c & Hp & Hr)%elem_of_routesOf.
  rewrite containerOf_prunedConfig, Hc in Hp.
  destruct (containerOf config p) as [c0|] eqn:Hc0; simpl in Hp; [|done].
  injection Hp as <-.
  destruct (grownContainer_app (buildPlacementIndex config) p c0 vs) as (app & Happ & Hitems).
  rewrite Happ in Hr.
  apply list_elem_of_fmap in Hr as [item [-> [_ Hin]%list_elem_of_filter]].
  apply elem_of_app in Hin as [Hin|Hin].
  - left. apply elem_of_routesOf. exists p, c0. split; [done|].
    apply list_elem_of_fmap. eauto.
  - right. destruct (Hitems _ Hin) as (r & t & Hv & -> & Hf & _). simpl. eauto.
Qed.

(** A route that has no placement in the first run has none in the second. *)
Lemma findPlacement_None_second config vs stL route :
  applyVerdicts (buildPlacementIndex config) (mkSyncState config emptyLog ∅ ∅ ∅) vs
    = Returned stL →
  findPlacement route (buildPlacementIndex config) = None →
  findPlacement route (buildPlacementIndex (finishSync stL).1) = None.
Proof.
  intros Hrun Hnone. rewrite findPlacement_build_None in Hnone.
  apply findPlacement_build_None. intros x r1 Hx Hr1 Hxr1.
  destruct (routesOf_finishSync _ _ _ _ Hrun Hr1) as [Hold | (t & p & Hv & Hf)].
  - by apply (Hnone x r1).
  - assert (findPlacement r1 (buildPlacementIndex config) ≠ None) as Hsome by congruence.
    rewrite findPlacement_build_None in Hsome.
    apply Hsome. intros y r0 Hy Hr0 Hyr0.
    destruct (walk_linear x y r1 Hxr1 Hy) as [Hyx | Hxy].
    + apply (Hnone y r0); [by eapply walk_trans | done | done].
    + apply (Hnone x r0); [done | done | by eapply walk_trans].
Qed.

(** In the second run every file to place finds its entry. *)
Lemma second_run_finds_entries config vs stL route infoTitle p :
  applyVerdicts (buildPlacementIndex config) (mkSyncState config emptyLog ∅ ∅ ∅) vs
    = Returned stL →
  Forall (placedNotSkipped vs) vs →
  VPlace route infoTitle ∈ vs →
  findPlacement route (buildPlacementIndex (finishSync stL).1) = Some p →
  ∃ c, containerOf (finishSync stL).1 p = Some c ∧ route ∈ to <$> c.
Proof.
  intros Hrun Hok Hv Hfind.
  destruct (findPlacement route (buildPlacementIndex config)) as [p0|] eqn:Hf0.
  - assert (route ∈ routesOf (finishSync stL).1) as Hin.
    { destruct (reconcile_spec config vs) as (stL' & Hrun' & _ & _ & Hc & Hskip & _).
      rewrite Hrun in Hrun'. injection Hrun' as <-.
      destruct (indexValid_build config _ _ Hf0) as [c0 Hc0].
      apply elem_of_routesOf. rewrite finishSync_spec. simpl.
      exists p0. eexists. rewrite containerOf_prunedConfig, Hc, Hc0. simpl.
      split; [done|].
      pose proof (grownContainer_placed _ _ c0 _ _ _ Hv Hf0) as Hr.
      apply list_elem_of_fmap in Hr as [item [-> Hitem]].
      apply list_elem_of_fmap. exists item. split; [done|].
      unfold keepUnskipped. apply list_elem_of_filter. split; [|done].
      rewrite Hskip. rewrite Forall_forall in Hok. exact (Hok _ Hv). }
    destruct (findPlacement_exact _ _ Hin) as (p' & Hf' & Hreg).
    rewrite Hfind in Hf'. injection Hf' as <-.
    apply elem_of_registrations in Hreg as (c & item & Hc & Hitem & Hto).
    exists c. split; [done|]. apply list_elem_of_fmap. eauto.
  - by rewrite (findPlacement_None_second _ _ _ _ Hrun Hf0) in Hfind.
Qed.

(** A loop in which every file to place finds its entry leaves the config
    as it is and adds nothing. *)
Lemma applyVerdicts_fixed index st vs :
  (∀ route infoTitle p, VPlace route infoTitle ∈ vs →
     findPlacement route index = Some p →
     ∃ c, containerOf (st_config st) p = Some c ∧ route ∈ to <$> c) →
  ∃ st1, applyVerdicts index st vs = Returned st1
         ∧ st_config st1 = st_config st
         ∧ added (st_log st1) = added (st_log st).
Proof.
  revert st; induction vs as [|v vs IH]; intros st Hfound; simpl; [by eexists|].
  assert (∃ st0, applyVerdict index st v = Returned st0
                 ∧ st_config st0 = st_config st
                 ∧ added (st_log st0) = added (st_log st)) as (st0 & -> & Hc0 & Ha0).
  { destruct v as [| | | |route t]; simpl; try (by eexists).
    destruct (findPlacement route index) as [p|] eqn:Hf; [|by eexists].
    destruct (Hfound route t p) as (c & Hc & Hin); [left | done |].
    rewrite Hc.
    pose proof (ensureNavItem_existing c (mkNavItem (Js.trim t) route None) (st_log st) Hin)
      as Hsame.
    assert (added (ensureNavItem c (mkNavItem (Js.trim t) route None) (st_log st)).2
            = added (st_log st)) as Hadd.
    { unfold ensureNavItem. destruct (List.find _ c) eqn:Hfind.
      - by destruct (negb _).
      - by apply find_route_None in Hfind. }
    destruct (ensureNavItem c _ (st_log st)) as [c1 log1]. simpl in *. subst c1.
    eexists. split; [done|]. simpl. split; [by apply setContainer_same | done]. }
  simpl. destruct (IH st0) as (st1 & -> & Hc1 & Ha1).
  { intros route t p Hv Hf. rewrite Hc0. apply (Hfound route t p); [by right | done]. }
  exists st1. split; [done|]. split; congruence.
Qed.

Lemma applyVerdicts_skipped_missing index st vs st1 :
  applyVerdicts index st vs = Returned st1 →
  skipped (st_log st1) = skippedAfter (skipped (st_log st)) vs
  ∧ missingFrontmatter (st_log st1)
    = missingFrontmatterAfter (missingFrontmatter (st_log st)) vs.
Proof.
  unfold skippedAfter, missingFrontmatterAfter.
  revert st; induction vs as [|v vs IH]; intros st; simpl; [by intros [= <-]|].
  intros (st0 & Hv & Hrest)%bindRun_Returned.
  destruct (IH _ Hrest) as [-> ->].
  destruct v as [| | | |route t]; simpl in Hv; try (injection Hv as <-; done).
  destruct (findPlacement route index) as [p|]; [|by injection Hv as <-].
  destruct (containerOf (st_config st) p) as [c|]; [|done].
  pose proof (removed_ensureNavItem c (mkNavItem (Js.trim t) route None) (st_log st))
    as (_ & _ & Hs & Hm & _).
  destruct (ensureNavItem c _ (st_log st)) as [c1 log1]. injection Hv as <-.
  simpl in *. by rewrite Hs, Hm.
Qed.

Lemma keepUnskipped_idem skipRoutes c :
  keepUnskipped skipRoutes (keepUnskipped skipRoutes c) = keepUnskipped skipRoutes c.
Proof.
  unfold keepUnskipped. induction c as [|e c IH]; [done|].
  rewrite filter_cons. case_decide; [|done].
  rewrite filter_cons, decide_True by done. by rewrite IH.
Qed.

Lemma removedRoutes_keepUnskipped skipRoutes c :
  removedRoutes skipRoutes (keepUnskipped skipRoutes c) = [].
Proof.
  unfold removedRoutes, keepUnskipped. induction c as [|e c IH]; [done|].
  rewrite filter_cons. case_decide as Hk; [|done].
  rewrite filter_cons, decide_False by done. done.
Qed.

Lemma prunedConfig_idem skipRoutes config :
  prunedConfig skipRoutes (prunedConfig skipRoutes config) = prunedConfig skipRoutes config.
Proof.
  unfold prunedConfig, setSections. simpl. f_equal.
  rewrite <- list_fmap_compose. apply list_fmap_ext. intros _ section _.
  unfold prunedSection. simpl. f_equal; [apply keepUnskipped_idem|].
  destruct (sec_frameworks section) as [fws|]; simpl; [|done]. f_equal.
  rewrite <- list_fmap_compose. apply list_fmap_ext. intros _ fw _.
  unfold prunedFramework, setFwChildren. simpl. by rewrite keepUnskipped_idem.
Qed.

Lemma containersOf_prunedConfig skipRoutes config :
  containersOf (sections (prunedConfig skipRoutes config))
  = keepUnskipped skipRoutes <$> containersOf (sections config).
Proof.
  unfold prunedConfig, containersOf. simpl.
  induction (sections config) as [|section secs IH]; [done|].
  rewrite fmap_cons, !bind_cons, fmap_app, IH. f_equal.
  unfold containersOfSection. simpl. f_equal.
  destruct (sec_frameworks section) as [fws|]; simpl; [|done].
  rewrite <- !list_fmap_compose. by apply list_fmap_ext.
Qed.

Lemma removedRoutes_prunedConfig skipRoutes config :
  concat (removedRoutes skipRoutes
            <$> containersOf (sections (prunedConfig skipRoutes config))) = [].
Proof.
  rewrite containersOf_prunedConfig.
  induction (containersOf (sections config)) as [|c cs IH]; [done|].
  rewrite !fmap_cons. cbn [concat]. by rewrite removedRoutes_keepUnskipped, IH.
Qed.

(** *** The second run finds each file to place where the first did *)

Lemma lastExact_itemRegistrations x c p :
  lastExact x (itemRegistrations c p) = if decide (x ∈ to <$> c) then Some p else None.
Proof.
  unfold itemRegistrations. induction c as [|item c IH]; simpl; [done|].
  rewrite IH. destruct (decide (x ∈ to <$> c)) as [Hin|Hout].
  - rewrite decide_True; [done|]. apply elem_of_cons. by right.
  - destruct (decide (to item = x)) as [<-|Hne].
    + rewrite decide_True; [done|]. left.
    + rewrite decide_False; [done|]. intros [?|?]%elem_of_cons; [congruence | done].
Qed.

Lemma lastExact_frameworkRegistrations x i j fws :
  lastExact x (frameworkRegistrations i j fws) = lastHolderFrameworks i j fws x.
Proof.
  revert j; induction fws as [|fw fws IH]; intros j; simpl; [done|].
  rewrite lastExact_app, IH, lastExact_itemRegistrations. done.
Qed.

Lemma lastExact_sectionRegistrations x i secs :
  lastExact x (sectionRegistrations i secs) = lastHolderSections i secs x.
Proof.
  revert i; induction secs as [|section secs IH]; intros i; simpl; [done|].
  rewrite !lastExact_app, IH, lastExact_itemRegistrations.
  destruct (lastHolderSections (S i) secs x); [done|].
  destruct (sec_frameworks section) as [fws|]; simpl; [|done].
  by rewrite lastExact_frameworkRegistrations.
Qed.

Lemma lastHolderFrameworks_ext x i j fws fws' :
  Forall2 (fun f f' => x ∈ to <$> fw_children f ↔ x ∈ to <$> fw_children f') fws fws' →
  lastHolderFrameworks i j fws x = lastHolderFrameworks i j fws' x.
Proof.
  intros H. revert j. induction H as [|f f' fws fws' Hf _ IH]; intros j; simpl; [done|].
  rewrite IH. destruct (lastHolderFrameworks i (S j) fws' x); [done|].
  destruct (decide (x ∈ to <$> fw_children f)) as [Hin|Hout].
  - rewrite decide_True; [done | by apply Hf].
  - rewrite decide_False; [done|]. intros Hin. by apply Hout, Hf.
Qed.

Lemma lastHolderSections_ext x i secs secs' :
  sameHolding x secs secs' →
  lastHolderSections i secs x = lastHolderSections i secs' x.
Proof.
  intros H. revert i. induction H as [|s s' secs secs' [Hc Hf] _ IH]; intros i; simpl; [done|].
  rewrite IH. destruct (lastHolderSections (S i) secs' x); [done|].
  assert (from_option (fun fws => lastHolderFrameworks i 0 fws x) None (sec_frameworks s)
          = from_option (fun fws => lastHolderFrameworks i 0 fws x) None (sec_frameworks s'))
    as ->.
  { destruct Hf as [fws fws' Hfws|]; simpl; [|done]. by apply lastHolderFrameworks_ext. }
  destruct (from_option _ _ _); [done|].
  destruct (decide (x ∈ to <$> sec_children s)) as [Hin|Hout].
  - rewrite decide_True; [done | by apply Hc].
  - rewrite decide_False; [done|]. intros Hin. by apply Hout, Hc.
Qed.

Lemma skeleton_sections_length config config' :
  skeleton config = skeleton config' →
  length (sections config) = length (sections config').
Proof.
  intros H. apply (f_equal (fun c => length (sections c))) in H.
  unfold skeleton in H. simpl in H. by rewrite !length_fmap in H.
Qed.

Lemma skeleton_lookup_section config config' i s s' :
  skeleton config = skeleton config' →
  sections config !! i = Some s → sections config' !! i = Some s' →
  skeletonOfSection s = skeletonOfSection s'.
Proof.
  intros H Hs Hs'. apply (f_equal (fun c => sections c !! i)) in H.
  unfold skeleton in H. simpl in H. rewrite !list_lookup_fmap, Hs, Hs' in H.
  simpl in H. congruence.
Qed.

(** Configs with the same skeleton whose containers hold [x] at the same
    places have sections that hold [x] at the same places. *)
Lemma sameHolding_containers x config config' :
  skeleton config = skeleton config' →
  (∀ p c c', containerOf config p = Some c → containerOf config' p = Some c' →
             (x ∈ to <$> c ↔ x ∈ to <$> c')) →
  sameHolding x (sections config) (sections config').
Proof.
  intros Hsk Hsame. apply Forall2_same_length_lookup.
  split; [by apply skeleton_sections_length|].
  intros i s s' Hs Hs'.
  pose proof (skeleton_lookup_section _ _ _ _ _ Hsk Hs Hs') as Hsec.
  split.
  - apply (Hsame (mkPlacement i None)); unfold containerOf; simpl.
    + by rewrite Hs.
    + by rewrite Hs'.
  - unfold skeletonOfSection in Hsec. injection Hsec as _ Hfws.
    destruct (sec_frameworks s) as [fws|] eqn:Hf, (sec_frameworks s') as [fws'|] eqn:Hf';
      simpl in Hfws; try done; constructor.
    injection Hfws as Hfws.
    apply Forall2_same_length_lookup. split.
    + apply (f_equal length) in Hfws. by rewrite !length_fmap in Hfws.
    + intros j f f' Hj Hj'.
      apply (Hsame (mkPlacement i (Some j))); unfold containerOf; simpl.
      * rewrite Hs. simpl. rewrite Hf. simpl. by rewrite Hj.
      * rewrite Hs'. simpl. rewrite Hf'. simpl. by rewrite Hj'.
Qed.

Lemma findPlacement_lastHolder config route :
  route ∈ routesOf config →
  findPlacement route (buildPlacementIndex config)
  = lastHolderSections 0 (sections config) route.
Proof.
  intros Hin. destruct (findPlacement_exact _ _ Hin) as (p & Hf & _).
  unfold findPlacement in *. simpl in *. unfold lookupPlacement at 1 in Hf.
  unfold lookupPlacement at 1.
  rewrite buildPlacementIndex_registrations, byRoute_registerAll in *.
  unfold registrations in *. rewrite lastExact_sectionRegistrations in *.
  destruct (lastHolderSections 0 (sections config) route) eqn:Hl; [done|].
  exfalso. unfold routesOf, registrations in Hin.
  apply lastExact_None in Hin; [done|]. by rewrite lastExact_sectionRegistrations.
Qed.

Lemma second_run_same_placement config vs stL route infoTitle :
  applyVerdicts (buildPlacementIndex config) (mkSyncState config emptyLog ∅ ∅ ∅) vs
    = Returned stL →
  Forall (placedNotSkipped vs) vs →
  VPlace route infoTitle ∈ vs →
  findPlacement route (buildPlacementIndex (finishSync stL).1)
  = findPlacement route (buildPlacementIndex config).
Proof.
  intros Hrun Hok Hv.
  destruct (findPlacement route (buildPlacementIndex config)) as [p0|] eqn:Hf0;
    [|by apply (findPlacement_None_second config vs)].
  destruct (reconcile_spec config vs) as (stL' & Hrun' & _ & Hsk & Hc & Hskip & _).
  rewrite Hrun in Hrun'. injection Hrun' as <-.
  assert (route ∉ skipRoutesOf vs) as Hnoskip.
  { rewrite Forall_forall in Hok. exact (Hok _ Hv). }
  assert (∀ p, containerOf (finishSync stL).1 p
               = (fun c => keepUnskipped (skipRoutesOf vs)
                              (grownContainer (buildPlacementIndex config) p c vs))
                   <$> containerOf config p) as Hc1.
  { intros p. rewrite finishSync_spec. simpl.
    by rewrite containerOf_prunedConfig, Hc, Hskip, <- option_fmap_compose. }
  assert (skeleton (finishSync stL).1 = skeleton config) as Hsk1.
  { rewrite finishSync_spec. simpl. by rewrite skeleton_prunedConfig. }
  assert (route ∈ routesOf (finishSync stL).1) as Hin1.
  { destruct (indexValid_build config _ _ Hf0) as [c0 Hc0].
    apply elem_of_routesOf. exists p0. eexists. rewrite Hc1, Hc0. simpl.
    split; [done|].
    pose proof (grownContainer_placed _ _ c0 _ _ _ Hv Hf0) as Hr.
    apply list_elem_of_fmap in Hr as [item [-> Hitem]].
    apply list_elem_of_fmap. exists item. split; [done|].
    unfold keepUnskipped. by apply list_elem_of_filter. }
  destruct (decide (route ∈ routesOf config)) as [Hin0|Hout0].
  - rewrite findPlacement_lastHolder by done.
    rewrite <- Hf0, findPlacement_lastHolder by done.
    apply lastHolderSections_ext, sameHolding_containers; [done|].
    intros p c1 c0 Hp1 Hp0. rewrite Hc1, Hp0 in Hp1. injection Hp1 as <-.
    destruct (grownContainer_app (buildPlacementIndex config) p c0 vs)
      as (app & -> & Happ).
    split.
    + intros [item [-> [_ Hitem]%list_elem_of_filter]]%list_elem_of_fmap.
      apply elem_of_app in Hitem as [Hitem|Hitem];
        [apply list_elem_of_fmap; eauto|].
      destruct (Happ _ Hitem) as (r & t & _ & -> & Hfp & Hnew). simpl in *.
      destruct (findPlacement_exact _ _ Hin0) as (p' & Hf' & Hreg).
      rewrite Hfp in Hf'. injection Hf' as <-.
      apply elem_of_registrations in Hreg as (c & item & Hcp & Hitem' & Hto).
      rewrite Hp0 in Hcp. injection Hcp as <-.
      exfalso. apply Hnew. apply list_elem_of_fmap. eauto.
    + intros [item [-> Hitem]]%list_elem_of_fmap.
      apply list_elem_of_fmap. exists item. split; [done|].
      unfold keepUnskipped. apply list_elem_of_filter. split; [done|].
      apply elem_of_app. by left.
  - destruct (findPlacement_exact _ _ Hin1) as (p1 & -> & Hreg). f_equal.
    apply elem_of_registrations in Hreg as (c1 & item & Hp1 & Hitem & Hto).
    rewrite Hc1 in Hp1.
    destruct (containerOf config p1) as [c0|] eqn:Hp0; simpl in Hp1; [|done].
    injection Hp1 as <-.
    destruct (grownContainer_app (buildPlacementIndex config) p1 c0 vs)
      as (app & Heq & Happ).
    rewrite Heq in Hitem. apply list_elem_of_filter in Hitem as [_ Hitem].
    apply elem_of_app in Hitem as [Hitem|Hitem].
    + exfalso. apply Hout0. apply elem_of_routesOf. exists p1, c0. split; [done|].
      apply list_elem_of_fmap. eauto.
    + destruct (Happ _ Hitem) as (r & t & _ & -> & Hfp & _). simpl in Hto. subst r.
      congruence.
Qed.

(** *** The two loops log the same mismatches and the same unmatched routes *)

Lemma find_app_route route (c more : list NavItem) :
  List.find (fun e => String.eqb (to e) route) (c ++ more)
  = match List.find (fun e => String.eqb (to e) route) c with
    | Some e => Some e
    | None => List.find (fun e => String.eqb (to e) route) more
    end.
Proof.
  induction c as [|e c IH]; simpl; [done|]. by destruct (String.eqb (to e) route).
Qed.

Lemma find_keepUnskipped route skipRoutes c :
  route ∉ skipRoutes →
  List.find (fun e => String.eqb (to e) route) (keepUnskipped skipRoutes c)
  = List.find (fun e => String.eqb (to e) route) c.
Proof.
  intros Hr. unfold keepUnskipped. induction c as [|e c IH]; [done|].
  rewrite filter_cons. simpl.
  destruct (String.eqb_spec (to e) route) as [Heq|Hne].
  - rewrite decide_True by congruence. simpl.
    by rewrite (proj2 (String.eqb_eq _ _) Heq).
  - case_decide; [|done]. simpl. by rewrite (proj2 (String.eqb_neq _ _) Hne).
Qed.

Lemma ensureNavItem_logs c item log :
  labelMismatch (ensureNavItem c item log).2 = labelMismatch log ++ mismatchOf c item
  ∧ unmatched (ensureNavItem c item log).2 = unmatched log.
Proof.
  unfold ensureNavItem, mismatchOf. destruct (List.find _ c); simpl.
  - destruct (negb _); simpl; by rewrite ?app_nil_r.
  - by rewrite app_nil_r.
Qed.

(** The first loop, from a state [s], and the second loop, on the config
    [config1] that the first run comes to write, log the same mismatches
    and the same unmatched routes. *)
Lemma loops_agree index0 index1 config1 skipRoutes vs :
  ∀ s s',
    (∀ r t, VPlace r t ∈ vs → findPlacement r index1 = findPlacement r index0) →
    (∀ r t, VPlace r t ∈ vs → r ∉ skipRoutes) →
    indexValid index0 (st_config s) →
    st_config s' = config1 →
    (∀ p c, containerOf (st_config s) p = Some c →
            containerOf config1 p
            = Some (keepUnskipped skipRoutes (grownContainer index0 p c vs))) →
    labelMismatch (st_log s') = labelMismatch (st_log s) →
    unmatched (st_log s') = unmatched (st_log s) →
    ∃ s1 s1',
      applyVerdicts index0 s vs = Returned s1
      ∧ applyVerdicts index1 s' vs = Returned s1'
      ∧ labelMismatch (st_log s1') = labelMismatch (st_log s1)
      ∧ unmatched (st_log s1') = unmatched (st_log s1).
Proof.
  induction vs as [|v vs IH]; intros s s' Hsame Hnoskip Hvalid Hcfg Hcont Hlm Hun; simpl.
  { by exists s, s'. }
  assert (∀ r t, VPlace r t ∈ vs → findPlacement r index1 = findPlacement r index0)
    as Hsame' by (intros r t Hin; apply (Hsame r t); by right).
  assert (∀ r t, VPlace r t ∈ vs → r ∉ skipRoutes)
    as Hnoskip' by (intros r t Hin; apply (Hnoskip r t); by right).
  destruct v as [|route|route file|route|route t]; simpl;
    try (apply IH; [done | done | done | done | | done | done];
         intros p c Hp; by rewrite (Hcont p c Hp)).
  rewrite (Hsame route t) by left.
  specialize (Hnoskip route t ltac:(left)).
  destruct (findPlacement route index0) as [p0|] eqn:Hf0.
  - destruct (Hvalid _ _ Hf0) as [c Hc]. rewrite Hc.
    pose proof (Hcont p0 c Hc) as Hc1. simpl in Hc1. rewrite decide_True in Hc1 by done.
    set (item := mkNavItem (Js.trim t) route None) in *.
    rewrite Hcfg, Hc1.
    destruct (grownContainer_app index0 p0 (ensureNavItem c item emptyLog).1 vs)
      as (more & Hmore & _).
    assert (route ∈ to <$> (ensureNavItem c item emptyLog).1) as Hheld.
    { destruct (decide (route ∈ to <$> c)) as [Hin|Hout].
      - by rewrite ensureNavItem_existing.
      - rewrite ensureNavItem_absent by done. simpl. rewrite fmap_app, elem_of_app.
        right. left. }
    assert (List.find (fun e => String.eqb (to e) route)
              (keepUnskipped skipRoutes
                 (grownContainer index0 p0 (ensureNavItem c item emptyLog).1 vs))
            = List.find (fun e => String.eqb (to e) route)
                (ensureNavItem c item emptyLog).1) as Hfind.
    { rewrite find_keepUnskipped by done. rewrite Hmore, find_app_route.
      destruct (List.find _ (ensureNavItem c item emptyLog).1) eqn:Hf; [done|].
      by apply find_route_None in Hf. }
    assert (mismatchOf (keepUnskipped skipRoutes
                          (grownContainer index0 p0 (ensureNavItem c item emptyLog).1 vs))
                       item
            = mismatchOf c item) as Hmm.
    { unfold mismatchOf. simpl. rewrite Hfind.
      destruct (decide (route ∈ to <$> c)) as [Hin|Hout].
      - by rewrite ensureNavItem_existing.
      - rewrite ensureNavItem_absent by done. simpl. rewrite find_app_route.
        apply find_route_None in Hout as Hnone. simpl in Hnone. rewrite Hnone. simpl.
        by rewrite !String.eqb_refl. }
    assert (route ∈ to <$> keepUnskipped skipRoutes
              (grownContainer index0 p0 (ensureNavItem c item emptyLog).1 vs)) as Hheld2.
    { apply list_elem_of_fmap in Hheld as [e [He Hin]].
      apply list_elem_of_fmap. exists e. split; [done|].
      unfold keepUnskipped. apply list_elem_of_filter. split; [by rewrite <- He|].
      rewrite Hmore. apply elem_of_app. by left. }
    pose proof (ensureNavItem_logs c item (st_log s)) as [Hl1 Hu1].
    pose proof (ensureNavItem_logs
                  (keepUnskipped skipRoutes
                     (grownContainer index0 p0 (ensureNavItem c item emptyLog).1 vs))
                  item (st_log s')) as [Hl2 Hu2].
    pose proof (ensureNavItem_existing
                  (keepUnskipped skipRoutes
                     (grownContainer index0 p0 (ensureNavItem c item emptyLog).1 vs))
                  item (st_log s')) as Hsame2.
    pose proof (ensureNavItem_container_log c item emptyLog (st_log s)) as Hce.
    destruct (ensureNavItem c item (st_log s)) as [c' log'] eqn:He1.
    destruct (ensureNavItem (keepUnskipped _ _) item (st_log s')) as [k' log2'] eqn:He2.
    simpl in *.
    apply IH; simpl; try done.
    + eapply indexValid_skeleton; [|done]. by rewrite skeleton_setContainer.
    + rewrite Hsame2 by done. by apply setContainer_same.
    + intros p cp. destruct (decide (p0 = p)) as [<-|Hne].
      * rewrite containerOf_setContainer_eq by (by eexists). intros [= <-].
        by rewrite Hc1, Hce.
      * rewrite containerOf_setContainer_ne by done. intros Hp.
        rewrite (Hcont p cp Hp). simpl. rewrite decide_False; [done | congruence].
    + rewrite Hl2, Hl1, Hmm. by rewrite Hlm.
    + by rewrite Hu2, Hu1.
  - apply IH; simpl; try done.
    + intros p c Hp. rewrite (Hcont p c Hp). simpl.
      rewrite decide_False; [done | congruence].
    + by rewrite Hun.
Qed.

(** The amended C1.  Run the synchronizer on a directory, and run it
    again from the same cache (a new process) on the file system as the
    first run has left it.  If no file to place has a route to skip (a
    readme, a draft or a skipped file with the same route), the second run
    writes the config the first has written, and logs nothing under
    [added] and nothing under [removed].  Under the five other categories
    it logs what the first run has logged: they report a state of the files
    and of the config that a run does not change, so the report of the
    second run is empty exactly when these were empty in the first. *)
Theorem second_run_changes_nothing
    (cwd dir : string) (cache : Cache) (fs : FileSystem)
    (log1 : ChangeLog) (cache1 : Cache) (fs1 : FileSystem) :
  processDocsConfig cwd dir cache fs = Returned (log1, cache1, fs1) →
  (∀ vs cacheAfter, verdicts fs cwd dir cache = Returned (vs, cacheAfter) →
                    Forall (placedNotSkipped vs) vs) →
  ∃ log2,
    processDocsConfig cwd dir cache fs1 = Returned (log2, cache1, fs1)
    ∧ added log2 = []
    ∧ removed log2 = []
    ∧ labelMismatch log2 = labelMismatch log1
    ∧ skipped log2 = skipped log1
    ∧ missingFrontmatter log2 = missingFrontmatter log1
    ∧ unmatched log2 = unmatched log1
    ∧ missingFiles log2 = missingFiles log1.
Proof.
  intros (config & vs & stL & Hcfg & Hv & Hrun & -> & ->)%processDocsConfig_spec Hok.
  specialize (Hok vs cache1 Hv).
  set (configPath := Path.join [dir; "config.json"]) in *.
  set (config1 := (finishSync stL).1).
  destruct (reconcile_spec config vs)
    as (stL' & Hrun' & _ & _ & Hc & Hskip & Hseen & _ & Hmiss).
  rewrite Hrun in Hrun'. injection Hrun' as <-.
  destruct (reconcile_spec config1 vs)
    as (stL2 & Hrun2 & Hrec2 & _ & _ & Hskip2 & Hseen2 & Hrem2 & Hmiss2).
  destruct (applyVerdicts_fixed (buildPlacementIndex config1)
              (mkSyncState config1 emptyLog ∅ ∅ ∅) vs) as (st2 & Hrun2' & Hcfg2 & Hadd2).
  { intros route t p Hin Hf. simpl. by eapply second_run_finds_entries. }
  rewrite Hrun2 in Hrun2'. injection Hrun2' as <-. simpl in Hcfg2, Hadd2.
  assert (config1 = prunedConfig (skipRoutesOf vs) (st_config stL)) as Hconfig1.
  { unfold config1. rewrite finishSync_spec. simpl. by rewrite Hskip. }
  assert ((finishSync stL2).1 = config1) as Hsame.
  { rewrite finishSync_spec. simpl. rewrite Hcfg2, Hskip2, Hconfig1.
    apply prunedConfig_idem. }
  destruct (loops_agree (buildPlacementIndex config) (buildPlacementIndex config1) config1
              (skipRoutesOf vs) vs (mkSyncState config emptyLog ∅ ∅ ∅)
              (mkSyncState config1 emptyLog ∅ ∅ ∅))
    as (s1 & s1' & Hs1 & Hs1' & Hlm & Hun); simpl; try done.
  { intros r t Hin. by apply (second_run_same_placement config vs stL r t). }
  { intros r t Hin. rewrite Forall_forall in Hok. exact (Hok _ Hin). }
  { apply indexValid_build. }
  { intros p c Hp. rewrite Hconfig1, containerOf_prunedConfig, Hc, Hp. done. }
  rewrite Hrun in Hs1. injection Hs1 as <-.
  rewrite Hrun2 in Hs1'. injection Hs1' as <-.
  exists (finishSync stL2).2.
  split; [|split; [|split; [|split; [|split; [|split; [|split]]]]]].
  - unfold processDocsConfig, readJson. fold configPath. simpl.
    rewrite lookup_insert_eq. simpl.
    rewrite syncConfig_reconcile, verdicts_writeJson, Hv. simpl.
    rewrite Hrec2. simpl.
    destruct (finishSync stL2) as [c2 l2] eqn:Hfin. simpl in *. subst c2.
    unfold writeJson. simpl. by rewrite insert_insert_eq.
  - rewrite finishSync_spec. simpl. done.
  - rewrite finishSync_spec. simpl. rewrite Hrem2, Hcfg2, Hskip2, Hconfig1. simpl.
    apply removedRoutes_prunedConfig.
  - rewrite !finishSync_spec. simpl. done.
  - rewrite !finishSync_spec. simpl.
    destruct (applyVerdicts_skipped_missing _ _ _ _ Hrun) as [-> _].
    destruct (applyVerdicts_skipped_missing _ _ _ _ Hrun2) as [-> _]. done.
  - rewrite !finishSync_spec. simpl.
    destruct (applyVerdicts_skipped_missing _ _ _ _ Hrun) as [_ ->].
    destruct (applyVerdicts_skipped_missing _ _ _ _ Hrun2) as [_ ->]. done.
  - rewrite !finishSync_spec. simpl. done.
  - rewrite !finishSync_spec. simpl.
    rewrite Hmiss, Hmiss2, Hcfg2, Hskip, Hskip2, Hseen, Hseen2.
    change (prunedSection (skipRoutesOf vs) <$> sections config1)
      with (sections (prunedConfig (skipRoutesOf vs) config1)).
    rewrite Hconfig1, prunedConfig_idem. done.
Qed.

(** ** Instances *)

Lemma not_reached_by x regs :
  Forall (fun reg : string * Placement => x ∉ routeChain reg.1) regs →
  ∀ r p j, (r, p) ∈ regs → Nat.iter j parentRoute r ≠ x ∨ x = "".
Proof.
  intros Hall r p j Hin. rewrite Forall_forall in Hall.
  destruct (decide (x = "")) as [|Hne]; [by right|]. left. intros Hj.
  apply (Hall _ Hin). simpl. apply elem_of_routeChain. split; [done | by exists j].
Qed.

Lemma byDir_first_registrant_wins_witness :
  byDir (buildPlacementIndex Sample.twoSections) !! "a/b" = Some (mkPlacement 0 None)
  ∧ byRoute (buildPlacementIndex Sample.twoSections) !! "a/b" = Some (mkPlacement 1 None).
Proof.
  split; [|by vm_compute].
  refine (proj1 (proj2 (byDir_first_registrant_wins Sample.twoSections
           [("z", mkPlacement 0 None)]
           [("a/b", mkPlacement 1 None); ("a", mkPlacement 1 None)]
           "a/b/c" (mkPlacement 0 None) 1 "a/b" _ _ _ _))).
  - reflexivity.
  - reflexivity.
  - discriminate.
  - intros r p j Hin.
    destruct (not_reached_by "a/b" [("z", mkPlacement 0 None)]) with r p j as [H|H];
      [| done | done | discriminate].
    apply (bool_decide_unpack _). by vm_compute.
Defined.

Lemma uniqueRoutes_Forall config :
  Forall (fun c : list NavItem => NoDup (to <$> c)) (containersOf (sections config)) →
  uniqueRoutes config.
Proof.
  intros Hall p c Hc. rewrite Forall_forall in Hall.
  by apply Hall, (elem_of_containersOf config p).
Qed.

Lemma not_below route routes :
  Forall (fun r : string => route ∉ walk r) routes →
  ∀ r k, r ∈ routes → Nat.iter k parentRoute r ≠ route ∨ route = "".
Proof.
  intros Hall r k Hin. rewrite Forall_forall in Hall.
  destruct (decide (route = "")) as [|Hne]; [by right|]. left. intros Hk.
  apply (Hall _ Hin), elem_of_walk. right.
  apply elem_of_routeChain. split; [done | by exists k].
Qed.

Lemma placedNotSkipped_check fs cwd dir cache :
  match verdicts fs cwd dir cache with
  | Returned (vs, _) => bool_decide (Forall (placedNotSkipped vs) vs)
  | _ => true
  end = true →
  ∀ vs cacheAfter, verdicts fs cwd dir cache = Returned (vs, cacheAfter) →
                   Forall (placedNotSkipped vs) vs.
Proof. intros H vs c Hv. rewrite Hv in H. by apply bool_decide_eq_true in H. Qed.


(** The sample site: its config is read, and a run on it returns. *)
Lemma site_config :
  configs Sample.site !! Path.join [Sample.dir; "config.json"]
  = Some Sample.siteConfig.
Proof. vm_compute. reflexivity. Qed.

Lemma site_runs :
  ∃ log cache1 fs1,
    processDocsConfig Sample.cwd Sample.dir ∅ Sample.site = Returned (log, cache1, fs1).
Proof. exact (processDocsConfig_returns Sample.cwd Sample.dir ∅ Sample.site _ site_config). Qed.

Lemma site_report :
  reportOf (processDocsConfig Sample.cwd Sample.dir ∅ Sample.site)
  = Some {| added := ["Introduction -> guide/deep/x"];
            labelMismatch := [mkMismatch "guide/intro" "Intro" "Introduction"];
            removed := ["guide/s"];
            skipped := ["guide/s"];
            missingFrontmatter := ["notitle.md"];
            unmatched := [];
            missingFiles := ["guide/old"] |}.
Proof. vm_compute. reflexivity. Qed.

(** C1 fails as stated: on the sample site the report of the second run has
    four categories that are not empty. *)
Lemma second_run_report_not_empty :
  let run1 := processDocsConfig Sample.cwd Sample.dir ∅ Sample.site in
  let run2 := processDocsConfig Sample.cwd Sample.dir ∅ (fileSystemAfter Sample.site run1) in
  reportOf run2
  = Some {| added := [];
            labelMismatch := [mkMismatch "guide/intro" "Intro" "Introduction"];
            removed := [];
            skipped := ["guide/s"];
            missingFrontmatter := ["notitle.md"];
            unmatched := [];
            missingFiles := ["guide/old"] |}.
Proof. vm_compute. reflexivity. Qed.

Lemma second_run_changes_nothing_witness :
  ∃ log1 cache1 fs1 log2,
    processDocsConfig Sample.cwd Sample.dir ∅ Sample.site = Returned (log1, cache1, fs1)
    ∧ processDocsConfig Sample.cwd Sample.dir ∅ fs1 = Returned (log2, cache1, fs1)
    ∧ added log2 = [] ∧ removed log2 = []
    ∧ labelMismatch log2 = labelMismatch log1
    ∧ skipped log2 = skipped log1
    ∧ missingFrontmatter log2 = missingFrontmatter log1
    ∧ unmatched log2 = unmatched log1
    ∧ missingFiles log2 = missingFiles log1.
Proof.
  destruct site_runs as (log1 & cache1 & fs1 & Hrun).
  assert (∀ vs cacheAfter,
            verdicts Sample.site Sample.cwd Sample.dir ∅ = Returned (vs, cacheAfter) →
            Forall (placedNotSkipped vs) vs) as Hok.
  { apply placedNotSkipped_check. vm_compute. reflexivity. }
  destruct (second_run_changes_nothing _ _ _ _ _ _ _ Hrun Hok) as (log2 & H2).
  exists log1, cache1, fs1, log2. split; [exact Hrun | exact H2].
Defined.

Lemma container_routes_stay_unique_witness :
  (ensureNavItem [Sample.entry "A" "a"; Sample.entry "B" "b"] (Sample.entry "X" "a")
                 emptyLog).1
  = [Sample.entry "A" "a"; Sample.entry "B" "b"]
  ∧ ∃ config',
      syncRuns [mkRunEnv Sample.site Sample.cwd Sample.dir ∅;
                mkRunEnv Sample.nested Sample.cwd Sample.dir ∅]
               (mkDocsConfig JNull
                  [mkNavSection "Guide" [Sample.entry "B" "a/b"; Sample.entry "Old" "guide/old"]
                                None] None [])
      = Returned config'
      ∧ uniqueRoutes config'.
Proof.
  destruct container_routes_stay_unique as [Hensure Hruns]. split.
  - destruct (Hensure [Sample.entry "A" "a"; Sample.entry "B" "b"] (Sample.entry "X" "a")
                      emptyLog) as (_ & Hexisting & _).
    + apply (bool_decide_unpack _). vm_compute. exact I.
    + destruct (Hexisting (Sample.entry "A" "a")) as (Hsame & _).
      * left.
      * reflexivity.
      * exact Hsame.
  - apply Hruns. apply uniqueRoutes_Forall.
    apply (bool_decide_unpack _). vm_compute. exact I.
Defined.

Lemma readDocInfo_terminates_witness :
  ∃ cache',
    readDocInfo Sample.cyclic Sample.cwd "/repo/docs/r/a.md" Sample.dir
                {["/repo/docs/r/b.md"]} ∅
    = Returned (Some (mkFrontmatterInfo None None (Some "./b.md")), cache').
Proof.
  destruct (readDocInfo_terminates Sample.cyclic Sample.cwd "/repo/docs/r/a.md" Sample.dir
              {["/repo/docs/r/b.md"]} ∅) as (info & cache' & Hret & _ & Hcut).
  exists cache'. rewrite Hret. f_equal. f_equal.
  apply (Hcut (Sample.document ["ref: ./b.md"] "") "ref: ./b.md" "./b.md" "/repo/docs/r/b.md").
  - vm_compute. reflexivity.
  - vm_compute. reflexivity.
  - vm_compute. reflexivity.
  - vm_compute. reflexivity.
  - vm_compute. reflexivity.
  - apply (bool_decide_unpack _). vm_compute. exact I.
Defined.

(** Two pages that refer to each other: the chain is cut, and the first
    page has the [skip] of the second. *)
Example readDocInfo_cyclic :
  (fun r => match r with Returned (info, _) => info | _ => None end)
    (readDocInfo Sample.cyclic Sample.cwd "/repo/docs/r/a.md" Sample.dir ∅ ∅)
  = Some (mkFrontmatterInfo None (Some true) (Some "./b.md")).
Proof. vm_compute. reflexivity. Qed.

Lemma no_file_at_check fs cwd dir route :
  forallb (fun f => String.eqb f (Path.join [dir; "config.json"])
                    || negb (String.eqb (routeFromFile cwd dir f) route))
          (listContentFiles fs dir) = true →
  ∀ filePath, filePath ∈ listContentFiles fs dir →
              filePath ≠ Path.join [dir; "config.json"] →
              routeFromFile cwd dir filePath ≠ route.
Proof.
  rewrite forallb_forall. intros H f Hin Hne Hr.
  specialize (H f (proj1 (list_elem_of_In _ _) Hin)).
  apply orb_true_iff in H as [H|H].
  - by apply String.eqb_eq in H.
  - apply negb_true_iff, String.eqb_neq in H. done.
Qed.

(** C3 fails as stated: the config has [a/b] in its first section and no
    entry at [a/b/c], and the new file at [a/b/c] is placed in the second
    section, which has [a/b/c/d]. *)
Lemma new_file_goes_to_descendant_container :
  containerOf Sample.nestedConfig (mkPlacement 0 None) = Some [Sample.entry "B" "a/b"]
  ∧ ("a/b/c" ∉ routesOf Sample.nestedConfig)
  ∧ findPlacement "a/b/c" (buildPlacementIndex Sample.nestedConfig)
    = Some (mkPlacement 1 None)
  ∧ configAfter Sample.dir Sample.nested
      (processDocsConfig Sample.cwd Sample.dir ∅ Sample.nested)
    = Some (mkDocsConfig JNull
              [ mkNavSection "Guide" [Sample.entry "B" "a/b"] None;
                mkNavSection "Deep" [Sample.entry "D" "a/b/c/d"; Sample.entry "C" "a/b/c"]
                             None ]
              None []).
Proof.
  split; [reflexivity|]. split; [apply (bool_decide_unpack _); vm_compute; exact I|].
  split; vm_compute; reflexivity.
Qed.

Lemma flat_read :
  ∃ cache1,
    readDocInfo Sample.flat Sample.cwd "/repo/docs/r/a/b/c.md" Sample.dir ∅ ∅
    = Returned (Some (mkFrontmatterInfo (Some "C") None None), cache1).
Proof. eexists. vm_compute. reflexivity. Qed.

Lemma ancestor_placement_witness :
  findPlacement "a/b/c" (buildPlacementIndex Sample.flatConfig) = Some (mkPlacement 0 None)
  ∧ ∃ cache1,
      processFile Sample.flat Sample.cwd Sample.dir Sample.configPath
        (buildPlacementIndex Sample.flatConfig)
        (mkSyncState Sample.flatConfig emptyLog ∅ ∅ ∅) "/repo/docs/r/a/b/c.md"
      = Returned
          (mkSyncState
             (setContainer Sample.flatConfig (mkPlacement 0 None)
                ([Sample.entry "B" "a/b"] ++ [mkNavItem (Js.trim "C") "a/b/c" None]))
             (logAdded (Js.trim "C" +:+ " -> " +:+ "a/b/c") emptyLog)
             ∅ ({["a/b/c"]} ∪ ∅) cache1).
Proof.
  destruct (ancestor_placement Sample.flatConfig (mkPlacement 0 None) "a/b/c"
              [] [("z", mkPlacement 1 None)]) as [Hfind Hstep].
  - vm_compute. discriminate.
  - vm_compute. reflexivity.
  - apply (bool_decide_unpack _). vm_compute. exact I.
  - intros r k Hin.
    destruct (not_below "a/b/c" (routesOf Sample.flatConfig)) with r k as [H|H];
      [apply (bool_decide_unpack _); vm_compute; exact I | exact Hin | exact H
       | discriminate H].
  - split; [exact Hfind|].
    destruct flat_read as [cache1 Hread]. exists cache1.
    apply (Hstep Sample.flat Sample.cwd Sample.dir Sample.configPath
             (mkSyncState Sample.flatConfig emptyLog ∅ ∅ ∅) "/repo/docs/r/a/b/c.md"
             (mkFrontmatterInfo (Some "C") None None) "C" cache1 [Sample.entry "B" "a/b"]).
    + discriminate.
    + vm_compute. reflexivity.
    + vm_compute. reflexivity.
    + vm_compute. reflexivity.
    + exact Hread.
    + reflexivity.
    + discriminate.
    + discriminate.
    + reflexivity.
    + apply (bool_decide_unpack _). vm_compute. exact I.
Defined.

(** C4 fails as stated: the page has a resolved skip of true and an entry,
    and the run neither removes the entry nor logs a removal; the page has
    no title and is logged under [missingFrontmatter]. *)
Lemma untitled_skip_entry_is_kept :
  (fun r => match r with Returned (info, _) => info | _ => None end)
    (readDocInfo Sample.untitledSkip Sample.cwd "/repo/docs/r/a.md" Sample.dir ∅ ∅)
  = Some (mkFrontmatterInfo None (Some true) None)
  ∧ reportOf (processDocsConfig Sample.cwd Sample.dir ∅ Sample.untitledSkip)
    = Some {| added := []; labelMismatch := []; removed := []; skipped := [];
              missingFrontmatter := ["a.md"]; unmatched := []; missingFiles := [] |}
  ∧ configAfter Sample.dir Sample.untitledSkip
      (processDocsConfig Sample.cwd Sample.dir ∅ Sample.untitledSkip)
    = Some Sample.untitledSkipConfig.
Proof. split; [|split]; vm_compute; reflexivity. Qed.

Lemma skip_eligible_entries_pruned_witness :
  ∃ log cache1 fs1 config1 vs,
    processDocsConfig Sample.cwd Sample.dir ∅ Sample.site = Returned (log, cache1, fs1)
    ∧ configs fs1 !! Path.join [Sample.dir; "config.json"] = Some config1
    ∧ verdicts Sample.site Sample.cwd Sample.dir ∅ = Returned (vs, cache1)
    ∧ ∀ p c item, containerOf config1 p = Some c → item ∈ c → to item ∉ skipRoutesOf vs.
Proof.
  destruct site_runs as (log & cache1 & fs1 & Hrun).
  destruct (skip_eligible_entries_pruned _ _ _ _ _ _ _ Hrun)
    as (config & config1 & vs & scanned & _ & Hc1 & Hv & _ & _ & _ & _ & Hnone & _).
  exists log, cache1, fs1, config1, vs.
  split; [exact Hrun|]. split; [exact Hc1|]. split; [exact Hv | exact Hnone].
Defined.

Lemma ref_inherits_title_and_skip_witness :
  ∃ info cache1,
    readDocInfo Sample.referring Sample.cwd "/repo/docs/r/g/page.md" Sample.dir ∅ ∅
    = Returned (Some info, cache1)
    ∧ title info = Some "Foo"
    ∧ skip info = Some true.
Proof.
  destruct (ref_inherits_title_and_skip Sample.referring Sample.cwd Sample.dir
              "/repo/docs/r/g/page.md" ∅
              (Sample.document ["ref: ./other.md"] "")
              (Sample.document ["title: Foo"; "skip: true"] "")
              (mkFrontmatterInfo (Some "Foo") (Some true) None) "Foo")
    as (info & cache1 & Hread & Htitle & Hskip).
  - vm_compute. reflexivity.
  - vm_compute. reflexivity.
  - vm_compute. reflexivity.
  - vm_compute. reflexivity.
  - reflexivity.
  - discriminate.
  - apply lookup_empty.
  - left. apply lookup_empty.
  - exists info, cache1. split; [exact Hread|]. split; [exact Htitle|].
    exact (proj1 (Hskip eq_refl)).
Defined.

Lemma missing_file_reported_and_kept_witness :
  ∃ log cache1 fs1 config1,
    processDocsConfig Sample.cwd Sample.dir ∅ Sample.site = Returned (log, cache1, fs1)
    ∧ configs fs1 !! Path.join [Sample.dir; "config.json"] = Some config1
    ∧ "guide/old" ∈ missingFiles log
    ∧ ∃ c1, containerOf config1 (mkPlacement 0 None) = Some c1
            ∧ Sample.entry "Old" "guide/old" ∈ c1.
Proof.
  destruct site_runs as (log & cache1 & fs1 & Hrun).
  destruct (missing_file_reported_and_kept _ _ _ _ _ _ _ Hrun)
    as (config & config1 & vs & Hc & Hc1 & _ & _ & Hentries).
  rewrite site_config in Hc. injection Hc as <-.
  destruct (Hentries (mkPlacement 0 None)
              [Sample.entry "Old" "guide/old"; mkNavItem "S" "guide/s" (Some "new")]
              (Sample.entry "Old" "guide/old")) as (_ & _ & Hmissing & Hkept).
  - reflexivity.
  - left.
  - apply no_file_at_check. vm_compute. reflexivity.
  - exists log, cache1, fs1, config1.
    split; [exact Hrun|]. split; [exact Hc1|]. split; [exact Hmissing | exact Hkept].
Defined.

(** ** An empty title *)








(** ** The config file as a text *)

(** *** [JSON.parse] *)



(** *** The keys of an object *)





















#[local] Instance indexLe_transitive : Transitive OnDisk.indexLe.
Proof. intros a b c. unfold OnDisk.indexLe. lia. Qed.

#[local] Instance indexLe_total : Total OnDisk.indexLe.
Proof. intros a b. unfold OnDisk.indexLe. lia. Qed.





(** *** The values of an object *)



Lemma member_Some key v obj :
  NoDup obj.*1 → OnDisk.member key obj = Some v ↔ (key, v) ∈ obj.
Proof.
  unfold OnDisk.member. induction obj as [|[k w] obj IH]; simpl; intros Hnd.
  - split; [done | by intros ?%elem_of_nil].
  - apply NoDup_cons in Hnd as [Hk Hnd]. rewrite elem_of_cons.
    destruct (String.eqb_spec k key) as [->|Hne]; simpl.
    + split; [intros [= ->]; by left|].
      intros [[= ->]|Hin]; [done|]. exfalso. apply Hk.
      apply list_elem_of_fmap. by exists (key, v).
    + rewrite (IH Hnd). split; [by right|]. by intros [[= ? ?]|?].
Qed.







(** *** A pass, from the text read to the text written *)





(** *** Parsing what has been written *)















(** *** The typed value of what has been written *)













Lemma filter_setValue (keep : string → bool) key v obj :
  keep key = false →
  List.filter (fun kv => keep kv.1) (OnDisk.setValue key v obj)
  = List.filter (fun kv => keep kv.1) obj.
Proof.
  intros Hkey. induction obj as [|[k w] obj IH]; [done|]. cbn [OnDisk.setValue].
  destruct (String.eqb_spec k key) as [->|Hne]; simpl.
  - by rewrite Hkey.
  - by rewrite IH.
Qed.








(** * Further properties of the code *)

(** *** Strings *)

Lemma append_nil t : "" +:+ t = t.
Proof. reflexivity. Qed.

Lemma append_cons c s t : String c s +:+ t = String c (s +:+ t).
Proof. reflexivity. Qed.

Ltac unfold_append := rewrite ?append_cons, ?append_nil.

Lemma append_assoc s t u : (s +:+ t) +:+ u = s +:+ (t +:+ u).
Proof. induction s as [|c s IH]; unfold_append; congruence. Qed.

Lemma append_empty_r s : s +:+ "" = s.
Proof. induction s; unfold_append; congruence. Qed.

Lemma rev_app_append s t : String.rev_app s t = String.rev s +:+ t.
Proof.
  unfold String.rev. revert t.
  induction s as [|c s IH]; intros t; simpl; [done|].
  rewrite (IH (String c "")), (IH (String c t)).
  by rewrite append_assoc.
Qed.

Lemma rev_cons c s : String.rev (String c s) = String.rev s +:+ String c "".
Proof. unfold String.rev at 1. simpl. apply rev_app_append. Qed.

Lemma rev_append s t : String.rev (s +:+ t) = String.rev t +:+ String.rev s.
Proof.
  induction s as [|c s IH]; unfold_append.
  - by rewrite append_empty_r.
  - by rewrite !rev_cons, IH, append_assoc.
Qed.

Lemma rev_rev s : String.rev (String.rev s) = s.
Proof.
  induction s as [|c s IH]; [done|].
  by rewrite rev_cons, rev_append, IH.
Qed.

Lemma strLength_append s t :
  String.length (s +:+ t) = (String.length s + String.length t)%nat.
Proof. induction s; unfold_append; simpl; congruence. Qed.

Lemma strLength_rev s : String.length (String.rev s) = String.length s.
Proof.
  induction s as [|c s IH]; [done|].
  rewrite rev_cons, strLength_append, IH. simpl. lia.
Qed.

Lemma startsWith_append p s : Js.startsWith p (p +:+ s) = true.
Proof.
  induction p as [|c p IH]; unfold_append; simpl; [by destruct s|].
  by rewrite Ascii.eqb_refl, IH.
Qed.

Lemma endsWith_append p s : Js.endsWith p (s +:+ p) = true.
Proof. unfold Js.endsWith. rewrite rev_append. apply startsWith_append. Qed.

Lemma take_append s t : Js.take (String.length s) (s +:+ t) = s.
Proof. induction s; unfold_append; simpl; [by destruct t|congruence]. Qed.

Lemma drop_append s t : Js.drop (String.length s) (s +:+ t) = t.
Proof. induction s; unfold_append; simpl; [by destruct t|congruence]. Qed.

(** *** [parentRoute] *)

Lemma indexOfFrom_none c s i : 0 <= i → Js.indexOfFrom c s i = -1 →
  ∀ t found, Js.lastIndexOfFrom c s t found = found.
Proof.
  revert i; induction s as [|d s IH]; intros i Hi H t found; simpl in *; [done|].
  destruct (Ascii.eqb d c); [lia|]. apply (IH (i + 1)); [lia|done].
Qed.

Lemma lastIndexOfFrom_append c s1 s2 i found :
  (∀ t f, Js.lastIndexOfFrom c s2 t f = f) →
  Js.lastIndexOfFrom c (s1 +:+ String c s2) i found = i + Js.strLen s1.
Proof.
  intros H2. unfold Js.strLen.
  revert i found; induction s1 as [|d s1 IH]; intros i found; unfold_append; simpl.
  - rewrite Ascii.eqb_refl, H2. lia.
  - rewrite IH. lia.
Qed.

Lemma slice_range s b e :
  0 <= b <= e → e <= Js.strLen s →
  Js.slice s b e = Js.take (Z.to_nat (e - b)) (Js.drop (Z.to_nat b) s).
Proof.
  intros Hb He. unfold Js.slice, Js.clampPos.
  rewrite (proj2 (Z.ltb_ge b 0)), (proj2 (Z.ltb_ge e 0)) by lia.
  by rewrite !Z.min_l by lia.
Qed.

Lemma slice_prefix s t : Js.slice (s +:+ t) 0 (Js.strLen s) = s.
Proof.
  rewrite slice_range.
  - rewrite Z.sub_0_r. unfold Js.strLen. rewrite Nat2Z.id. simpl. apply take_append.
  - unfold Js.strLen. lia.
  - unfold Js.strLen. rewrite strLength_append. lia.
Qed.

(** X1.  The parent of a route is what stands before its last slash: for a
    name without a slash below a directory it is the directory, whatever
    slashes the directory has; a route without a slash has the empty
    parent, where the walks over the ancestors end. *)
Theorem parentRoute_splits_at_last_slash (dir leaf : string) :
  Js.indexOf "/" leaf = -1 →
  parentRoute (dir +:+ "/" +:+ leaf) = dir ∧ parentRoute leaf = "".
Proof.
  intros Hleaf.
  pose proof (indexOfFrom_none "/" leaf 0 ltac:(lia) Hleaf) as Hlast.
  split.
  - unfold parentRoute, Js.lastIndexOf.
    change ("/" +:+ leaf) with (String "/" leaf).
    rewrite lastIndexOfFrom_append by done.
    rewrite (proj2 (Z.eqb_neq _ _)) by (unfold Js.strLen; lia).
    rewrite Z.add_0_l. apply slice_prefix.
  - unfold parentRoute, Js.lastIndexOf. by rewrite Hlast.
Qed.

(** *** [stripQuotes] *)

Lemma slice_inner c d s :
  Js.slice (String c (s +:+ String d "")) 1 (-1) = s.
Proof.
  unfold Js.slice, Js.clampPos, Js.strLen. simpl String.length.
  rewrite strLength_append. simpl String.length.
  rewrite (proj2 (Z.ltb_ge 1 0)), (proj2 (Z.ltb_lt (-1) 0)) by lia.
  rewrite Z.min_l, Z.max_l by lia.
  change (Z.to_nat 1) with 1%nat. simpl Js.drop.
  replace (Z.to_nat _) with (String.length s) by lia.
  apply take_append.
Qed.

Lemma endsWith_last q c t :
  Js.endsWith (String q "") (t +:+ String c "") = Ascii.eqb q c.
Proof.
  unfold Js.endsWith. rewrite rev_append. change (String.rev (String c "")) with (String c "").
  change (String.rev (String q "")) with (String q ""). unfold_append. simpl.
  by rewrite andb_true_r.
Qed.

Lemma stripQuotes_ends a b s :
  stripQuotes (String a (s +:+ String b ""))
  = if Ascii.eqb (ascii_of_nat 34) a && Ascii.eqb (ascii_of_nat 34) b
       || Ascii.eqb "'" a && Ascii.eqb "'" b
    then s else String a (s +:+ String b "").
Proof.
  unfold stripQuotes, doubleQuote.
  rewrite <- (append_cons a s), !endsWith_last. rewrite append_cons.
  simpl Js.startsWith. rewrite !andb_true_r.
  destruct (_ || _); [apply slice_inner|done].
Qed.

(** X2.  A value between two double quotes or two single quotes loses them,
    whatever is between (quotes included); a lone quote character is taken
    for a pair and gives the empty string; with a double quote at one end
    and a single quote at the other, the value is left as it is. *)
Theorem stripQuotes_removes_one_pair (s : string) :
  stripQuotes (doubleQuote +:+ s +:+ doubleQuote) = s
  ∧ stripQuotes ("'" +:+ s +:+ "'") = s
  ∧ stripQuotes doubleQuote = ""
  ∧ stripQuotes "'" = ""
  ∧ stripQuotes (doubleQuote +:+ s +:+ "'") = doubleQuote +:+ s +:+ "'"
  ∧ stripQuotes ("'" +:+ s +:+ doubleQuote) = "'" +:+ s +:+ doubleQuote.
Proof.
  split; [|split; [|split; [|split; [|split]]]].
  - apply (stripQuotes_ends (ascii_of_nat 34) (ascii_of_nat 34)).
  - apply (stripQuotes_ends "'" "'").
  - reflexivity.
  - reflexivity.
  - apply (stripQuotes_ends (ascii_of_nat 34) "'").
  - apply (stripQuotes_ends "'" (ascii_of_nat 34)).
Qed.

(** *** [resolveRefPath] *)

Lemma beforeSpaceOrHash_cut r c rest :
  beforeSpaceOrHash r = r →
  Js.isSpace c || Ascii.eqb c "#" = true →
  beforeSpaceOrHash (r +:+ String c rest) = r.
Proof.
  intros Hr Hc. induction r as [|d r IH]; unfold_append; simpl in *.
  - by rewrite Hc.
  - destruct (Js.isSpace d || Ascii.eqb d "#"); [done|].
    injection Hr as Hr. by rewrite IH.
Qed.

(** X3.  What follows the first white space or [#] of a [ref] value plays no
    part: the value resolves as its part before it does.  A value that
    starts with white space or [#], like the empty value, resolves to
    nothing. *)
Theorem resolveRefPath_ignores_fragment
    (cwd sourceFile docsDir r : string) (c : ascii) (rest : string) :
  beforeSpaceOrHash r = r →
  Js.isSpace c || Ascii.eqb c "#" = true →
  resolveRefPath cwd sourceFile (r +:+ String c rest) docsDir
  = resolveRefPath cwd sourceFile r docsDir
  ∧ resolveRefPath cwd sourceFile (String c rest) docsDir = None
  ∧ resolveRefPath cwd sourceFile "" docsDir = None.
Proof.
  intros Hr Hc. split; [|split].
  - unfold resolveRefPath. by rewrite beforeSpaceOrHash_cut, Hr.
  - unfold resolveRefPath. simpl. by rewrite Hc.
  - reflexivity.
Qed.

(** *** [FRONTMATTER_REGEX] *)

Lemma startsWith_dashes_before_newline s t :
  Js.startsWith "---" (s +:+ String newline t) = Js.startsWith "---" s.
Proof.
  assert (Ascii.eqb "-" newline = false) as Hnl by reflexivity.
  destruct s as [|a [|b [|c s]]]; unfold_append; cbn [Js.startsWith];
    rewrite ?Hnl, ?andb_false_r; try done.
Qed.

Lemma untilClosingLine_closed block rest :
  untilClosingLine block = None →
  untilClosingLine (block +:+ String newline ("---" +:+ rest)) = Some block.
Proof.
  induction block as [|c block IH]; intros Hnone; [rewrite append_nil|rewrite append_cons].
  - cbn [untilClosingLine]. by rewrite Ascii.eqb_refl, startsWith_append.
  - cbn [untilClosingLine] in *. rewrite startsWith_dashes_before_newline.
    destruct (Ascii.eqb c newline && Js.startsWith "---" block); [done|].
    destruct (untilClosingLine block); [done|]. by rewrite IH.
Qed.

Lemma afterOpeningLine_pad pad s :
  (∀ c, c ∈ list_ascii_of_string pad → Js.isSpace c = true ∧ c ≠ newline) →
  afterOpeningLine (pad +:+ s) = afterOpeningLine s.
Proof.
  induction pad as [|c pad IH]; intros Hpad; unfold_append; [done|].
  cbn [afterOpeningLine]. destruct (Hpad c) as [-> Hnl]; [simpl; left|].
  rewrite (proj2 (Ascii.eqb_neq _ _) Hnl). simpl.
  apply IH. intros d Hd. apply Hpad. simpl. by right.
Qed.

Lemma afterOpeningLine_text c s : Js.isSpace c = false → afterOpeningLine (String c s) = [].
Proof. intros H. cbn [afterOpeningLine]. by rewrite H. Qed.

(** X4.  A document that opens with three dashes, white space up to the end of
    the line, a block that starts with a character other than white space
    and has no line starting with three dashes, and a line starting with
    three dashes: the block is what the expression captures. *)
Theorem matchFrontmatter_gives_block (pad : string) (c : ascii) (block rest : string) :
  (∀ d, d ∈ list_ascii_of_string pad → Js.isSpace d = true ∧ d ≠ newline) →
  Js.isSpace c = false →
  untilClosingLine (String c block) = None →
  matchFrontmatter ("---" +:+ pad +:+ String newline (String c block)
                      +:+ String newline ("---" +:+ rest))
  = Some (String c block).
Proof.
  intros Hpad Hc Hblock. unfold matchFrontmatter.
  rewrite startsWith_append.
  change 3%nat with (String.length "---"). rewrite drop_append.
  rewrite afterOpeningLine_pad by done.
  pose proof (untilClosingLine_closed (String c block) rest Hblock) as Hclosed.
  set (closing := String newline ("---" +:+ rest)) in *.
  rewrite append_cons in *. cbn [afterOpeningLine].
  change (Js.isSpace newline) with true. rewrite Ascii.eqb_refl.
  rewrite append_cons. rewrite afterOpeningLine_text by done.
  cbn [rev List.rev app firstSome]. by rewrite Hclosed.
Qed.

(** *** The cache of [readDocInfo] *)

Lemma readDocInfoFuel_cache fuel fs cwd filePath docsDir stack cache result cache' :
  readDocInfoFuel fuel fs cwd filePath docsDir stack cache = Returned (result, cache') →
  cache ⊆ cache' ∧ cache' !! Path.resolve cwd [filePath] = Some result.
Proof.
  revert filePath stack cache result cache'.
  induction fuel as [|fuel IH]; intros filePath stack cache result cache'; [done|].
  rewrite readDocInfoFuel_S. cbv zeta.
  set (key := Path.resolve cwd [filePath]).
  assert (∀ v, cache !! key = None →
            cache ⊆ <[key := v]> cache ∧ <[key := v]> cache !! key = Some v) as Hfresh.
  { intros v Hkey. split; [by apply insert_subseteq | by rewrite lookup_insert_eq]. }
  destruct (cache !! key) as [cached|] eqn:Hkey.
  { intros [= <- <-]. done. }
  destruct (readFile fs filePath) as [raw|]; [|intros [= <- <-]; by apply Hfresh].
  destruct (matchFrontmatter raw) as [block|]; [|intros [= <- <-]; by apply Hfresh].
  destruct (ref (parseBlock block)) as [refValue|]; [|intros [= <- <-]; by apply Hfresh].
  destruct (negb _ && _); [|intros [= <- <-]; by apply Hfresh].
  destruct (resolveRefPath _ _ _ _) as [refPath|]; [|intros [= <- <-]; by apply Hfresh].
  destruct (Js.truthy refPath && _); [|intros [= <- <-]; by apply Hfresh].
  intros ([referenced cache1] & Hrec & [= <- <-])%bindRun_Returned.
  destruct (IH _ _ _ _ _ Hrec) as [Hsub _].
  split; [|by rewrite lookup_insert_eq].
  apply map_subseteq_spec. intros k v Hk.
  destruct (decide (k = key)) as [->|Hne]; [congruence|].
  rewrite lookup_insert_ne by done.
  by apply (lookup_weaken cache).
Qed.

(** X5.  [readDocInfo] memoizes.  A call that returns leaves its result in the
    cache under the resolved path of the file, and leaves every entry the
    cache had as it was.  From then on a call for the file returns that
    result and does not touch the cache, whatever the file system has
    become, whatever the directory and the stack given. *)
Theorem readDocInfo_memoizes
    (fs : FileSystem) (cwd filePath docsDir : string) (stack : gset string)
    (cache : Cache) (result : option FrontmatterInfo) (cache' : Cache) :
  readDocInfo fs cwd filePath docsDir stack cache = Returned (result, cache') →
  cache ⊆ cache'
  ∧ cache' !! Path.resolve cwd [filePath] = Some result
  ∧ ∀ fs' docsDir' stack' later,
      cache' ⊆ later →
      readDocInfo fs' cwd filePath docsDir' stack' later = Returned (result, later).
Proof.
  intros Hread. destruct (readDocInfoFuel_cache _ _ _ _ _ _ _ _ _ Hread) as [Hsub Hkey].
  split; [done|]. split; [done|].
  intros fs' docsDir' stack' later Hlater. unfold readDocInfo.
  change (2 + size (docs fs'))%nat with (S (1 + size (docs fs'))).
  rewrite readDocInfoFuel_S. cbv zeta.
  by rewrite (lookup_weaken _ _ _ _ Hkey Hlater).
Qed.

(** *** Exact routes and routes without a placement *)

(** X6.  [byRoute] keeps the last registration of a route.  When several
    containers hold an entry with the route, the index gives the last of
    them in the order of the passes over the config, and [findPlacement]
    gives it at once for the route, whatever [byDir] holds. *)
Theorem byRoute_last_registrant_wins
    (config : DocsConfig) (before after : list (string * Placement))
    (route : string) (placement : Placement) :
  registrations config = before ++ (route, placement) :: after →
  route ∉ after.*1 →
  byRoute (buildPlacementIndex config) !! route = Some placement
  ∧ findPlacement route (buildPlacementIndex config) = Some placement.
Proof.
  intros Hregs Hafter.
  assert (byRoute (buildPlacementIndex config) !! route = Some placement) as Hby.
  { rewrite buildPlacementIndex_registrations, byRoute_registerAll, Hregs.
    rewrite lastExact_app. simpl.
    rewrite (proj2 (lastExact_None route after) Hafter).
    by rewrite decide_True. }
  split; [done|].
  unfold findPlacement. simpl. unfold lookupPlacement at 1. by rewrite Hby.
Qed.

Lemma elem_of_walk_iter x route :
  route ≠ "" → x ∈ walk route ↔ x ≠ "" ∧ ∃ k, Nat.iter k parentRoute route = x.
Proof.
  intros Hne. rewrite elem_of_walk, elem_of_routeChain. split.
  - intros [->|H]; [|done]. split; [done|]. by exists 0%nat.
  - intros H. by right.
Qed.

Lemma iter_parentRoute_empty k : Nat.iter k parentRoute "" = "".
Proof. induction k as [|k IH]; simpl; [done|]. by rewrite IH. Qed.

(** X7.  A file gets no placement exactly when its route and the route of an
    entry never meet on the way up: no entry of the config has the route of
    the file, or a route above it or below it, or a route with which it
    has a non-empty ancestor in common. *)
Theorem findPlacement_none_iff_no_common_ancestor (config : DocsConfig) (route : string) :
  route ≠ "" →
  findPlacement route (buildPlacementIndex config) = None
  ↔ ∀ r j k, r ∈ routesOf config →
             Nat.iter j parentRoute route = Nat.iter k parentRoute r →
             Nat.iter j parentRoute route = "".
Proof.
  intros Hne. rewrite findPlacement_build_None. split.
  - intros H r j k Hr Heq.
    destruct (decide (Nat.iter j parentRoute route = "")) as [|Hx]; [done|].
    exfalso. apply (H (Nat.iter j parentRoute route) r); [|done|].
    + apply elem_of_walk_iter; [done|]. split; [done|]. by exists j.
    + destruct (decide (r = "")) as [->|Hr'].
      { rewrite iter_parentRoute_empty in Heq. done. }
      apply elem_of_walk_iter; [done|]. split; [done|]. by exists k.
  - intros H x r [Hx [j Hj]]%elem_of_walk_iter Hr Hxr; [|done].
    destruct (decide (r = "")) as [->|Hr'].
    + rewrite walk_empty in Hxr. apply list_elem_of_singleton in Hxr. done.
    + apply elem_of_walk_iter in Hxr as [_ [k Hk]]; [|done].
      apply Hx. rewrite <- Hj. apply (H r j k Hr). congruence.
Qed.

(** *** The report *)

Lemma pushUnique_NoDup l value : NoDup l → NoDup (pushUnique l value).
Proof.
  intros Hl. unfold pushUnique. case_decide; [done|].
  apply NoDup_app. split; [done|]. split; [|apply NoDup_singleton].
  intros x Hx ->%list_elem_of_singleton. done.
Qed.

Lemma foldl_pushUnique_NoDup l values : NoDup l → NoDup (foldl pushUnique l values).
Proof.
  revert l; induction values as [|v values IH]; intros l Hl; simpl; [done|].
  by apply IH, pushUnique_NoDup.
Qed.

Lemma elem_of_pushUnique x l value : x ∈ pushUnique l value ↔ x ∈ l ∨ x = value.
Proof. unfold pushUnique. case_decide; set_solver. Qed.

(** What the loop over the files makes of [log.unmatched]. *)
Lemma applyVerdict_unmatched index st v st1 :
  applyVerdict index st v = Returned st1 →
  unmatched (st_log st1)
  = match v with
    | VPlace route _ =>
      match findPlacement route index with
      | None => pushUnique (unmatched (st_log st)) route
      | Some _ => unmatched (st_log st)
      end
    | _ => unmatched (st_log st)
    end.
Proof.
  destruct v as [| | | |route t]; simpl; try (by intros [= <-]).
  destruct (findPlacement route index) as [p|]; [|by intros [= <-]].
  destruct (containerOf (st_config st) p) as [c|]; [|done].
  pose proof (removed_ensureNavItem c (mkNavItem (Js.trim t) route None) (st_log st))
    as (_ & _ & _ & _ & Hu).
  destruct (ensureNavItem c _ (st_log st)) as [c1 log1]. by intros [= <-].
Qed.

Lemma applyVerdicts_unmatched index st vs st1 :
  applyVerdicts index st vs = Returned st1 →
  (NoDup (unmatched (st_log st)) → NoDup (unmatched (st_log st1)))
  ∧ ∀ route, route ∈ unmatched (st_log st1)
             ↔ route ∈ unmatched (st_log st)
               ∨ ∃ infoTitle, VPlace route infoTitle ∈ vs
                              ∧ findPlacement route index = None.
Proof.
  revert st; induction vs as [|v vs IH]; intros st; simpl.
  - intros [= <-]. split; [done|]. intros route. split; [by left|].
    intros [?|(? & H%elem_of_nil & _)]; done.
  - intros (st0 & Hv & Hrest)%bindRun_Returned.
    destruct (IH _ Hrest) as [Hnd Hin]. apply applyVerdict_unmatched in Hv.
    split.
    + intros H0. apply Hnd. rewrite Hv.
      destruct v as [| | | |r t]; try done.
      destruct (findPlacement r index); [done|]. by apply pushUnique_NoDup.
    + intros route. rewrite Hin, Hv. split.
      * intros [H|(t & Ht & Hf)]; [|right; exists t; split; [by right | done]].
        destruct v as [| | | |r t]; try (by left).
        destruct (findPlacement r index) eqn:Hf; [by left|].
        apply elem_of_pushUnique in H as [H| ->]; [by left|].
        right. exists t. split; [left | done].
      * intros [H|(t & [<-|Ht]%elem_of_cons & Hf)].
        -- left. destruct v as [| | | |r t]; try done.
           destruct (findPlacement r index); [done|].
           apply elem_of_pushUnique. by left.
        -- left. rewrite Hf. apply elem_of_pushUnique. by right.
        -- right. by exists t.
Qed.

Lemma skippedAfter_NoDup l vs : NoDup l → NoDup (skippedAfter l vs).
Proof.
  unfold skippedAfter. revert l; induction vs as [|v vs IH]; intros l Hl; simpl; [done|].
  apply IH. destruct v; try done. by apply pushUnique_NoDup.
Qed.

Lemma missingFrontmatterAfter_NoDup l vs : NoDup l → NoDup (missingFrontmatterAfter l vs).
Proof.
  unfold missingFrontmatterAfter.
  revert l; induction vs as [|v vs IH]; intros l Hl; simpl; [done|].
  apply IH. destruct v; try done. by apply pushUnique_NoDup.
Qed.

(** X8.  The four lists of the report that are filled through [pushUnique] name
    nothing twice, whatever the files are: two files with the same route
    (such as [a.md] and [a.mdx]) are reported once, and so is a route
    that several containers hold. *)
Theorem report_lists_have_no_duplicates
    (cwd dir : string) (cache : Cache) (fs : FileSystem)
    (log : ChangeLog) (cache1 : Cache) (fs1 : FileSystem) :
  processDocsConfig cwd dir cache fs = Returned (log, cache1, fs1) →
  NoDup (skipped log) ∧ NoDup (missingFrontmatter log)
  ∧ NoDup (unmatched log) ∧ NoDup (missingFiles log).
Proof.
  intros (config & vs & stL & Hcfg & Hv & Hrun & -> & _)%processDocsConfig_spec.
  rewrite finishSync_spec. simpl.
  destruct (applyVerdicts_skipped_missing _ _ _ _ Hrun) as [-> ->].
  destruct (applyVerdicts_unmatched _ _ _ _ Hrun) as [Hnd _].
  split; [apply skippedAfter_NoDup, NoDup_nil_2|].
  split; [apply missingFrontmatterAfter_NoDup, NoDup_nil_2|].
  split; [apply Hnd, NoDup_nil_2|].
  destruct (reconcile_spec config vs) as (stL' & Hrun' & _ & _ & _ & _ & _ & _ & Hmiss).
  rewrite Hrun in Hrun'. injection Hrun' as <-. rewrite Hmiss.
  apply foldl_pushUnique_NoDup, NoDup_nil_2.
Qed.

(** X9.  [log.unmatched] holds the routes of the files to place for which the
    index gives no placement, and no other route.  The index is the one
    built from the config as read: entries appended during the loop do not
    give a placement to the files that come after. *)
Theorem unmatched_are_files_without_placement
    (cwd dir : string) (cache : Cache) (fs : FileSystem)
    (log : ChangeLog) (cache1 : Cache) (fs1 : FileSystem) :
  processDocsConfig cwd dir cache fs = Returned (log, cache1, fs1) →
  ∃ config vs,
    configs fs !! Path.join [dir; "config.json"] = Some config
    ∧ verdicts fs cwd dir cache = Returned (vs, cache1)
    ∧ ∀ route, route ∈ unmatched log
               ↔ ∃ infoTitle, VPlace route infoTitle ∈ vs
                   ∧ findPlacement route (buildPlacementIndex config) = None.
Proof.
  intros (config & vs & stL & Hcfg & Hv & Hrun & -> & _)%processDocsConfig_spec.
  exists config, vs. split; [done|]. split; [done|].
  intros route. rewrite finishSync_spec. simpl.
  destruct (applyVerdicts_unmatched _ _ _ _ Hrun) as [_ Hin].
  rewrite Hin. simpl. split; [|by right].
  intros [H%elem_of_nil|H]; done.
Qed.

Lemma containersOf_containerOf config c :
  c ∈ containersOf (sections config) → ∃ p, containerOf config p = Some c.
Proof.
  unfold containersOf. intros (section & Hc & Hs)%list_elem_of_bind.
  apply list_elem_of_lookup in Hs as [i Hi].
  unfold containersOfSection in Hc. apply elem_of_cons in Hc as [->|Hc].
  - exists (mkPlacement i None). unfold containerOf. simpl. by rewrite Hi.
  - apply list_elem_of_fmap in Hc as (fw & -> & Hfw).
    destruct (sec_frameworks section) as [fws|] eqn:Hfws; simpl in Hfw;
      [|by apply elem_of_nil in Hfw].
    apply list_elem_of_lookup in Hfw as [j Hj].
    exists (mkPlacement i (Some j)). unfold containerOf. simpl.
    rewrite Hi. simpl. rewrite Hfws. simpl. by rewrite Hj.
Qed.

(** X10.  [log.missingFiles] holds the routes of the entries of the config read
    that are the route of no content file scanned, and no other route: an
    entry is not reported when a file has its route, be it a readme, a
    draft, a skipped file or a file without a title. *)
Theorem missingFiles_are_entries_without_file
    (cwd dir : string) (cache : Cache) (fs : FileSystem)
    (log : ChangeLog) (cache1 : Cache) (fs1 : FileSystem) :
  processDocsConfig cwd dir cache fs = Returned (log, cache1, fs1) →
  ∃ config,
    configs fs !! Path.join [dir; "config.json"] = Some config
    ∧ ∀ route,
        route ∈ missingFiles log
        ↔ route ∈ routesOf config
          ∧ ∀ filePath, filePath ∈ listContentFiles fs dir →
                        filePath ≠ Path.join [dir; "config.json"] →
                        routeFromFile cwd dir filePath ≠ route.
Proof.
  intros (config & vs & stL & Hcfg & Hv & Hrun & -> & _)%processDocsConfig_spec.
  destruct (reconcile_spec config vs)
    as (stL' & Hrun' & _ & _ & Hc & Hskip & Hseen & _ & Hmiss).
  rewrite Hrun in Hrun'. injection Hrun' as <-.
  exists config. split; [done|]. intros route.
  pose proof (elem_of_seenRoutesOf _ _ _ _ _ _ _ _ route Hv) as Hfiles.
  pose proof (skipRoutesOf_seenRoutesOf vs) as Hsub.
  rewrite finishSync_spec. simpl. rewrite Hmiss, Hskip, Hseen.
  rewrite elem_of_foldl_pushUnique, elem_of_concat, elem_of_routesOf.
  split.
  - intros [H%elem_of_nil|(l & Hl & (c1 & -> & Hc1)%list_elem_of_fmap)]; [done|].
    unfold unbackedRoutes in Hl.
    apply list_elem_of_fmap in Hl as (item & -> & [[Hns Hnk] Hitem]%list_elem_of_filter).
    apply (containersOf_containerOf (prunedConfig (skipRoutesOf vs) (st_config stL)))
      in Hc1 as [p Hp].
    rewrite containerOf_prunedConfig, Hc in Hp.
    destruct (containerOf config p) as [c|] eqn:Hcp; [|done]. simpl in Hp.
    injection Hp as <-.
    apply list_elem_of_filter in Hitem as [_ Hitem].
    destruct (grownContainer_app (buildPlacementIndex config) p c vs) as (more & Hg & Hmore).
    rewrite Hg in Hitem. apply elem_of_app in Hitem as [Hitem|Hitem].
    + split.
      * exists p, c. split; [done|]. apply list_elem_of_fmap. by exists item.
      * intros f Hf Hne Hr. apply Hns, Hfiles. by exists f.
    + exfalso. destruct (Hmore _ Hitem) as (r & t & Hvs & -> & _). simpl in Hns.
      apply Hns. unfold seenRoutesOf. apply elem_of_union_list.
      exists {[r]}. split; [|set_solver].
      apply list_elem_of_fmap. by exists (VPlace r t).
  - intros [(p & c & Hp & (item & -> & Hitem)%list_elem_of_fmap) Hnone].
    assert (to item ∉ seenRoutesOf vs) as Hns.
    { intros (f & Hf & Hne & Hr)%Hfiles. by apply (Hnone f). }
    right.
    exists (unbackedRoutes (seenRoutesOf vs) (skipRoutesOf vs)
              (keepUnskipped (skipRoutesOf vs)
                 (grownContainer (buildPlacementIndex config) p c vs))).
    split.
    + unfold unbackedRoutes. apply list_elem_of_fmap. exists item. split; [done|].
      apply list_elem_of_filter. split; [set_solver|].
      apply list_elem_of_filter. split; [set_solver|].
      destruct (grownContainer_app (buildPlacementIndex config) p c vs) as (more & -> & _).
      apply elem_of_app. by left.
    + apply list_elem_of_fmap. eexists. split; [done|].
      apply (elem_of_containersOf (prunedConfig (skipRoutesOf vs) (st_config stL)) p).
      by rewrite containerOf_prunedConfig, Hc, Hp.
Qed.

Lemma applyVerdict_mismatch index st v st1 m :
  applyVerdict index st v = Returned st1 →
  m ∈ labelMismatch (st_log st1) →
  m ∈ labelMismatch (st_log st)
  ∨ (mm_existing m ≠ mm_incoming m
     ∧ (∃ infoTitle, v = VPlace (mm_to m) infoTitle ∧ mm_incoming m = Js.trim infoTitle)
     ∧ ∃ p c item, containerOf (st_config st1) p = Some c ∧ item ∈ c
                   ∧ to item = mm_to m ∧ label item = mm_existing m).
Proof.
  destruct v as [| | | |route t]; simpl; try (intros [= <-]; by left).
  destruct (findPlacement route index) as [p|]; [|intros [= <-]; by left].
  destruct (containerOf (st_config st) p) as [c|] eqn:Hc; [|done].
  pose proof (ensureNavItem_logs c (mkNavItem (Js.trim t) route None) (st_log st)) as [Hlm _].
  destruct (ensureNavItem c _ (st_log st)) as [c1 log1] eqn:He. simpl in Hlm.
  intros [= <-]. simpl. rewrite Hlm.
  intros [Hm|Hm]%elem_of_app; [by left|]. right.
  unfold mismatchOf in Hm. simpl in Hm.
  destruct (List.find _ c) as [existing|] eqn:Hfind; [|by apply elem_of_nil in Hm].
  destruct (String.eqb_spec (label existing) (Js.trim t)) as [|Hne]; simpl in Hm;
    [by apply elem_of_nil in Hm|].
  apply list_elem_of_singleton in Hm as ->. simpl.
  apply find_route_Some in Hfind as [Hin Hto].
  split; [done|]. split; [by exists t|].
  exists p, c, existing.
  assert (c1 = c) as ->.
  { replace c1 with (ensureNavItem c (mkNavItem (Js.trim t) route None) (st_log st)).1
      by (by rewrite He).
    apply ensureNavItem_existing. simpl. apply list_elem_of_fmap. by exists existing. }
  by rewrite containerOf_setContainer_eq by (by eexists).
Qed.

Lemma applyVerdicts_mismatch index st vs st1 m :
  indexValid index (st_config st) →
  applyVerdicts index st vs = Returned st1 →
  m ∈ labelMismatch (st_log st1) →
  m ∈ labelMismatch (st_log st)
  ∨ (mm_existing m ≠ mm_incoming m
     ∧ (∃ infoTitle, VPlace (mm_to m) infoTitle ∈ vs ∧ mm_incoming m = Js.trim infoTitle)
     ∧ ∃ p c item, containerOf (st_config st1) p = Some c ∧ item ∈ c
                   ∧ to item = mm_to m ∧ label item = mm_existing m).
Proof.
  revert st; induction vs as [|v vs IH]; intros st Hvalid; simpl.
  - intros [= <-]. by left.
  - intros (st0 & Hv & Hrest)%bindRun_Returned Hm.
    destruct (applyVerdict_spec index st v Hvalid) as (st0' & Hv' & Hsk & _).
    rewrite Hv in Hv'. injection Hv' as <-.
    assert (indexValid index (st_config st0)) as Hvalid0.
    { eapply indexValid_skeleton; [|done]. done. }
    destruct (IH st0 Hvalid0 Hrest Hm) as [Hm0|(Hne & (t & Ht & Hinc) & Hitem)].
    + destruct (applyVerdict_mismatch _ _ _ _ _ Hv Hm0)
        as [?|(Hne & (t & -> & Hinc) & (p & c & item & Hc & Hin & Hto & Hl))]; [by left|].
      right. split; [done|]. split; [exists t; split; [left | done]|].
      destruct (applyVerdicts_spec index st0 vs Hvalid0) as (st1' & Hrest' & _ & Hc1 & _).
      rewrite Hrest in Hrest'. injection Hrest' as <-.
      exists p. specialize (Hc1 p). rewrite Hc in Hc1. simpl in Hc1.
      destruct (grownContainer_app index p c vs) as (more & Hg & _).
      eexists _, item. split; [done|]. rewrite Hg. split; [|done].
      apply elem_of_app. by left.
    + right. split; [done|]. split; [|done]. exists t. split; [by right | done].
Qed.

(** X11.  Every mismatch of the report is a real one, and the config keeps its
    label: the two labels differ, the incoming one is the trimmed title of
    a scanned file with that route, and the existing one is the label of
    an entry with that route in the config written, unless the route is
    one of those pruned. *)
Theorem mismatches_are_real_and_labels_kept
    (cwd dir : string) (cache : Cache) (fs : FileSystem)
    (log : ChangeLog) (cache1 : Cache) (fs1 : FileSystem) :
  processDocsConfig cwd dir cache fs = Returned (log, cache1, fs1) →
  ∃ config1 vs,
    configs fs1 !! Path.join [dir; "config.json"] = Some config1
    ∧ verdicts fs cwd dir cache = Returned (vs, cache1)
    ∧ ∀ m, m ∈ labelMismatch log →
        mm_existing m ≠ mm_incoming m
        ∧ (∃ infoTitle, VPlace (mm_to m) infoTitle ∈ vs
                        ∧ mm_incoming m = Js.trim infoTitle)
        ∧ (mm_to m ∈ skipRoutesOf vs
           ∨ ∃ p c item, containerOf config1 p = Some c ∧ item ∈ c
                         ∧ to item = mm_to m ∧ label item = mm_existing m).
Proof.
  intros (config & vs & stL & Hcfg & Hv & Hrun & -> & ->)%processDocsConfig_spec.
  destruct (reconcile_spec config vs) as (stL' & Hrun' & _ & _ & _ & Hskip & _).
  rewrite Hrun in Hrun'. injection Hrun' as <-.
  exists (finishSync stL).1, vs. simpl. rewrite lookup_insert_eq.
  split; [done|]. split; [done|].
  intros m. rewrite finishSync_spec. simpl. intros Hm.
  destruct (applyVerdicts_mismatch _ (mkSyncState config emptyLog ∅ ∅ ∅) _ _ m
              (indexValid_build config) Hrun Hm)
    as [H%elem_of_nil|(Hne & Ht & (p & c & item & Hc & Hin & Hto & Hl))]; [done|].
  split; [done|]. split; [done|].
  destruct (decide (mm_to m ∈ skipRoutesOf vs)) as [|Hns]; [by left|]. right.
  exists p, (keepUnskipped (skipRoutesOf vs) c), item.
  split; [by rewrite containerOf_prunedConfig, Hc, Hskip|].
  split; [|done]. apply list_elem_of_filter. by rewrite Hto.
Qed.

(** *** The cache after a pass *)

Lemma classify_cache fs cwd dir configPath cache filePath v cache1 :
  classify fs cwd dir configPath cache filePath = Returned (v, cache1) →
  cache ⊆ cache1
  ∧ (filePath ≠ configPath →
     isReadme (Path.basename filePath) || isDraft (Path.basename filePath) = false →
     is_Some (cache1 !! Path.resolve cwd [filePath])).
Proof.
  unfold classify. destruct (String.eqb_spec filePath configPath) as [|Hne].
  { intros [= <- <-]. done. }
  destruct (isReadme _ || isDraft _); [intros [= <- <-]; done|].
  destruct (readDocInfo fs cwd filePath dir ∅ cache) as [[info c]| |] eqn:Hread;
    simpl; [|done..].
  destruct (readDocInfoFuel_cache _ _ _ _ _ _ _ _ _ Hread) as (Hsub & Hkey).
  assert (c = cache1 → cache ⊆ cache1 ∧ (filePath ≠ configPath → false = false →
            is_Some (cache1 !! Path.resolve cwd [filePath]))) as Hdone.
  { intros <-. split; [done|]. intros _ _. by eexists. }
  destruct info as [info|]; [|intros [= _ H]; by apply Hdone].
  destruct (title info) as [t|]; [|intros [= _ H]; by apply Hdone].
  destruct (Js.truthy t); [|intros [= _ H]; by apply Hdone].
  destruct (bool_decide _); intros [= _ H]; by apply Hdone.
Qed.

Lemma classifyFiles_cache fs cwd dir configPath cache files vs cache1 :
  classifyFiles fs cwd dir configPath cache files = Returned (vs, cache1) →
  cache ⊆ cache1
  ∧ ∀ filePath, filePath ∈ files → filePath ≠ configPath →
      isReadme (Path.basename filePath) || isDraft (Path.basename filePath) = false →
      is_Some (cache1 !! Path.resolve cwd [filePath]).
Proof.
  revert cache vs; induction files as [|f files IH]; intros cache vs; simpl.
  - intros [= <- <-]. split; [done|]. by intros ? ?%elem_of_nil.
  - intros ([v c1] & Hv & ([vs' c2] & Hvs & [= <- <-])%bindRun_Returned)%bindRun_Returned.
    destruct (classify_cache _ _ _ _ _ _ _ _ Hv) as [Hsub Hf].
    destruct (IH _ _ Hvs) as [Hsub' Hfiles].
    split; [by etrans|].
    intros filePath [->|Hin]%elem_of_cons Hne Hplain; [|by apply Hfiles].
    destruct (Hf Hne Hplain) as [info Hinfo]. exists info.
    by apply (lookup_weaken c1).
Qed.

(** *** Paths *)

Lemma splitOn_nonempty c s : ∃ piece pieces, Path.splitOn c s = piece :: pieces.
Proof.
  induction s as [|d s (p & ps & IH)]; simpl; [by eexists _, _|].
  rewrite IH. destruct (Ascii.eqb d c); by eexists _, _.
Qed.

Lemma splitOn_append c x y :
  Path.splitOn c (x +:+ String c y) = Path.splitOn c x ++ Path.splitOn c y.
Proof.
  induction x as [|d x IH]; unfold_append.
  - cbn [Path.splitOn]. rewrite Ascii.eqb_refl.
    by destruct (splitOn_nonempty c y) as (p & ps & ->).
  - cbn [Path.splitOn]. rewrite IH.
    destruct (splitOn_nonempty c x) as (p & ps & ->). simpl.
    by destruct (Ascii.eqb d c).
Qed.

Lemma indexOfFrom_cons_none c d s i :
  0 <= i → Js.indexOfFrom c (String d s) i = -1 →
  Ascii.eqb d c = false ∧ Js.indexOfFrom c s (i + 1) = -1.
Proof. simpl. destruct (Ascii.eqb d c); [lia | done]. Qed.

Lemma indexOfFrom_shift c s i j :
  0 <= i → 0 <= j → Js.indexOfFrom c s i = -1 → Js.indexOfFrom c s j = -1.
Proof.
  revert i j; induction s as [|d s IH]; intros i j Hi Hj; simpl; [done|].
  destruct (Ascii.eqb d c); [lia|]. apply IH; lia.
Qed.

Lemma indexOf_cons_none c d s :
  Js.indexOf c (String d s) = -1 ↔ Ascii.eqb d c = false ∧ Js.indexOf c s = -1.
Proof.
  unfold Js.indexOf. split.
  - intros [Hd Hs]%indexOfFrom_cons_none; [|lia]. split; [done|].
    by apply (indexOfFrom_shift c s (0 + 1) 0).
  - intros [Hd Hs]. simpl. rewrite Hd. by apply (indexOfFrom_shift c s 0 (0 + 1)).
Qed.

Lemma splitOn_none c s : Js.indexOf c s = -1 → Path.splitOn c s = [s].
Proof.
  induction s as [|d s IH]; [done|].
  intros [Hd Hs]%indexOf_cons_none. simpl. by rewrite (IH Hs), Hd.
Qed.

Lemma joinWith_cons glue x rest :
  rest ≠ [] → Path.joinWith glue (x :: rest) = x +:+ glue +:+ Path.joinWith glue rest.
Proof. by destruct rest. Qed.

Lemma joinWith_app glue l1 l2 :
  l1 ≠ [] → l2 ≠ [] →
  Path.joinWith glue (l1 ++ l2) = Path.joinWith glue l1 +:+ glue +:+ Path.joinWith glue l2.
Proof.
  intros H1 H2. induction l1 as [|x l1 IH]; [done|].
  destruct l1 as [|y l1].
  - simpl app. by rewrite joinWith_cons.
  - change ((x :: y :: l1) ++ l2) with (x :: ((y :: l1) ++ l2)).
    rewrite !joinWith_cons by done. rewrite IH by done. by rewrite !append_assoc.
Qed.

Lemma joinWith_head glue d piece pieces :
  Path.joinWith glue (String d piece :: pieces)
  = String d (Path.joinWith glue (piece :: pieces)).
Proof. by destruct pieces. Qed.

Lemma joinWith_splitOn s : Path.joinWith "/" (Path.splitOn "/" s) = s.
Proof.
  induction s as [|d s IH]; [done|]. cbn [Path.splitOn].
  destruct (splitOn_nonempty "/" s) as (p & ps & Hs). rewrite Hs in *.
  destruct (Ascii.eqb_spec d "/") as [->|Hne].
  - rewrite joinWith_cons by done. by rewrite IH.
  - by rewrite joinWith_head, IH.
Qed.

Lemma plainSegment_spec s :
  plainSegment s = true ↔ s ≠ "" ∧ s ≠ "." ∧ s ≠ ".." ∧ Js.indexOf "/" s = -1.
Proof.
  unfold plainSegment. rewrite !andb_true_iff, !negb_true_iff, !String.eqb_neq, Z.eqb_eq.
  tauto.
Qed.

Lemma splitOn_joinWith segs :
  Forall (fun s => plainSegment s = true) segs → segs ≠ [] →
  Path.splitOn "/" (Path.joinWith "/" segs) = segs.
Proof.
  induction 1 as [|s segs Hs Hsegs IH]; intros Hne; [done|].
  apply plainSegment_spec in Hs as (_ & _ & _ & Hs).
  destruct segs as [|s' segs]; [by apply splitOn_none|].
  rewrite joinWith_cons by done.
  change ("/" +:+ ?x) with (String "/" x).
  rewrite splitOn_append, splitOn_none by done. by rewrite IH.
Qed.

Lemma normalizeSegments_plain above done segs :
  Forall (fun s => plainSegment s = true) segs →
  Path.normalizeSegments above done segs = rev done ++ segs.
Proof.
  intros Hsegs. revert done.
  induction Hsegs as [|s segs Hs Hsegs IH]; intros done; simpl; [by rewrite app_nil_r|].
  apply plainSegment_spec in Hs as (H1 & H2 & H3 & _).
  rewrite (proj2 (String.eqb_neq _ _) H1), (proj2 (String.eqb_neq _ _) H2),
    (proj2 (String.eqb_neq _ _) H3). simpl.
  rewrite IH. simpl. by rewrite <- app_assoc.
Qed.

Lemma normalizeSegments_snoc above done segs s :
  plainSegment s = true →
  Path.normalizeSegments above done (segs ++ [s])
  = Path.normalizeSegments above done segs ++ [s].
Proof.
  intros Hs. revert done. induction segs as [|x segs IH]; intros done.
  - simpl app. rewrite normalizeSegments_plain by (by constructor). done.
  - simpl. destruct (String.eqb x "" || String.eqb x "."); [apply IH|].
    destruct (String.eqb x ".."); [|apply IH].
    destruct done as [|last done']; [destruct above; apply IH|].
    destruct (String.eqb last ".."); apply IH.
Qed.

Lemma startsWith_append_long p u t :
  (String.length p ≤ String.length u)%nat →
  Js.startsWith p (u +:+ t) = Js.startsWith p u.
Proof.
  revert u; induction p as [|a p IH]; intros u Hlen.
  - by destruct u, t.
  - destruct u as [|b u]; simpl in Hlen; [lia|]. unfold_append. simpl.
    rewrite IH by lia. done.
Qed.

Lemma endsWith_append_long p t u :
  (String.length p ≤ String.length u)%nat →
  Js.endsWith p (t +:+ u) = Js.endsWith p u.
Proof.
  intros Hlen. unfold Js.endsWith. rewrite rev_append.
  apply startsWith_append_long. by rewrite !strLength_rev.
Qed.

Lemma joinWith_snoc_suffix glue l s : ∃ pre, Path.joinWith glue (l ++ [s]) = pre +:+ s.
Proof.
  destruct l as [|x l].
  - by exists "".
  - exists (Path.joinWith glue (x :: l) +:+ glue).
    rewrite joinWith_app by done. by rewrite append_assoc.
Qed.

Lemma truthy_append_r s t : Js.truthy t = true → Js.truthy (s +:+ t) = true.
Proof. destruct s; [done|]. by unfold_append. Qed.

Lemma endsWith_slash_plain x s :
  plainSegment s = true → Js.endsWith "/" (x +:+ s) = false.
Proof.
  intros (Hne & _ & _ & Hs)%plainSegment_spec.
  assert (∃ t c, s = t +:+ String c "" ∧ Ascii.eqb c "/" = false) as (t & c & -> & Hc).
  { destruct s as [|d s]; [done|]. clear Hne. revert d Hs.
    induction s as [|e s IH]; intros d [Hd Hs]%indexOf_cons_none.
    - by exists "", d.
    - destruct (IH e Hs) as (t & c & Heq & Hc).
      exists (String d t), c. by rewrite append_cons, <- Heq. }
  rewrite <- append_assoc, endsWith_last.
  by rewrite Ascii.eqb_sym.
Qed.

Lemma normalize_suffix x s :
  plainSegment s = true → ∃ pre, Path.normalize (x +:+ String "/" s) = pre +:+ s.
Proof.
  intros Hs. pose proof Hs as (Hne & _ & _ & Hslash)%plainSegment_spec.
  assert (Js.truthy s = true) as Hts by (by destruct s).
  assert (Js.endsWith "/" (x +:+ String "/" s) = false) as Hend.
  { change (x +:+ String "/" s) with (x +:+ ("/" +:+ s)).
    rewrite <- append_assoc. by apply endsWith_slash_plain. }
  assert (Path.splitOn "/" (x +:+ String "/" s) = Path.splitOn "/" x ++ [s]) as Hsplit.
  { by rewrite splitOn_append, (splitOn_none "/" s). }
  unfold Path.normalize.
  rewrite (truthy_append_r x (String "/" s)) by done.
  rewrite Hend, Hsplit. set (abs := Path.isAbsolute _).
  rewrite normalizeSegments_snoc by done.
  destruct (joinWith_snoc_suffix "/"
              (Path.normalizeSegments (negb abs) [] (Path.splitOn "/" x)) s) as [pre ->].
  rewrite truthy_append_r by done. simpl negb. cbv iota.
  exists ((if abs then "/" else "") +:+ pre).
  by rewrite append_empty_r, append_assoc.
Qed.

(** The path of the config ends in the name [config.json]. *)
Lemma join_config_suffix dir :
  ∃ pre, Path.join [dir; "config.json"] = pre +:+ "config.json".
Proof.
  destruct dir as [|c dir]; [by exists ""|].
  unfold Path.join.
  assert (filter (fun p => Js.truthy p = true) [String c dir; "config.json"]
          = [String c dir; "config.json"]) as -> by done.
  change (Path.joinWith "/" [String c dir; "config.json"])
    with (String c dir +:+ String "/" "config.json").
  by apply normalize_suffix.
Qed.

Lemma config_path_not_markdown dir :
  Js.endsWith ".md" (Path.join [dir; "config.json"]) = false
  ∧ Js.endsWith ".mdx" (Path.join [dir; "config.json"]) = false.
Proof.
  destruct (join_config_suffix dir) as [pre ->].
  rewrite !endsWith_append_long by (simpl; lia). split; reflexivity.
Qed.

(** The config is never among the content files: the test of the loop
    for [filePath === configPath] never holds, and no verdict is
    [VConfigFile]. *)
Lemma config_not_listed fs dir :
  Path.join [dir; "config.json"] ∉ listContentFiles fs dir.
Proof.
  unfold listContentFiles. rewrite merge_sort_Permutation, list_elem_of_filter.
  destruct (config_path_not_markdown dir) as [H1 H2].
  intros [[_ [H|H]] _]; congruence.
Qed.

(** *** Routes of files *)

Lemma splitOn_rooted segs :
  Forall (fun s => plainSegment s = true) segs →
  Path.normalizeSegments false [] (Path.splitOn "/" ("/" +:+ Path.joinWith "/" segs)) = segs.
Proof.
  intros Hsegs. change ("/" +:+ ?x) with ("" +:+ String "/" x).
  rewrite splitOn_append. change (Path.splitOn "/" "") with [""].
  destruct segs as [|s segs]; [done|].
  rewrite splitOn_joinWith by done. simpl app.
  change (Path.normalizeSegments false [] ("" :: s :: segs))
    with (Path.normalizeSegments false [] (s :: segs)).
  by rewrite normalizeSegments_plain.
Qed.

Lemma absSegments_rooted segs :
  Forall (fun s => plainSegment s = true) segs →
  Path.absSegments ("/" +:+ Path.joinWith "/" segs) = segs.
Proof. apply splitOn_rooted. Qed.

Lemma resolve_rooted cwd segs :
  Forall (fun s => plainSegment s = true) segs →
  Path.resolve cwd ["/" +:+ Path.joinWith "/" segs] = "/" +:+ Path.joinWith "/" segs.
Proof.
  intros Hsegs. unfold Path.resolve. simpl foldl.
  change (Js.truthy ("/" +:+ ?x)) with true. simpl negb. cbv iota.
  change (Path.isAbsolute ("/" +:+ ?x)) with true. cbv iota.
  by rewrite absSegments_rooted.
Qed.

Lemma stripCommon_prefix a b : Path.stripCommon a (a ++ b) = ([], b).
Proof.
  induction a as [|x a IH]; simpl; [by destruct b|].
  by rewrite String.eqb_refl.
Qed.

Lemma rooted_below segs more :
  more ≠ [] →
  ("/" +:+ Path.joinWith "/" segs) +:+ "/" +:+ Path.joinWith "/" more
  = match segs with
    | [] => "/" +:+ "/" +:+ Path.joinWith "/" more
    | _ => "/" +:+ Path.joinWith "/" (segs ++ more)
    end.
Proof.
  intros Hmore. destruct segs as [|s segs]; [done|].
  rewrite joinWith_app by done. by rewrite append_assoc.
Qed.

Lemma absSegments_below segs more :
  Forall (fun s => plainSegment s = true) segs →
  Forall (fun s => plainSegment s = true) more → more ≠ [] →
  Path.absSegments (("/" +:+ Path.joinWith "/" segs) +:+ "/" +:+ Path.joinWith "/" more)
  = segs ++ more.
Proof.
  intros Hsegs Hmore Hne. unfold Path.absSegments.
  change ("/" +:+ Path.joinWith "/" more) with (String "/" (Path.joinWith "/" more)).
  rewrite splitOn_append, (splitOn_joinWith more) by done.
  change ("/" +:+ ?x) with ("" +:+ String "/" x).
  rewrite splitOn_append. change (Path.splitOn "/" "") with [""].
  assert (∀ l, Path.normalizeSegments false [] ([""] ++ l)
               = Path.normalizeSegments false [] l) as Hdrop by done.
  rewrite <- app_assoc, Hdrop.
  destruct segs as [|s segs].
  - change (Path.splitOn "/" (Path.joinWith "/" [])) with [""].
    rewrite Hdrop. by rewrite normalizeSegments_plain.
  - rewrite splitOn_joinWith by done.
    rewrite normalizeSegments_plain; [done|]. by apply Forall_app.
Qed.

Lemma resolve_absolute cwd p :
  Path.isAbsolute p = true →
  Path.resolve cwd [p] = "/" +:+ Path.joinWith "/" (Path.absSegments p).
Proof.
  intros Habs. unfold Path.resolve. simpl foldl.
  assert (Js.truthy p = true) as -> by (by destruct p).
  simpl negb. cbv iota. by rewrite Habs.
Qed.

Lemma append_neq_longer s t : t ≠ "" → s ≠ s +:+ t.
Proof.
  intros Ht Heq. apply (f_equal String.length) in Heq.
  rewrite strLength_append in Heq. destruct t; [done|]. simpl in Heq. lia.
Qed.

Lemma relative_below cwd segs more :
  Forall (fun s => plainSegment s = true) segs →
  Forall (fun s => plainSegment s = true) more → more ≠ [] →
  Path.relative cwd ("/" +:+ Path.joinWith "/" segs)
                ("/" +:+ Path.joinWith "/" segs +:+ "/" +:+ Path.joinWith "/" more)
  = Path.joinWith "/" more.
Proof.
  intros Hsegs Hmore Hne. unfold Path.relative.
  set (root := "/" +:+ Path.joinWith "/" segs).
  change ("/" +:+ Path.joinWith "/" segs +:+ "/" +:+ Path.joinWith "/" more)
    with (String "/" (Path.joinWith "/" segs +:+ "/" +:+ Path.joinWith "/" more)).
  assert (String "/" (Path.joinWith "/" segs +:+ "/" +:+ Path.joinWith "/" more)
          = root +:+ "/" +:+ Path.joinWith "/" more) as -> by done.
  rewrite (proj2 (String.eqb_neq root _)) by (by apply append_neq_longer).
  unfold root. rewrite resolve_rooted, absSegments_rooted by done.
  rewrite resolve_absolute by done.
  rewrite absSegments_below by done.
  rewrite absSegments_rooted by (by apply Forall_app).
  by rewrite stripCommon_prefix.
Qed.

Lemma toLowerCase_append s t :
  Js.toLowerCase (s +:+ t) = Js.toLowerCase s +:+ Js.toLowerCase t.
Proof. induction s as [|c s IH]; unfold_append; simpl; [done|]. by rewrite IH. Qed.

Lemma strLength_toLowerCase s : String.length (Js.toLowerCase s) = String.length s.
Proof. induction s; simpl; congruence. Qed.

Lemma slice_without_suffix s t :
  Js.slice (s +:+ t) 0 (Js.strLen (s +:+ t) - Z.of_nat (String.length t)) = s.
Proof.
  replace (Js.strLen (s +:+ t) - Z.of_nat (String.length t)) with (Js.strLen s).
  - apply slice_prefix.
  - unfold Js.strLen. rewrite strLength_append. lia.
Qed.

Lemma stripMdExtension_append p ext :
  Js.toLowerCase ext = ".md" ∨ Js.toLowerCase ext = ".mdx" →
  stripMdExtension (p +:+ ext) = p.
Proof.
  intros Hext. unfold stripMdExtension. rewrite toLowerCase_append.
  destruct Hext as [Hext|Hext]; rewrite Hext.
  - rewrite endsWith_append.
    replace 3 with (Z.of_nat (String.length ext))
      by (by rewrite <- strLength_toLowerCase, Hext).
    apply slice_without_suffix.
  - rewrite endsWith_append_long by (simpl; lia).
    change (Js.endsWith ".md" ".mdx") with false. cbv iota.
    rewrite endsWith_append.
    replace 4 with (Z.of_nat (String.length ext))
      by (by rewrite <- strLength_toLowerCase, Hext).
    apply slice_without_suffix.
Qed.

Lemma indexOf_append_none c s t :
  Js.indexOf c s = -1 → Js.indexOf c t = -1 → Js.indexOf c (s +:+ t) = -1.
Proof.
  intros Hs Ht. induction s as [|d s IH]; [done|]. unfold_append.
  apply indexOf_cons_none in Hs as [Hd Hs]. apply indexOf_cons_none. auto.
Qed.

Lemma extension_without_slash ext :
  Js.toLowerCase ext = ".md" ∨ Js.toLowerCase ext = ".mdx" →
  Js.indexOf "/" ext = -1 ∧ (3 ≤ String.length ext)%nat.
Proof.
  assert (∀ c : ascii, Js.lowerChar c ≠ "/"%char → Ascii.eqb c "/" = false) as Hc.
  { intros c H. apply Ascii.eqb_neq. by intros ->. }
  intros [Hext|Hext].
  - destruct ext as [|a [|b [|c [|d ext]]]]; try done.
    injection Hext as Ha Hb Hd. split; [|simpl; lia].
    repeat (apply indexOf_cons_none; split; [apply Hc; congruence|]). done.
  - destruct ext as [|a [|b [|c [|d [|e ext]]]]]; try done.
    injection Hext as Ha Hb Hd Hx. split; [|simpl; lia].
    repeat (apply indexOf_cons_none; split; [apply Hc; congruence|]). done.
Qed.

Lemma plainSegment_with_extension name ext :
  plainSegment name = true →
  Js.toLowerCase ext = ".md" ∨ Js.toLowerCase ext = ".mdx" →
  plainSegment (name +:+ ext) = true.
Proof.
  intros (Hne & _ & _ & Hslash)%plainSegment_spec [Hext Hlen]%extension_without_slash.
  apply plainSegment_spec.
  assert (3 < String.length (name +:+ ext))%nat as Hlong.
  { rewrite strLength_append. destruct name; [done|]. simpl. lia. }
  split; [by intros H; rewrite H in Hlong; simpl in Hlong; lia|].
  split; [by intros H; rewrite H in Hlong; simpl in Hlong; lia|].
  split; [by intros H; rewrite H in Hlong; simpl in Hlong; lia|].
  by apply indexOf_append_none.
Qed.

Lemma joinWith_snoc_append glue l s t :
  Path.joinWith glue (l ++ [s +:+ t]) = Path.joinWith glue (l ++ [s]) +:+ t.
Proof.
  destruct l as [|x l]; [done|].
  rewrite !joinWith_app by done. simpl. by rewrite !append_assoc.
Qed.

Lemma routeFromFile_below cwd rootSegs dirs name ext :
  Forall (fun s => plainSegment s = true) rootSegs →
  Forall (fun s => plainSegment s = true) dirs →
  plainSegment name = true →
  Js.toLowerCase ext = ".md" ∨ Js.toLowerCase ext = ".mdx" →
  routeFromFile cwd ("/" +:+ Path.joinWith "/" rootSegs)
    ("/" +:+ Path.joinWith "/" rootSegs +:+ "/"
         +:+ Path.joinWith "/" (dirs ++ [name +:+ ext]))
  = Path.joinWith "/" (dirs ++ [name]).
Proof.
  intros Hroot Hdirs Hname Hext. unfold routeFromFile.
  rewrite relative_below; [|done| |by destruct dirs].
  - rewrite joinWith_snoc_append, stripMdExtension_append by done.
    apply joinWith_splitOn.
  - apply Forall_app. split; [done|]. constructor; [|done].
    by apply plainSegment_with_extension.
Qed.

(** X14.  The route of a file below the root is its path from the root, without
    the extension: the names of the directories on the way and the name of
    the file, joined by slashes.  The extension is [.md] or [.mdx] in
    any mix of upper and lower case. *)
Theorem routeFromFile_is_path_below_root
    (cwd : string) (rootSegs dirs : list string) (name ext : string) :
  Forall (fun s => plainSegment s = true) rootSegs →
  Forall (fun s => plainSegment s = true) dirs →
  plainSegment name = true →
  Js.toLowerCase ext = ".md" ∨ Js.toLowerCase ext = ".mdx" →
  routeFromFile cwd ("/" +:+ Path.joinWith "/" rootSegs)
    ("/" +:+ Path.joinWith "/" rootSegs +:+ "/"
         +:+ Path.joinWith "/" (dirs ++ [name +:+ ext]))
  = Path.joinWith "/" (dirs ++ [name]).
Proof. apply routeFromFile_below. Qed.

Lemma classify_config_file fs cwd dir configPath cache filePath cache1 :
  classify fs cwd dir configPath cache filePath = Returned (VConfigFile, cache1) →
  filePath = configPath.
Proof.
  unfold classify. destruct (String.eqb_spec filePath configPath) as [|Hne]; [done|].
  destruct (isReadme _ || isDraft _); [done|].
  destruct (readDocInfo _ _ _ _ _ _) as [[[info|] c]| |]; simpl; try done.
  destruct (title info) as [t|]; [|done].
  destruct (Js.truthy t); [|done]. by destruct (bool_decide _).
Qed.

Lemma classifyFiles_config_file fs cwd dir configPath cache files vs cache1 :
  classifyFiles fs cwd dir configPath cache files = Returned (vs, cache1) →
  VConfigFile ∈ vs → configPath ∈ files.
Proof.
  revert cache vs; induction files as [|f files IH]; intros cache vs; simpl.
  - intros [= <- <-]. by intros ?%elem_of_nil.
  - intros ([v c1] & Hv & ([vs' c2] & Hvs & [= <- <-])%bindRun_Returned)%bindRun_Returned.
    intros [<-|Hin]%elem_of_cons.
    + apply classify_config_file in Hv as ->. left.
    + right. by eapply IH.
Qed.

(** X15.  The config is never among the content files, whatever the directory
    is named: its path ends in [config.json], not in [.md] or [.mdx].
    The test [filePath === configPath] of the loop never holds, and a
    file that is scanned always has its route put in [seenRoutes]. *)
Theorem config_file_is_never_scanned
    (fs : FileSystem) (cwd dir : string) (cache : Cache) :
  (Path.join [dir; "config.json"] ∉ listContentFiles fs dir)
  ∧ ∀ vs cache1, verdicts fs cwd dir cache = Returned (vs, cache1) →
      (VConfigFile ∉ vs)
      ∧ ∀ filePath, filePath ∈ listContentFiles fs dir →
                    routeFromFile cwd dir filePath ∈ seenRoutesOf vs.
Proof.
  split; [apply config_not_listed|].
  intros vs cache1 Hv. split.
  - intros Hin. apply (config_not_listed fs dir).
    by apply (classifyFiles_config_file _ _ _ _ _ _ _ _ Hv).
  - intros filePath Hin.
    apply (elem_of_seenRoutesOf _ _ _ _ _ _ _ _ _ Hv).
    exists filePath. split; [done|]. split; [|done].
    intros ->. by apply config_not_listed in Hin.
Qed.

(** X16.  A pass only adds to the cache: what the cache held before is still
    there, unchanged.  After the pass the cache has an entry for every
    content file scanned other than the readme files and the drafts, under
    the resolved path of the file, so that a later pass of the same process
    takes the info of such a file from the cache. *)
Theorem pass_fills_the_cache
    (cwd dir : string) (cache : Cache) (fs : FileSystem)
    (log : ChangeLog) (cache1 : Cache) (fs1 : FileSystem) :
  processDocsConfig cwd dir cache fs = Returned (log, cache1, fs1) →
  cache ⊆ cache1
  ∧ ∀ filePath,
      filePath ∈ listContentFiles fs dir →
      isReadme (Path.basename filePath) || isDraft (Path.basename filePath) = false →
      ∃ info,
        cache1 !! Path.resolve cwd [filePath] = Some info
        ∧ ∀ fs' docsDir stack,
            readDocInfo fs' cwd filePath docsDir stack cache1 = Returned (info, cache1).
Proof.
  intros (config & vs & stL & Hcfg & Hv & Hrun & -> & ->)%processDocsConfig_spec.
  unfold verdicts in Hv.
  destruct (classifyFiles_cache _ _ _ _ _ _ _ _ Hv) as [Hsub Hfiles].
  split; [done|]. intros filePath Hin Hplain.
  assert (filePath ≠ Path.join [dir; "config.json"]) as Hne.
  { intros ->. by apply config_not_listed in Hin. }
  destruct (Hfiles filePath Hin Hne Hplain) as [info Hinfo].
  exists info. split; [done|]. intros fs' docsDir stack.
  unfold readDocInfo. change (2 + size (docs fs'))%nat with (S (1 + size (docs fs'))).
  rewrite readDocInfoFuel_S. cbv zeta. by rewrite Hinfo.
Qed.

(** *** A config without entries *)

Lemma applyVerdicts_no_placement index st vs :
  (∀ route, findPlacement route index = None) →
  ∃ st1, applyVerdicts index st vs = Returned st1
         ∧ st_config st1 = st_config st
         ∧ added (st_log st1) = added (st_log st)
         ∧ labelMismatch (st_log st1) = labelMismatch (st_log st).
Proof.
  intros Hnone. revert st; induction vs as [|v vs IH]; intros st; simpl; [by eexists|].
  assert (∃ st0, applyVerdict index st v = Returned st0
                 ∧ st_config st0 = st_config st
                 ∧ added (st_log st0) = added (st_log st)
                 ∧ labelMismatch (st_log st0) = labelMismatch (st_log st))
    as (st0 & -> & Hc0 & Ha0 & Hl0).
  { destruct v as [| | | |route t]; simpl; try (by eexists).
    rewrite Hnone. by eexists. }
  simpl. destruct (IH st0) as (st1 & -> & Hc1 & Ha1 & Hl1).
  exists st1. split; [done|]. split; [congruence|]. split; congruence.
Qed.

Lemma routesOf_nil_containers config c :
  routesOf config = [] → c ∈ containersOf (sections config) → c = [].
Proof.
  intros Hnil Hc. apply containersOf_containerOf in Hc as [p Hp].
  destruct c as [|item c]; [done|]. exfalso.
  assert (to item ∈ routesOf config) as Hin.
  { apply elem_of_routesOf. exists p, (item :: c). split; [done|]. simpl. left. }
  rewrite Hnil in Hin. by apply elem_of_nil in Hin.
Qed.

Lemma prunedConfig_no_entries skipRoutes config :
  routesOf config = [] → prunedConfig skipRoutes config = config.
Proof.
  intros Hnil. destruct config as [ds secs us un].
  unfold prunedConfig, setSections. simpl. f_equal.
  rewrite <- (list_fmap_id secs) at 2. apply list_fmap_ext.
  intros i [l ch fws] Hi. simpl. unfold prunedSection. simpl.
  assert (∀ c, c ∈ containersOfSection (mkNavSection l ch fws) → c = []) as Hempty.
  { intros c Hc. apply (routesOf_nil_containers _ c Hnil).
    unfold containersOf. simpl. apply list_elem_of_bind.
    exists (mkNavSection l ch fws). split; [done|]. by eapply list_elem_of_lookup_2. }
  f_equal.
  - rewrite (Hempty ch); [done | left].
  - destruct fws as [fws|]; simpl; [|done]. f_equal.
    rewrite <- (list_fmap_id fws) at 2. apply list_fmap_ext.
    intros j [fl fc] Hj. simpl. unfold prunedFramework, setFwChildren. simpl.
    rewrite (Hempty fc); [done|]. right. simpl.
    apply list_elem_of_fmap. exists (mkFrameworkGroup fl fc).
    split; [done|]. by eapply list_elem_of_lookup_2.
Qed.

(** X17.  A config whose containers are all empty gets no entry: no file
    gets a placement, since the index is built from the entries, and a
    section without entries claims no route.  The config written has the
    sections of the config read, with their empty arrays; the pass adds
    nothing and reports every file to place under [unmatched]. *)
Theorem config_without_entries_gets_none
    (cwd dir : string) (cache : Cache) (fs : FileSystem)
    (log : ChangeLog) (cache1 : Cache) (fs1 : FileSystem) (config : DocsConfig) :
  processDocsConfig cwd dir cache fs = Returned (log, cache1, fs1) →
  configs fs !! Path.join [dir; "config.json"] = Some config →
  routesOf config = [] →
  (∃ config1, configs fs1 !! Path.join [dir; "config.json"] = Some config1
              ∧ sections config1 = sections config)
  ∧ added log = [] ∧ labelMismatch log = [] ∧ removed log = [] ∧ missingFiles log = []
  ∧ ∀ vs, verdicts fs cwd dir cache = Returned (vs, cache1) →
          ∀ route infoTitle, VPlace route infoTitle ∈ vs → route ∈ unmatched log.
Proof.
  intros (config' & vs & stL & Hcfg & Hv & Hrun & -> & ->)%processDocsConfig_spec Hcfg' Hnil.
  rewrite Hcfg in Hcfg'. injection Hcfg' as ->.
  assert (∀ route, findPlacement route (buildPlacementIndex config) = None) as Hnone.
  { intros route. apply findPlacement_build_None. intros x r _ Hr.
    rewrite Hnil in Hr. by apply elem_of_nil in Hr. }
  destruct (applyVerdicts_no_placement (buildPlacementIndex config)
              (mkSyncState config emptyLog ∅ ∅ ∅) vs Hnone)
    as (st1 & Hrun1 & Hc1 & Ha1 & Hl1).
  rewrite Hrun in Hrun1. injection Hrun1 as <-. simpl in *.
  destruct (reconcile_spec config vs) as (stL' & Hrun' & _ & _ & _ & _ & _ & Hrem & Hmiss).
  rewrite Hrun in Hrun'. injection Hrun' as <-.
  rewrite finishSync_spec, Hc1, prunedConfig_no_entries by done.
  simpl. rewrite Ha1, Hl1, Hrem, Hmiss.
  assert (∀ f : list NavItem → list string,
            (∀ c, c = [] → f c = []) → concat (f <$> containersOf (sections config)) = [])
    as Hconcat.
  { intros f Hf. 
    assert (Forall (fun c => c = []) (containersOf (sections config))) as Hall.
    { apply Forall_forall. intros c Hc. by apply (routesOf_nil_containers config). }
    induction Hall as [|c cs -> _ IH]; [done|].
    rewrite fmap_cons. cbn [concat]. by rewrite (Hf [] eq_refl), IH. }
  rewrite !Hconcat by (by intros c ->).
  split.
  { exists config. split; [apply lookup_insert_eq | done]. }
  split; [done|]. split; [done|]. split; [done|]. split; [done|].
  intros vs' Hv' route t Hin. rewrite Hv in Hv'. injection Hv' as <-.
  destruct (applyVerdicts_unmatched _ _ _ _ Hrun) as [_ Hun].
  apply Hun. right. by exists t.
Qed.

(** *** The printed report *)

Lemma elem_of_printSection line title values :
  line ∈ printSection title values →
  line = "  " +:+ title +:+ ":" ∨ ∃ value, value ∈ values ∧ line = "    - " +:+ value.
Proof.
  unfold printSection. destruct values as [|v values]; [by intros ?%elem_of_nil|].
  intros [->|Hin]%elem_of_cons; [by left|]. right.
  apply list_elem_of_In, in_map_iff in Hin as (value & <- & Hin).
  exists value. split; [by apply list_elem_of_In | done].
Qed.

Lemma hasNone_true {A : Type} (l : list A) : hasNone l = true ↔ l = [].
Proof. by destruct l. Qed.

Lemma linesOf_stdout calls :
  Forall (fun arg => Js.indexOf newline arg = -1) calls →
  linesOf (stdout calls) = calls ++ [""].
Proof.
  unfold linesOf. induction 1 as [|arg calls Harg _ IH]; [done|].
  cbn [stdout foldr]. fold (stdout calls).
  rewrite splitOn_append, (splitOn_none _ _ Harg), IH. done.
Qed.

Lemma printSection_lines title values :
  Js.indexOf newline title = -1 →
  Forall (fun value => Js.indexOf newline value = -1) values →
  Forall (fun arg => Js.indexOf newline arg = -1) (printSection title values).
Proof.
  intros Htitle Hvalues. apply Forall_forall.
  intros line [->|(value & Hin & ->)]%elem_of_printSection.
  - repeat apply indexOf_append_none; done.
  - apply indexOf_append_none; [done|]. by apply (proj1 (Forall_forall _ _) Hvalues).
Qed.

(** X18.  [main] gives [No changes detected.] to [console.log] for a root
    exactly when the seven lists of its report are empty, and it is then
    the only call after the heading of the root; no call of [printSection]
    has this argument, and at least one call is made for every root.  When
    no label, route or path of the report has a line break in it, the lines
    written are the arguments of the calls, one each, so that the line is
    in the output exactly when the report is empty. *)
Theorem no_changes_line_iff_empty_report (log : ChangeLog) :
  ("  No changes detected." ∈ printReport log ↔ log = emptyLog)
  ∧ printReport emptyLog = ["  No changes detected."]
  ∧ printReport log ≠ []
  ∧ (Forall (fun value => Js.indexOf newline value = -1) (reportValues log) →
     linesOf (stdout (printReport log)) = printReport log ++ [""]
     ∧ ("  No changes detected." ∈ linesOf (stdout (printReport log)) ↔ log = emptyLog)).
Proof.
  assert (∀ title values,
            title ∈ ["Added entries"; "Label/title mismatches (unchanged)";
                     "Removed (skip:true)"; "Skipped (skip:true) files";
                     "Missing frontmatter title";
                     "Unmatched routes (manual placement required)";
                     "Config entries missing source file"] →
            "  No changes detected." ∉ printSection title values) as Hsection.
  { intros title values Htitle [Hline|(value & _ & Hline)]%elem_of_printSection.
    - repeat (apply elem_of_cons in Htitle as [->|Htitle]; [by vm_compute in Hline|]).
      by apply elem_of_nil in Htitle.
    - by vm_compute in Hline. }
  assert ("  No changes detected." ∈ printReport log ↔ log = emptyLog) as Hiff.
  { split.
    + unfold printReport. rewrite !elem_of_app.
      intros [H|[H|[H|[H|[H|[H|[H|H]]]]]]];
        try (exfalso; revert H; apply Hsection; set_solver).
      destruct (_ && _) eqn:Hnone; [|by apply elem_of_nil in H].
      rewrite !andb_true_iff, !hasNone_true in Hnone.
      destruct Hnone as [[[[[[? ?] ?] ?] ?] ?] ?].
      destruct log; simpl in *; subst. done.
    + intros ->. vm_compute. left. }
  split; [done|]. split; [done|]. split.
  - intros Hnil. unfold printReport in Hnil.
    repeat (apply app_eq_nil in Hnil as [? Hnil]).
    assert (∀ title values, printSection title values = [] → values = []) as Hvalues.
    { intros title [|v values]; [done|]. by unfold printSection. }
    destruct log as [a l r s m u f]; simpl in *.
    rewrite (Hvalues _ a), (Hvalues _ r), (Hvalues _ s), (Hvalues _ m),
      (Hvalues _ u), (Hvalues _ f) in Hnil by done.
    assert (map mismatchLine l = []) as Hl by (by eapply Hvalues).
    by destruct l.
  - intros Hvalues.
    assert (linesOf (stdout (printReport log)) = printReport log ++ [""]) as Hlines.
    { apply linesOf_stdout. unfold reportValues in Hvalues.
      repeat (apply Forall_app in Hvalues as [? Hvalues]).
      unfold printReport. repeat (apply Forall_app; split);
        try (apply printSection_lines; [by vm_compute | done]).
      destruct (_ && _); by repeat constructor. }
    split; [done|]. rewrite Hlines, <- Hiff, elem_of_app, list_elem_of_singleton.
    split; [intros [?|?]; done | by left].
Qed.

(** A route with a line break in it can put the text of the line on a
    line of its own in the output of a report that is not empty. *)
Example forged_line :
  "  No changes detected." ∈ linesOf (stdout (printReport Forged.log))
  ∧ "  No changes detected." ∉ printReport Forged.log.
Proof.
  split.
  - vm_compute. do 2 right. left.
  - vm_compute. intros H.
    repeat (apply elem_of_cons in H as [H|H]; [discriminate H|]).
    by apply elem_of_nil in H.
Qed.

(** *** Lines of a frontmatter block *)

Lemma chars_append s t :
  list_ascii_of_string (s +:+ t) = list_ascii_of_string s ++ list_ascii_of_string t.
Proof. induction s as [|c s IH]; unfold_append; simpl; [done|]. by rewrite IH. Qed.

Lemma chars_rev s : list_ascii_of_string (String.rev s) = rev (list_ascii_of_string s).
Proof.
  induction s as [|c s IH]; [done|].
  rewrite rev_cons, chars_append, IH. done.
Qed.

Lemma trimStart_spaces ws s :
  Forall (fun c => Js.isSpace c = true) (list_ascii_of_string ws) →
  Js.trimStart (ws +:+ s) = Js.trimStart s.
Proof.
  induction ws as [|c ws IH]; intros Hws; unfold_append; [done|].
  apply Forall_cons in Hws as [Hc Hws]. simpl. rewrite Hc. by apply IH.
Qed.

Lemma trimStart_text s t :
  Js.trimStart s = s → s ≠ "" → Js.trimStart (s +:+ t) = s +:+ t.
Proof.
  destruct s as [|c s]; [done|]. intros Hs _. unfold_append. simpl in *.
  destruct (Js.isSpace c) eqn:Hc; [|done].
  exfalso. assert (String.length (Js.trimStart s) ≤ String.length s)%nat as Hlen.
  { clear. induction s as [|d s IH]; simpl; [done|]. destruct (Js.isSpace d); simpl; lia. }
  rewrite Hs in Hlen. simpl in Hlen. lia.
Qed.

Lemma trimEnd_spaces s ws :
  Forall (fun c => Js.isSpace c = true) (list_ascii_of_string ws) →
  Js.trimEnd (s +:+ ws) = Js.trimEnd s.
Proof.
  intros Hws. unfold Js.trimEnd. rewrite rev_append, trimStart_spaces; [done|].
  rewrite chars_rev. by apply Forall_rev.
Qed.

Lemma rev_inj s t : String.rev s = String.rev t → s = t.
Proof. intros H. by rewrite <- (rev_rev s), H, rev_rev. Qed.

Lemma trimEnd_text s t :
  Js.trimEnd t = t → t ≠ "" → Js.trimEnd (s +:+ t) = s +:+ t.
Proof.
  intros Ht Hne. unfold Js.trimEnd in *. rewrite rev_append.
  rewrite trimStart_text.
  - by rewrite <- rev_append, rev_rev.
  - apply rev_inj. by rewrite Ht, rev_rev.
  - intros H. apply Hne. apply rev_inj. by rewrite H.
Qed.

Lemma trim_padded lead s trail :
  Forall (fun c => Js.isSpace c = true) (list_ascii_of_string lead) →
  Forall (fun c => Js.isSpace c = true) (list_ascii_of_string trail) →
  Js.trimStart s = s → Js.trimEnd s = s → s ≠ "" →
  Js.trim (lead +:+ s +:+ trail) = s.
Proof.
  intros Hlead Htrail Hs He Hne. unfold Js.trim.
  rewrite trimStart_spaces, trimStart_text, trimEnd_spaces by done. done.
Qed.

Lemma trim_spaces ws :
  Forall (fun c => Js.isSpace c = true) (list_ascii_of_string ws) → Js.trim ws = "".
Proof.
  intros Hws. unfold Js.trim.
  rewrite <- (append_empty_r ws), trimStart_spaces by done. done.
Qed.

Lemma indexOfFrom_append c s t i :
  Js.indexOf c s = -1 →
  Js.indexOfFrom c (s +:+ String c t) i = i + Js.strLen s.
Proof.
  unfold Js.strLen. revert i; induction s as [|d s IH]; intros i Hs; unfold_append; simpl.
  - rewrite Ascii.eqb_refl. lia.
  - apply indexOf_cons_none in Hs as [-> Hs]. rewrite IH by done. lia.
Qed.

Lemma indexOf_spaces c ws :
  Js.isSpace c = false →
  Forall (fun c => Js.isSpace c = true) (list_ascii_of_string ws) →
  Js.indexOf c ws = -1.
Proof.
  intros Hc. induction ws as [|d ws IH]; intros Hws; [done|].
  apply Forall_cons in Hws as [Hd Hws]. apply indexOf_cons_none.
  split; [|by apply IH]. apply Ascii.eqb_neq. intros ->. congruence.
Qed.

Lemma take_all s : Js.take (String.length s) s = s.
Proof. rewrite <- (append_empty_r s) at 2. apply take_append. Qed.

Lemma sliceFrom_suffix s t : Js.sliceFrom (s +:+ t) (Js.strLen s) = t.
Proof.
  unfold Js.sliceFrom. rewrite slice_range.
  - unfold Js.strLen. rewrite Nat2Z.id, drop_append, strLength_append.
    replace (Z.to_nat _) with (String.length t) by lia. apply take_all.
  - unfold Js.strLen. rewrite strLength_append. lia.
  - lia.
Qed.

Lemma parseLine_key_value info lead key gap1 gap2 value trail :
  Forall (fun c => Js.isSpace c = true) (list_ascii_of_string lead) →
  Forall (fun c => Js.isSpace c = true) (list_ascii_of_string gap1) →
  Forall (fun c => Js.isSpace c = true) (list_ascii_of_string gap2) →
  Forall (fun c => Js.isSpace c = true) (list_ascii_of_string trail) →
  key ≠ "" → Js.trimStart key = key → Js.trimEnd key = key →
  Js.startsWith "#" key = false → Js.indexOf ":" key = -1 →
  value ≠ "" → Js.trimStart value = value → Js.trimEnd value = value →
  parseLine info (lead +:+ key +:+ gap1 +:+ ":" +:+ gap2 +:+ value +:+ trail)
  = if String.eqb key "title"
    then setTitle (Js.trim (stripQuotes (beforeComment value))) info
    else if String.eqb key "skip"
    then setSkip (String.eqb (Js.toLowerCase (beforeComment value)) "true"
                  || String.eqb (Js.toLowerCase (beforeComment value)) "yes"
                  || String.eqb (Js.toLowerCase (beforeComment value)) "1") info
    else if String.eqb key "ref" then setRef (stripQuotes (beforeComment value)) info
    else info.
Proof.
  intros Hlead Hgap1 Hgap2 Htrail Hkey Hks Hke Hhash Hcolon Hvalue Hvs Hve.
  set (trimmed := key +:+ gap1 +:+ ":" +:+ gap2 +:+ value).
  assert (Js.trim (lead +:+ key +:+ gap1 +:+ ":" +:+ gap2 +:+ value +:+ trail) = trimmed)
    as Htrim.
  { unfold Js.trim. rewrite trimStart_spaces, trimStart_text by done.
    replace (key +:+ gap1 +:+ ":" +:+ gap2 +:+ value +:+ trail)
      with ((key +:+ gap1 +:+ ":" +:+ gap2 +:+ value) +:+ trail)
      by (by rewrite !append_assoc).
    rewrite trimEnd_spaces by done.
    replace (key +:+ gap1 +:+ ":" +:+ gap2 +:+ value)
      with ((key +:+ gap1 +:+ ":" +:+ gap2) +:+ value)
      by (by rewrite !append_assoc).
    rewrite trimEnd_text by done. by rewrite !append_assoc. }
  assert (Js.truthy trimmed = true) as Htruthy by (unfold trimmed; by destruct key).
  assert (Js.startsWith "#" trimmed = false) as Hhash'.
  { unfold trimmed. destruct key as [|c key]; [done|]. unfold_append. simpl in *.
    by destruct (Ascii.eqb "#" c). }
  assert (Js.indexOf ":" trimmed = Js.strLen (key +:+ gap1)) as Hidx.
  { unfold trimmed. change (":" +:+ ?x) with (String ":" x). rewrite <- append_assoc.
    unfold Js.indexOf. rewrite indexOfFrom_append; [lia|].
    apply indexOf_append_none; [done|]. by apply indexOf_spaces. }
  assert (0 < Js.strLen (key +:+ gap1)) as Hpos.
  { unfold Js.strLen. rewrite strLength_append. destruct key; [done|]. simpl. lia. }
  assert (Js.trim (Js.slice trimmed 0 (Js.strLen (key +:+ gap1))) = key) as Hkeypart.
  { unfold trimmed. rewrite <- append_assoc, slice_prefix.
    rewrite <- (append_nil (key +:+ gap1)). by apply trim_padded. }
  assert (Js.trim (Js.sliceFrom trimmed (Js.strLen (key +:+ gap1) + 1)) = value) as Hvaluepart.
  { unfold trimmed.
    replace (key +:+ gap1 +:+ ":" +:+ gap2 +:+ value)
      with (((key +:+ gap1) +:+ ":") +:+ gap2 +:+ value) by (by rewrite !append_assoc).
    replace (Js.strLen (key +:+ gap1) + 1) with (Js.strLen ((key +:+ gap1) +:+ ":"))
      by (unfold Js.strLen; rewrite (strLength_append _ ":"); simpl; lia).
    rewrite sliceFrom_suffix.
    rewrite <- (append_empty_r value) at 1. by apply trim_padded. }
  unfold parseLine. rewrite Htrim. cbv zeta.
  rewrite Htruthy, Hhash', Hidx. simpl negb. simpl orb. cbv iota.
  rewrite (proj2 (Z.leb_gt _ _) Hpos), Hkeypart, Hvaluepart.
  assert (Js.truthy value = true) as -> by (by destruct value).
  done.
Qed.

Lemma parseLine_key_without_value info lead key gap1 trail :
  Forall (fun c => Js.isSpace c = true) (list_ascii_of_string lead) →
  Forall (fun c => Js.isSpace c = true) (list_ascii_of_string gap1) →
  Forall (fun c => Js.isSpace c = true) (list_ascii_of_string trail) →
  key ≠ "" → Js.trimStart key = key → Js.indexOf ":" key = -1 →
  parseLine info (lead +:+ key +:+ gap1 +:+ ":" +:+ trail) = info.
Proof.
  intros Hlead Hgap1 Htrail Hkey Hks Hcolon.
  set (trimmed := key +:+ gap1 +:+ ":").
  assert (Js.trim (lead +:+ key +:+ gap1 +:+ ":" +:+ trail) = trimmed) as Htrim.
  { unfold Js.trim. rewrite trimStart_spaces, trimStart_text by done.
    replace (key +:+ gap1 +:+ ":" +:+ trail) with ((key +:+ gap1 +:+ ":") +:+ trail)
      by (by rewrite !append_assoc).
    rewrite trimEnd_spaces by done.
    replace (key +:+ gap1 +:+ ":") with ((key +:+ gap1) +:+ ":")
      by (by rewrite !append_assoc).
    rewrite trimEnd_text by done. by rewrite !append_assoc. }
  assert (Js.indexOf ":" trimmed = Js.strLen (key +:+ gap1)) as Hidx.
  { unfold trimmed. change (":" : string) with (String ":" ""). rewrite <- append_assoc.
    unfold Js.indexOf. rewrite indexOfFrom_append; [lia|].
    apply indexOf_append_none; [done|]. by apply indexOf_spaces. }
  assert (Js.sliceFrom trimmed (Js.strLen (key +:+ gap1) + 1) = "") as Hvaluepart.
  { unfold trimmed.
    replace (key +:+ gap1 +:+ ":") with (((key +:+ gap1) +:+ ":") +:+ "")
      by (by rewrite append_empty_r, !append_assoc).
    replace (Js.strLen (key +:+ gap1) + 1) with (Js.strLen ((key +:+ gap1) +:+ ":"))
      by (unfold Js.strLen; rewrite (strLength_append _ ":"); simpl; lia).
    apply sliceFrom_suffix. }
  unfold parseLine. rewrite Htrim. cbv zeta. rewrite Hidx, Hvaluepart.
  destruct (negb (Js.truthy trimmed) || Js.startsWith "#" trimmed); [done|].
  by destruct (Js.strLen (key +:+ gap1) <=? 0).
Qed.

(** X21.  A line of the block is read as a key, the first colon and a value,
    with any white space around the three.  The keys [title], [skip] and
    [ref] set their field from the value, cut at an inline comment; any
    other key, [Title] in capitals for one, leaves the info as it is, and
    so does a key whose value is missing: it does not clear what an earlier
    line has set.  The value may hold colons. *)
Theorem parseLine_reads_key_and_value
    (info : FrontmatterInfo) (lead gap1 gap2 value trail : string) :
  Forall (fun c => Js.isSpace c = true) (list_ascii_of_string lead) →
  Forall (fun c => Js.isSpace c = true) (list_ascii_of_string gap1) →
  Forall (fun c => Js.isSpace c = true) (list_ascii_of_string gap2) →
  Forall (fun c => Js.isSpace c = true) (list_ascii_of_string trail) →
  value ≠ "" → Js.trimStart value = value → Js.trimEnd value = value →
  parseLine info (lead +:+ "title" +:+ gap1 +:+ ":" +:+ gap2 +:+ value +:+ trail)
  = setTitle (Js.trim (stripQuotes (beforeComment value))) info
  ∧ parseLine info (lead +:+ "skip" +:+ gap1 +:+ ":" +:+ gap2 +:+ value +:+ trail)
    = setSkip (bool_decide (Js.toLowerCase (beforeComment value) ∈ ["true"; "yes"; "1"])) info
  ∧ parseLine info (lead +:+ "ref" +:+ gap1 +:+ ":" +:+ gap2 +:+ value +:+ trail)
    = setRef (stripQuotes (beforeComment value)) info
  ∧ ∀ key,
      key ≠ "" → Js.trimStart key = key → Js.trimEnd key = key →
      Js.startsWith "#" key = false → Js.indexOf ":" key = -1 →
      (key ∉ ["title"; "skip"; "ref"] →
       parseLine info (lead +:+ key +:+ gap1 +:+ ":" +:+ gap2 +:+ value +:+ trail) = info)
      ∧ parseLine info (lead +:+ key +:+ gap1 +:+ ":" +:+ gap2 +:+ trail) = info.
Proof.
  intros Hlead Hgap1 Hgap2 Htrail Hvalue Hvs Hve.
  split; [|split; [|split]].
  - by rewrite parseLine_key_value.
  - rewrite parseLine_key_value by done. simpl. f_equal.
    set (v := Js.toLowerCase (beforeComment value)).
    destruct (String.eqb_spec v "true") as [->|H1]; [done|].
    destruct (String.eqb_spec v "yes") as [->|H2]; [done|].
    destruct (String.eqb_spec v "1") as [->|H3]; [done|].
    simpl. symmetry. apply bool_decide_eq_false. set_solver.
  - by rewrite parseLine_key_value.
  - intros key Hkey Hks Hke Hhash Hcolon. split.
    + intros Hother. rewrite parseLine_key_value by done.
      destruct (String.eqb_spec key "title") as [->|_]; [set_solver|].
      destruct (String.eqb_spec key "skip") as [->|_]; [set_solver|].
      destruct (String.eqb_spec key "ref") as [->|_]; [set_solver|]. done.
    + replace (lead +:+ key +:+ gap1 +:+ ":" +:+ gap2 +:+ trail)
        with (lead +:+ key +:+ gap1 +:+ ":" +:+ (gap2 +:+ trail)) by done.
      apply parseLine_key_without_value; try done.
      rewrite chars_append. by apply Forall_app.
Qed.

(** *** Where a [ref] points *)

Lemma normalizeSegments_app above kept plain rest :
  Forall (fun s => plainSegment s = true) plain →
  Path.normalizeSegments above kept (plain ++ rest)
  = Path.normalizeSegments above (rev plain ++ kept) rest.
Proof.
  intros Hplain. revert kept.
  induction Hplain as [|s plain Hs Hplain IH]; intros kept; [done|].
  apply plainSegment_spec in Hs as (H1 & H2 & H3 & _). simpl.
  rewrite (proj2 (String.eqb_neq _ _) H1), (proj2 (String.eqb_neq _ _) H2),
    (proj2 (String.eqb_neq _ _) H3). simpl.
  rewrite IH. by rewrite <- app_assoc.
Qed.

Lemma splitOn_rooted_list segs :
  Forall (fun s => plainSegment s = true) segs →
  ∃ empties, Path.splitOn "/" ("/" +:+ Path.joinWith "/" segs) = empties ++ segs
             ∧ Forall (fun s => s = "") empties.
Proof.
  intros Hsegs. change ("/" +:+ ?x) with ("" +:+ String "/" x).
  rewrite splitOn_append. change (Path.splitOn "/" "") with [""].
  destruct segs as [|s segs].
  - exists [""; ""]. split; [done|]. by repeat constructor.
  - exists [""]. rewrite splitOn_joinWith by done. split; [done|]. by repeat constructor.
Qed.

Lemma normalizeSegments_empties above kept empties rest :
  Forall (fun s => s = "") empties →
  Path.normalizeSegments above kept (empties ++ rest)
  = Path.normalizeSegments above kept rest.
Proof. induction 1 as [|s empties -> _ IH]; [done|]. simpl. apply IH. Qed.

(** [resolve(base, rel)] for a normalized absolute base and a relative
    path made of an optional [.] and names. *)
Lemma resolve_below cwd segs dots more :
  Forall (fun s => plainSegment s = true) segs →
  Forall (fun s => s = ".") dots →
  Forall (fun s => plainSegment s = true) more → more ≠ [] →
  Path.resolve cwd ["/" +:+ Path.joinWith "/" segs; Path.joinWith "/" (dots ++ more)]
  = "/" +:+ Path.joinWith "/" (segs ++ more).
Proof.
  intros Hsegs Hdots Hmore Hne. unfold Path.resolve. simpl foldl.
  change (Js.truthy ("/" +:+ ?x)) with true. simpl negb. cbv iota.
  change (Path.isAbsolute ("/" +:+ ?x)) with true. cbv iota.
  assert (Js.truthy (Path.joinWith "/" (dots ++ more)) = true
          ∧ Path.isAbsolute (Path.joinWith "/" (dots ++ more)) = false
          ∧ Path.splitOn "/" (Path.joinWith "/" (dots ++ more)) = dots ++ more)
    as (-> & -> & Hsplit).
  { assert (∀ s, s = "." ∨ plainSegment s = true →
              Js.indexOf "/" s = -1 ∧ Js.truthy s = true ∧ Path.isAbsolute s = false) as Hseg.
    { intros s [->|(H1 & _ & _ & H4)%plainSegment_spec]; [done|].
      split; [done|]. destruct s as [|c s]; [done|]. split; [done|].
      apply indexOf_cons_none in H4 as [Hc _]. unfold Path.isAbsolute.
      cbn [Js.startsWith]. rewrite Ascii.eqb_sym. by rewrite Hc. }
    assert (Forall (fun s => s = "." ∨ plainSegment s = true) (dots ++ more)) as Hall.
    { apply Forall_app. split; eapply Forall_impl; eauto. }
    assert (dots ++ more ≠ []) as Hne' by (by destruct dots, more).
    clear -Hseg Hall Hne'. induction Hall as [|s l Hs Hl IH]; [done|].
    destruct (Hseg s Hs) as (Hslash & Htruthy & Habs).
    destruct l as [|s' l].
    - simpl. split; [done|]. split; [done|]. by apply splitOn_none.
    - destruct (IH ltac:(done)) as (_ & _ & IHsplit).
      rewrite joinWith_cons by done. split; [by destruct s|].
      split; [by destruct s|].
      change ("/" +:+ ?x) with (String "/" x).
      by rewrite splitOn_append, splitOn_none, IHsplit. }
  simpl negb. cbv iota. f_equal. f_equal. unfold Path.absSegments.
  change ("/" +:+ Path.joinWith "/" (dots ++ more))
    with (String "/" (Path.joinWith "/" (dots ++ more))).
  rewrite splitOn_append, Hsplit.
  destruct (splitOn_rooted_list segs Hsegs) as (empties & -> & Hempties).
  rewrite <- app_assoc, normalizeSegments_empties by done.
  rewrite normalizeSegments_app by done.
  assert (∀ kept, Path.normalizeSegments false kept (dots ++ more)
                  = Path.normalizeSegments false kept more) as Hskip.
  { intros kept. clear -Hdots. induction Hdots as [|s dots ? _ IH]; [done|]. subst s.
    simpl. apply IH. }
  rewrite Hskip, normalizeSegments_plain by done.
  by rewrite app_nil_r, rev_involutive.
Qed.

Lemma dropWhileSlash_text yes s t :
  Forall (fun c => Ascii.eqb c "/" = negb yes) (list_ascii_of_string s) →
  Path.dropWhileSlash (negb yes) (s +:+ t) = Path.dropWhileSlash (negb yes) t.
Proof.
  induction s as [|c s IH]; intros Hs; unfold_append; [done|].
  apply Forall_cons in Hs as [Hc Hs]. simpl. rewrite Hc.
  rewrite (proj2 (Bool.eqb_true_iff _ _) eq_refl). by apply IH.
Qed.

Lemma chars_without_slash s :
  Js.indexOf "/" s = -1 ↔ Forall (fun c => Ascii.eqb c "/" = false) (list_ascii_of_string s).
Proof.
  induction s as [|c s IH]; [by split; [constructor|]|].
  rewrite indexOf_cons_none, IH. simpl. by rewrite Forall_cons.
Qed.

Lemma dirname_of_file dirs file :
  Forall (fun s => plainSegment s = true) dirs → plainSegment file = true →
  Path.dirname ("/" +:+ Path.joinWith "/" (dirs ++ [file])) = "/" +:+ Path.joinWith "/" dirs.
Proof.
  intros Hdirs (Hne & _ & _ & Hslash)%plainSegment_spec.
  assert (Forall (fun c => Ascii.eqb c "/" = false) (list_ascii_of_string (String.rev file)))
    as Hrev.
  { rewrite chars_rev. apply Forall_rev. by apply chars_without_slash. }
  assert (∃ c r, String.rev file = String c r ∧ Ascii.eqb c "/" = false) as (c & r & Hr & Hc).
  { destruct (String.rev file) as [|c r] eqn:E.
    - exfalso. apply Hne. apply rev_inj. by rewrite E.
    - exists c, r. split; [done|]. by apply Forall_cons in Hrev as [? _]. }
  change ("/" +:+ ?x) with (String "/" x). unfold Path.dirname.
  change (Ascii.eqb "/" "/") with true.
  destruct dirs as [|d dirs].
  - simpl app. simpl Path.joinWith.
    rewrite <- (append_empty_r (String.rev file)).
    assert (Path.dropWhileSlash true (String.rev file +:+ "") = String.rev file +:+ "") as ->.
    { rewrite Hr. unfold_append. simpl. by rewrite Hc. }
    by rewrite (dropWhileSlash_text true).
  - rewrite joinWith_app by done. simpl Path.joinWith at 2.
    assert (Path.joinWith "/" (d :: dirs) ≠ "") as Hj.
    { apply Forall_cons in Hdirs as [(Hd & _)%plainSegment_spec _].
      destruct dirs; simpl; [done|]. by destruct d. }
    set (J := Path.joinWith "/" (d :: dirs)) in *.
    rewrite !rev_append.
    change (String.rev "/") with ("/" : string). rewrite !append_assoc.
    assert (∀ t, Path.dropWhileSlash true (String.rev file +:+ t) = String.rev file +:+ t)
      as ->.
    { intros t. rewrite Hr. unfold_append. simpl. by rewrite Hc. }
    rewrite (dropWhileSlash_text true) by done.
    change ("/" +:+ ?x) with (String "/" x). cbn [Path.dropWhileSlash].
    change (Bool.eqb (Ascii.eqb "/" "/") (negb true)) with false. cbv iota.
    rewrite strLength_rev, rev_rev.
    destruct J; [done|]. done.
Qed.

Lemma REPO_ROOT_rooted segs :
  Forall (fun s => plainSegment s = true) segs →
  REPO_ROOT ("/" +:+ Path.joinWith "/" segs) = "/" +:+ Path.joinWith "/" segs.
Proof.
  intros Hsegs. unfold REPO_ROOT, Path.resolve. simpl foldl. f_equal. f_equal.
  unfold Path.absSegments.
  change (("/" +:+ Path.joinWith "/" segs) +:+ "/" +:+ ".")
    with (("/" +:+ Path.joinWith "/" segs) +:+ String "/" ".").
  rewrite splitOn_append.
  destruct (splitOn_rooted_list segs Hsegs) as (empties & -> & Hempties).
  rewrite <- app_assoc, normalizeSegments_empties, normalizeSegments_app by done.
  simpl. by rewrite app_nil_r, rev_involutive.
Qed.

(** X22.  Where a [ref] points.  A value that starts with [./] is taken from
    the directory of the file that holds it; a value that starts with
    [docs/] is taken from the working directory of the process, not from
    the root being synchronized; any other relative value is taken from
    the root being synchronized. *)
Theorem resolveRefPath_bases
    (cwdSegs dirs docsSegs names : list string) (file : string) :
  Forall (fun s => plainSegment s = true) cwdSegs →
  Forall (fun s => plainSegment s = true) dirs →
  plainSegment file = true →
  Forall (fun s => plainSegment s = true) docsSegs →
  Forall (fun s => plainSegment s = true) names → names ≠ [] →
  beforeSpaceOrHash (Path.joinWith "/" names) = Path.joinWith "/" names →
  resolveRefPath ("/" +:+ Path.joinWith "/" cwdSegs)
      ("/" +:+ Path.joinWith "/" (dirs ++ [file]))
      ("./" +:+ Path.joinWith "/" names)
      ("/" +:+ Path.joinWith "/" docsSegs)
  = Some ("/" +:+ Path.joinWith "/" (dirs ++ names))
  ∧ resolveRefPath ("/" +:+ Path.joinWith "/" cwdSegs)
      ("/" +:+ Path.joinWith "/" (dirs ++ [file]))
      ("docs/" +:+ Path.joinWith "/" names)
      ("/" +:+ Path.joinWith "/" docsSegs)
    = Some ("/" +:+ Path.joinWith "/" (cwdSegs ++ "docs" :: names))
  ∧ (Js.startsWith "." (Path.joinWith "/" names) = false →
     Js.startsWith "docs/" (Path.joinWith "/" names) = false →
     resolveRefPath ("/" +:+ Path.joinWith "/" cwdSegs)
       ("/" +:+ Path.joinWith "/" (dirs ++ [file]))
       (Path.joinWith "/" names)
       ("/" +:+ Path.joinWith "/" docsSegs)
     = Some ("/" +:+ Path.joinWith "/" (docsSegs ++ names))).
Proof.
  intros Hcwd Hdirs Hfile Hdocs Hnames Hne Hclean.
  set (rel := Path.joinWith "/" names) in *.
  assert (Js.truthy rel = true) as Htruthy.
  { unfold rel. destruct names as [|n names]; [done|].
    apply Forall_cons in Hnames as [(Hn & _)%plainSegment_spec _].
    destruct names; simpl; by destruct n. }
  split; [|split].
  - unfold resolveRefPath.
    assert (beforeSpaceOrHash ("./" +:+ rel) = "./" +:+ rel) as ->.
    { change ("./" +:+ rel) with (String "." (String "/" rel)).
      cbn [beforeSpaceOrHash]. by rewrite Hclean. }
    change (Js.truthy ("./" +:+ rel)) with true.
    change (Js.startsWith "." ("./" +:+ rel)) with true. simpl negb. cbv iota.
    rewrite dirname_of_file by done. f_equal.
    replace ("./" +:+ rel) with (Path.joinWith "/" (["."] ++ names))
      by (by rewrite joinWith_app).
    apply resolve_below; try done. by repeat constructor.
  - unfold resolveRefPath.
    assert (beforeSpaceOrHash ("docs/" +:+ rel) = "docs/" +:+ rel) as ->.
    { change ("docs/" +:+ rel) with (String "d" (String "o" (String "c" (String "s"
                                       (String "/" rel))))).
      cbn [beforeSpaceOrHash]. by rewrite Hclean. }
    change (Js.truthy ("docs/" +:+ rel)) with true.
    change (Js.startsWith "." ("docs/" +:+ rel)) with false.
    rewrite startsWith_append. simpl negb. cbv iota.
    rewrite REPO_ROOT_rooted by done. f_equal.
    replace ("docs/" +:+ rel) with (Path.joinWith "/" ([] ++ "docs" :: names))
      by (simpl app; by rewrite joinWith_cons).
    apply (resolve_below _ cwdSegs [] ("docs" :: names)); try done.
    by constructor.
  - intros Hdot Hdocsprefix. unfold resolveRefPath.
    rewrite Hclean, Htruthy, Hdot, Hdocsprefix. simpl negb. cbv iota. f_equal.
    apply (resolve_below _ docsSegs [] names); done.
Qed.

(** *** The nearest ancestor *)

Lemma walk_unfold route :
  walk route
  = route :: (if Js.truthy (parentRoute route) then walk (parentRoute route) else []).
Proof.
  destruct (decide (route = "")) as [->|Hne]; [done|].
  rewrite walk_nonempty, routeChain_unfold by done. f_equal.
  destruct (Js.truthy (parentRoute route)) eqn:Hp; [|done].
  symmetry. apply walk_nonempty. by apply truthy_true.
Qed.

(** X23.  [findPlacement] gives the placement of the nearest route that the
    index knows, going up from the route of the file: the route itself,
    then its parent, and so on as long as the ancestor is not empty; at
    each step [byRoute] is asked before [byDir]. *)
Theorem findPlacement_nearest_known_ancestor
    (index : PlacementIndex) (route : string) (k : nat) (p : Placement) :
  (∀ j, (j < k)%nat →
        byRoute index !! Nat.iter j parentRoute route = None
        ∧ byDir index !! Nat.iter j parentRoute route = None) →
  (k ≠ 0%nat → Nat.iter k parentRoute route ≠ "") →
  byRoute index !! Nat.iter k parentRoute route = Some p
  ∨ (byRoute index !! Nat.iter k parentRoute route = None
     ∧ byDir index !! Nat.iter k parentRoute route = Some p) →
  findPlacement route index = Some p.
Proof.
  rewrite findPlacementFrom_fuel. revert route.
  induction k as [|k IH]; intros route Hnear Hne Hfound; rewrite walk_unfold.
  - cbn [firstSome]. unfold lookupPlacement. simpl in Hfound.
    destruct Hfound as [->|[-> ->]]; done.
  - cbn [firstSome]. unfold lookupPlacement at 1.
    destruct (Hnear 0%nat ltac:(lia)) as [H1 H2]. simpl in H1, H2. rewrite H1, H2.
    rewrite Nat.iter_succ_r in Hne, Hfound.
    assert (parentRoute route ≠ "") as Hparent.
    { intros Heq. apply Hne; [done|]. rewrite Heq. apply iter_parentRoute_empty. }
    rewrite (proj2 (truthy_true _) Hparent).
    apply IH; [|by destruct k; [|intros _; apply Hne] |done].
    intros j Hj. rewrite <- !Nat.iter_succ_r. apply Hnear. lia.
Qed.

(** *** What the report names *)

Lemma classify_origin fs cwd dir configPath cache filePath v cache1 :
  classify fs cwd dir configPath cache filePath = Returned (v, cache1) →
  match v with
  | VConfigFile => True
  | VIgnored route | VSkipped route | VPlace route _ => route = routeFromFile cwd dir filePath
  | VMissing route file =>
    route = routeFromFile cwd dir filePath ∧ file = Path.relative cwd dir filePath
  end.
Proof.
  unfold classify. destruct (String.eqb _ _); [by intros [= <- _]|].
  destruct (isReadme _ || isDraft _); [by intros [= <- _]|].
  destruct (readDocInfo _ _ _ _ _ _) as [[[info|] c]| |]; simpl; try done;
    [|by intros [= <- _]].
  destruct (title info) as [t|]; [|by intros [= <- _]].
  destruct (Js.truthy t); [|by intros [= <- _]].
  destruct (bool_decide _); by intros [= <- _].
Qed.

Lemma classifyFiles_origin fs cwd dir configPath cache files vs cache1 v :
  classifyFiles fs cwd dir configPath cache files = Returned (vs, cache1) →
  v ∈ vs →
  ∃ filePath, filePath ∈ files
    ∧ match v with
      | VConfigFile => True
      | VIgnored route | VSkipped route | VPlace route _ =>
        route = routeFromFile cwd dir filePath
      | VMissing route file =>
        route = routeFromFile cwd dir filePath ∧ file = Path.relative cwd dir filePath
      end.
Proof.
  revert cache vs; induction files as [|f files IH]; intros cache vs; simpl.
  - intros [= <- <-]. by intros ?%elem_of_nil.
  - intros ([v0 c1] & Hv & ([vs' c2] & Hvs & [= <- <-])%bindRun_Returned)%bindRun_Returned.
    intros [->|Hin]%elem_of_cons.
    + exists f. split; [left|]. by eapply classify_origin.
    + destruct (IH _ _ Hvs Hin) as (f' & Hf' & Hmatch). exists f'. split; [by right | done].
Qed.

Lemma elem_of_skippedAfter route l vs :
  route ∈ skippedAfter l vs ↔ route ∈ l ∨ VSkipped route ∈ vs.
Proof.
  unfold skippedAfter. revert l; induction vs as [|v vs IH]; intros l; simpl.
  - split; [by left|]. intros [?|?%elem_of_nil]; done.
  - rewrite IH. destruct v as [| | |r|]; try (rewrite elem_of_cons; naive_solver).
    rewrite elem_of_pushUnique, elem_of_cons. naive_solver.
Qed.

Lemma elem_of_missingFrontmatterAfter file l vs :
  file ∈ missingFrontmatterAfter l vs ↔ file ∈ l ∨ ∃ route, VMissing route file ∈ vs.
Proof.
  unfold missingFrontmatterAfter. revert l; induction vs as [|v vs IH]; intros l; simpl.
  - split; [by left|]. intros [?|[? ?%elem_of_nil]]; done.
  - rewrite IH. destruct v as [| |r f| |].
    all: try (split; [intros [?|[r' ?]]; [by left | right; exists r'; by right]
                     |intros [?|[r' [?|?]%elem_of_cons]]; [by left | done | right; by exists r']]).
    rewrite elem_of_pushUnique. split.
    + intros [[?| ->]|[r' ?]]; [by left | right; exists r; left | right; exists r'; by right].
    + intros [?|[r' [[= -> ->]|?]%elem_of_cons]];
        [left; by left | left; by right | right; by exists r'].
Qed.

Lemma applyVerdicts_added index st vs st1 line :
  applyVerdicts index st vs = Returned st1 →
  line ∈ added (st_log st1) →
  line ∈ added (st_log st)
  ∨ ∃ route infoTitle, VPlace route infoTitle ∈ vs
                       ∧ line = Js.trim infoTitle +:+ " -> " +:+ route.
Proof.
  revert st; induction vs as [|v vs IH]; intros st; simpl.
  - intros [= <-]. by left.
  - intros (st0 & Hv & Hrest)%bindRun_Returned Hline.
    destruct (IH _ Hrest Hline) as [Hline0|(r & t & Hin & ->)];
      [|right; exists r, t; split; [by right | done]].
    destruct v as [| | | |route t]; simpl in Hv; try (injection Hv as <-; by left).
    destruct (findPlacement route index) as [p|]; [|injection Hv as <-; by left].
    destruct (containerOf (st_config st) p) as [c|]; [|done].
    unfold ensureNavItem in Hv. destruct (List.find _ c).
    + destruct (negb _); injection Hv as <-; by left.
    + injection Hv as <-. simpl in Hline0.
      apply elem_of_app in Hline0 as [?|Hline0]; [by left|].
      apply list_elem_of_singleton in Hline0 as ->.
      right. exists route, t. split; [left | done].
Qed.

(** X24.  The report names files that were scanned, and nothing else.  A route
    under [skipped], [unmatched] or [removed] is the route of a content
    file, and a line under [added] ends with one; an entry of
    [missingFrontmatter] is not a route: it is the path of a content file
    from the root, with its extension. *)
Theorem report_names_scanned_files
    (cwd dir : string) (cache : Cache) (fs : FileSystem)
    (log : ChangeLog) (cache1 : Cache) (fs1 : FileSystem) :
  processDocsConfig cwd dir cache fs = Returned (log, cache1, fs1) →
  (∀ route, route ∈ skipped log ∨ route ∈ unmatched log ∨ route ∈ removed log →
     ∃ filePath, filePath ∈ listContentFiles fs dir
                 ∧ routeFromFile cwd dir filePath = route)
  ∧ (∀ line, line ∈ added log →
       ∃ filePath label, filePath ∈ listContentFiles fs dir
                         ∧ line = label +:+ " -> " +:+ routeFromFile cwd dir filePath)
  ∧ (∀ file, file ∈ missingFrontmatter log →
       ∃ filePath, filePath ∈ listContentFiles fs dir
                   ∧ Path.relative cwd dir filePath = file).
Proof.
  intros (config & vs & stL & Hcfg & Hv & Hrun & -> & _)%processDocsConfig_spec.
  destruct (reconcile_spec config vs)
    as (stL' & Hrun' & _ & _ & _ & Hskip & _ & Hrem & _).
  rewrite Hrun in Hrun'. injection Hrun' as <-.
  rewrite finishSync_spec. simpl.
  destruct (applyVerdicts_skipped_missing _ _ _ _ Hrun) as [Hs Hm]. simpl in Hs, Hm.
  assert (∀ v, v ∈ vs →
            ∃ filePath, filePath ∈ listContentFiles fs dir
              ∧ match v with
                | VConfigFile => True
                | VIgnored route | VSkipped route | VPlace route _ =>
                  route = routeFromFile cwd dir filePath
                | VMissing route file =>
                  route = routeFromFile cwd dir filePath
                  ∧ file = Path.relative cwd dir filePath
                end) as Horigin.
  { intros v. by apply (classifyFiles_origin _ _ _ _ _ _ _ _ _ Hv). }
  split; [|split].
  - intros route [Hr|[Hr|Hr]].
    + rewrite Hs in Hr. apply elem_of_skippedAfter in Hr as [?%elem_of_nil|Hr]; [done|].
      destruct (Horigin _ Hr) as (f & Hf & ->). by exists f.
    + apply (applyVerdicts_unmatched _ _ _ _ Hrun) in Hr
        as [?%elem_of_nil|(t & Hr & _)]; [done|].
      destruct (Horigin _ Hr) as (f & Hf & ->). by exists f.
    + rewrite Hrem in Hr. simpl in Hr.
      apply elem_of_concat in Hr as (l & Hr & (c & -> & _)%list_elem_of_fmap).
      unfold removedRoutes in Hr. rewrite elem_of_reverse in Hr.
      apply list_elem_of_fmap in Hr as (item & -> & [Hitem _]%list_elem_of_filter).
      rewrite Hskip in Hitem.
      apply (skipRoutesOf_seenRoutesOf vs), (elem_of_seenRoutesOf _ _ _ _ _ _ _ _ _ Hv)
        in Hitem as (f & Hf & _ & Hroute).
      by exists f.
  - intros line Hline.
    apply (applyVerdicts_added _ _ _ _ _ Hrun) in Hline
      as [?%elem_of_nil|(r & t & Hin & ->)]; [done|].
    destruct (Horigin _ Hin) as (f & Hf & ->). by exists f, (Js.trim t).
  - intros file Hfile. rewrite Hm in Hfile.
    apply elem_of_missingFrontmatterAfter in Hfile as [?%elem_of_nil|[r Hr]]; [done|].
    destruct (Horigin _ Hr) as (f & Hf & _ & ->). by exists f.
Qed.

(** *** Readme files and drafts *)

Lemma takeUntilSlash_text s rest :
  Forall (fun c => Ascii.eqb c "/" = false) (list_ascii_of_string s) →
  Path.takeUntilSlash (s +:+ String "/" rest) = s.
Proof.
  induction s as [|c s IH]; intros Hs; unfold_append.
  - done.
  - apply Forall_cons in Hs as [Hc Hs]. cbn [Path.takeUntilSlash]. rewrite Hc.
    by rewrite IH.
Qed.

Lemma basename_of_file x name :
  plainSegment name = true → Path.basename (x +:+ "/" +:+ name) = name.
Proof.
  intros (Hne & _ & _ & Hslash)%plainSegment_spec.
  assert (Forall (fun c => Ascii.eqb c "/" = false) (list_ascii_of_string (String.rev name)))
    as Hrev.
  { rewrite chars_rev. apply Forall_rev. by apply chars_without_slash. }
  assert (∃ c r, String.rev name = String c r ∧ Ascii.eqb c "/" = false) as (c & r & Hr & Hc).
  { destruct (String.rev name) as [|c r] eqn:E.
    - exfalso. apply Hne. apply rev_inj. by rewrite E.
    - exists c, r. split; [done|]. by apply Forall_cons in Hrev as [? _]. }
  unfold Path.basename. rewrite !rev_append.
  change (String.rev "/") with ("/" : string). rewrite append_assoc.
  assert (∀ t, Path.dropWhileSlash true (String.rev name +:+ t) = String.rev name +:+ t)
    as ->.
  { intros t. rewrite Hr. unfold_append. simpl. by rewrite Hc. }
  change ("/" +:+ ?y) with (String "/" y).
  by rewrite takeUntilSlash_text, rev_rev.
Qed.

Lemma extension_last ext :
  Js.toLowerCase ext = ".md" ∨ Js.toLowerCase ext = ".mdx" →
  ∃ init last, ext = init +:+ String last "" ∧ Ascii.eqb "n" last = false.
Proof.
  assert (∀ c : ascii, Js.lowerChar c ≠ "n"%char → Ascii.eqb "n" c = false) as Hc.
  { intros c H. apply Ascii.eqb_neq. by intros <-. }
  intros [Hext|Hext].
  - destruct ext as [|a [|b [|c [|d ext]]]]; try done.
    injection Hext as Ha Hb Hd. exists (String a (String b "")), c.
    split; [done|]. apply Hc. congruence.
  - destruct ext as [|a [|b [|c [|d [|e ext]]]]]; try done.
    injection Hext as Ha Hb Hd Hx. exists (String a (String b (String c ""))), d.
    split; [done|]. apply Hc. congruence.
Qed.

Lemma content_file_is_not_config dir x ext :
  Js.toLowerCase ext = ".md" ∨ Js.toLowerCase ext = ".mdx" →
  x +:+ ext ≠ Path.join [dir; "config.json"].
Proof.
  intros (init & last & -> & Hlast)%extension_last Heq.
  destruct (join_config_suffix dir) as [pre Hpre]. rewrite Hpre in Heq.
  apply (f_equal (Js.endsWith "n")) in Heq.
  rewrite <- append_assoc, endsWith_last, Hlast in Heq.
  change ("config.json" : string) with ("config.jso" +:+ String "n" "") in Heq.
  rewrite <- append_assoc, endsWith_last in Heq. done.
Qed.

(** X25.  A file named [readme] with the extension [.md] or [.mdx], or whose
    name ends in [.draft] before such an extension, in any mix of upper and
    lower case and in any directory below the root, is set aside without
    being read: its route goes to the routes to skip, and the config, the
    log and the cache are left as they are.  The route is that of the file
    itself: the entry pruned for [guide/readme.md] is [guide/readme], not
    [guide], and for [intro.draft.md] it is [intro.draft]. *)
Theorem readme_and_draft_files_are_set_aside
    (fs : FileSystem) (cwd : string) (rootSegs dirs : list string) (stem ext : string)
    (index : PlacementIndex) (st : SyncState) :
  Forall (fun s => plainSegment s = true) rootSegs →
  Forall (fun s => plainSegment s = true) dirs →
  plainSegment stem = true →
  Js.toLowerCase ext = ".md" ∨ Js.toLowerCase ext = ".mdx" →
  Js.toLowerCase stem = "readme" ∨ (∃ base, Js.toLowerCase stem = base +:+ ".draft") →
  processFile fs cwd ("/" +:+ Path.joinWith "/" rootSegs)
    (Path.join ["/" +:+ Path.joinWith "/" rootSegs; "config.json"]) index st
    ("/" +:+ Path.joinWith "/" rootSegs +:+ "/"
         +:+ Path.joinWith "/" (dirs ++ [stem +:+ ext]))
  = Returned
      (mkSyncState (st_config st) (st_log st)
         ({[Path.joinWith "/" (dirs ++ [stem])]} ∪ st_skipRoutes st)
         ({[Path.joinWith "/" (dirs ++ [stem])]} ∪ st_seenRoutes st)
         (st_cache st)).
Proof.
  intros Hroot Hdirs Hstem Hext Hname.
  pose proof (routeFromFile_below cwd rootSegs dirs stem ext Hroot Hdirs Hstem Hext) as Hroute.
  set (root := "/" +:+ Path.joinWith "/" rootSegs) in *.
  set (file := "/" +:+ Path.joinWith "/" rootSegs +:+ "/"
                   +:+ Path.joinWith "/" (dirs ++ [stem +:+ ext])) in *.
  assert (∃ x, file = x +:+ "/" +:+ stem +:+ ext) as [x Hfile].
  { unfold file. destruct dirs as [|d dirs].
    - by exists ("/" +:+ Path.joinWith "/" rootSegs).
    - exists ("/" +:+ Path.joinWith "/" rootSegs +:+ "/" +:+ Path.joinWith "/" (d :: dirs)).
      rewrite joinWith_app by done. simpl Path.joinWith at 3.
      change ("/" +:+ ?y) with (String "/" y). unfold_append. by rewrite !append_assoc. }
  assert (String.eqb file (Path.join [root; "config.json"]) = false) as Hnot.
  { apply String.eqb_neq. rewrite Hfile.
    replace (x +:+ "/" +:+ stem +:+ ext) with ((x +:+ "/" +:+ stem) +:+ ext)
      by (by rewrite !append_assoc).
    by apply content_file_is_not_config. }
  assert (Path.basename file = stem +:+ ext) as Hbase.
  { rewrite Hfile. apply basename_of_file. by apply plainSegment_with_extension. }
  assert (isReadme (stem +:+ ext) || isDraft (stem +:+ ext) = true) as Hignored.
  { unfold isReadme, isDraft. rewrite toLowerCase_append.
    destruct Hname as [->|[base ->]].
    - destruct Hext as [->| ->]; reflexivity.
    - apply orb_true_iff. right. rewrite append_assoc.
      destruct Hext as [->| ->].
      + change (".draft" +:+ ".md") with (".draft.md" : string).
        by rewrite endsWith_append.
      + change (".draft" +:+ ".mdx") with (".draft.mdx" : string).
        rewrite endsWith_append. apply orb_true_r. }
  unfold processFile. rewrite Hnot, Hbase, Hignored, Hroute. done.
Qed.

(** *** The routes of a container after a pass *)

(** X26.  Which routes a container holds in the config written: the routes it
    held in the config read and the routes of the files to place for
    which [findPlacement] gives this container, less the routes to skip. *)
Theorem written_container_routes
    (cwd dir : string) (cache : Cache) (fs : FileSystem)
    (log : ChangeLog) (cache1 : Cache) (fs1 : FileSystem) :
  processDocsConfig cwd dir cache fs = Returned (log, cache1, fs1) →
  ∃ config config1 vs,
    configs fs !! Path.join [dir; "config.json"] = Some config
    ∧ configs fs1 !! Path.join [dir; "config.json"] = Some config1
    ∧ verdicts fs cwd dir cache = Returned (vs, cache1)
    ∧ ∀ p c, containerOf config p = Some c →
        ∃ c1, containerOf config1 p = Some c1
          ∧ ∀ route,
              route ∈ to <$> c1
              ↔ (route ∉ skipRoutesOf vs)
                ∧ (route ∈ to <$> c
                   ∨ ∃ infoTitle,
                       VPlace route infoTitle ∈ vs
                       ∧ findPlacement route (buildPlacementIndex config) = Some p).
Proof.
  intros (config & vs & stL & Hcfg & Hv & Hrun & -> & ->)%processDocsConfig_spec.
  destruct (reconcile_spec config vs) as (stL' & Hrun' & _ & _ & Hc & Hskip & _).
  rewrite Hrun in Hrun'. injection Hrun' as <-.
  exists config, (finishSync stL).1, vs. simpl. rewrite lookup_insert_eq.
  split; [done|]. split; [done|]. split; [done|].
  intros p c Hp. rewrite finishSync_spec. simpl.
  rewrite containerOf_prunedConfig, Hc, Hp, Hskip. simpl.
  eexists. split; [done|]. intros route.
  unfold keepUnskipped. rewrite list_elem_of_fmap. split.
  - intros (item & -> & [Hns Hitem]%list_elem_of_filter). split; [done|].
    destruct (grownContainer_app (buildPlacementIndex config) p c vs) as (more & Hg & Hmore).
    rewrite Hg in Hitem. apply elem_of_app in Hitem as [Hitem|Hitem].
    + left. apply list_elem_of_fmap. by exists item.
    + right. destruct (Hmore _ Hitem) as (r & t & Hin & -> & Hf & _). by exists t.
  - intros [Hns Hroute].
    assert (route ∈ to <$> grownContainer (buildPlacementIndex config) p c vs) as Hin.
    { destruct Hroute as [Hroute|(t & Hin & Hf)].
      - by apply grownContainer_keeps.
      - by eapply grownContainer_placed. }
    apply list_elem_of_fmap in Hin as (item & -> & Hitem).
    exists item. split; [done|]. by apply list_elem_of_filter.
Qed.

(** *** What the index holds *)

(** X27.  [byRoute] has an entry for the routes of the entries of the config and
    for no other; [byDir] has one for these routes and their ancestors,
    the empty route apart, and for no other. *)
Theorem index_holds_routes_and_ancestors (config : DocsConfig) (x : string) :
  (is_Some (byRoute (buildPlacementIndex config) !! x) ↔ x ∈ routesOf config)
  ∧ (is_Some (byDir (buildPlacementIndex config) !! x)
     ↔ x ≠ "" ∧ ∃ r k, r ∈ routesOf config ∧ Nat.iter k parentRoute r = x).
Proof.
  rewrite buildPlacementIndex_registrations, byRoute_registerAll, byDir_registerAll.
  simpl. rewrite !lookup_empty. unfold routesOf. split.
  - destruct (lastExact x (registrations config)) as [q|] eqn:Hl.
    + split; [|by eexists]. intros _. apply lastExact_Some in Hl.
      apply list_elem_of_fmap. by exists (x, q).
    + split; [by intros [? ?]|]. intros Hin. by apply lastExact_None in Hl.
  - destruct (firstClaim x (registrations config)) as [q|] eqn:Hf.
    + split; [|by eexists]. intros _.
      apply firstClaim_Some in Hf as (r & Hin & [Hne [k Hk]]%elem_of_routeChain).
      split; [done|]. exists r, k. split; [|done].
      apply list_elem_of_fmap. by exists (r, q).
    + split; [by intros [? ?]|]. intros [Hne (r & k & Hin & Hk)]. exfalso.
      apply list_elem_of_fmap in Hin as ([r' q] & -> & Hin).
      apply (proj1 (firstClaim_None x _) Hf _ Hin). simpl.
      apply elem_of_routeChain. split; [done|]. by exists k.
Qed.

(** *** A file with a title of its own *)

(** X28.  A file whose block gives a title that is not empty is not followed
    along its [ref]: its info is what its own block gives, the [skip] of
    the file it refers to is not taken over, and nothing but the entry of
    the file is added to the cache. *)
Theorem readDocInfo_own_title_ignores_ref
    (fs : FileSystem) (cwd filePath docsDir : string) (stack : gset string) (cache : Cache)
    (raw : string) (info : FrontmatterInfo) :
  cache !! Path.resolve cwd [filePath] = None →
  readFile fs filePath = Some raw →
  parseFrontmatter raw = Some info →
  Js.truthyOpt (title info) = true →
  readDocInfo fs cwd filePath docsDir stack cache
  = Returned (Some info, <[Path.resolve cwd [filePath] := Some info]> cache).
Proof.
  intros Hcache Hraw Hparse Htitle. unfold readDocInfo.
  change (2 + size (docs fs))%nat with (S (1 + size (docs fs))).
  rewrite readDocInfoFuel_S. cbv zeta. rewrite Hcache, Hraw.
  unfold parseFrontmatter in Hparse.
  destruct (matchFrontmatter raw) as [block|]; [|done]. simpl in Hparse.
  injection Hparse as <-.
  rewrite Htitle. simpl. by destruct (ref (parseBlock block)).
Qed.

(** *** The lines of a block *)

Lemma splitLines_nonempty s : ∃ line lines, splitLines s = line :: lines.
Proof.
  induction s as [|c s (p & ps & IH)]; simpl; [by eexists _, _|].
  rewrite IH. destruct (Ascii.eqb c newline); [by eexists _, _|].
  destruct (_ && _); by eexists _, _.
Qed.

Lemma splitLines_line line : Js.indexOf newline line = -1 → splitLines line = [line].
Proof.
  induction line as [|c line IH]; [done|].
  intros [Hc Hline]%indexOf_cons_none. cbn [splitLines]. rewrite (IH Hline), Hc.
  assert (Js.startsWith (String newline "") line = false) as ->; [|by rewrite andb_false_r].
  destruct line as [|d line]; [done|].
  apply indexOf_cons_none in Hline as [Hd _]. cbn [Js.startsWith].
  by rewrite Ascii.eqb_sym, Hd.
Qed.

Lemma endsWith_cons p c s : s ≠ "" → Js.endsWith p (String c s) = Js.endsWith p s
                                      ∨ (String.length s < String.length p)%nat.
Proof.
  intros Hs. destruct (decide (String.length p ≤ String.length s)%nat) as [Hle|Hgt].
  - left. change (String c s) with (String c "" +:+ s). by apply endsWith_append_long.
  - right. lia.
Qed.

Lemma splitLines_append block rest :
  Js.endsWith (String carriageReturn "") block = false →
  splitLines (block +:+ String newline rest) = splitLines block ++ splitLines rest.
Proof.
  induction block as [|c block IH]; intros Hcr.
  - rewrite append_nil. cbn [splitLines]. rewrite Ascii.eqb_refl.
    by destruct (splitLines_nonempty rest) as (p & ps & ->).
  - rewrite append_cons. cbn [splitLines].
    assert (Js.endsWith (String carriageReturn "") block = false) as Hcr'.
    { destruct block as [|d block]; [done|].
      destruct (endsWith_cons (String carriageReturn "") c (String d block) ltac:(done))
        as [Heq|Hlen]; [by rewrite <- Heq | simpl in Hlen; lia]. }
    rewrite (IH Hcr').
    destruct (splitLines_nonempty block) as (p & ps & ->). simpl app.
    destruct (Ascii.eqb c newline); [done|].
    assert (Ascii.eqb c carriageReturn && Js.startsWith (String newline "")
                                            (block +:+ String newline rest)
            = Ascii.eqb c carriageReturn && Js.startsWith (String newline "") block) as ->;
      [|by destruct (_ && _)].
    destruct block as [|d block].
    + destruct (Ascii.eqb_spec c carriageReturn) as [->|]; [|done]. done.
    + rewrite append_cons. done.
Qed.

(** X29.  The lines of a block are read in order, each on the info the lines
    before it have given: adding a line at the end of a block adds one
    call of [parseLine], so that of two lines with the same key the later
    one decides.  (The block must not end in a carriage return, which would
    join the line break.) *)
Theorem parseBlock_reads_lines_in_order (block line : string) :
  Js.endsWith (String carriageReturn "") block = false →
  Js.indexOf newline line = -1 →
  parseBlock (block +:+ String newline line) = parseLine (parseBlock block) line.
Proof.
  intros Hcr Hline. unfold parseBlock.
  rewrite splitLines_append by done. rewrite (splitLines_line line) by done.
  by rewrite foldl_app.
Qed.

(** ** Instances of the further properties *)

Lemma parentRoute_splits_at_last_slash_witness :
  parentRoute ("guide/deep" +:+ "/" +:+ "x") = "guide/deep" ∧ parentRoute "x" = "".
Proof. apply (parentRoute_splits_at_last_slash "guide/deep" "x"). reflexivity. Defined.

Lemma resolveRefPath_ignores_fragment_witness :
  resolveRefPath Sample.cwd "/repo/docs/r/g/page.md" ("./other.md" +:+ String "#" "usage")
                 Sample.dir
  = resolveRefPath Sample.cwd "/repo/docs/r/g/page.md" "./other.md" Sample.dir
  ∧ resolveRefPath Sample.cwd "/repo/docs/r/g/page.md" (String "#" "usage") Sample.dir = None
  ∧ resolveRefPath Sample.cwd "/repo/docs/r/g/page.md" "" Sample.dir = None.
Proof.
  apply (resolveRefPath_ignores_fragment Sample.cwd "/repo/docs/r/g/page.md" Sample.dir
           "./other.md" "#" "usage"); reflexivity.
Defined.

Lemma matchFrontmatter_gives_block_witness :
  matchFrontmatter ("---" +:+ " " +:+ String newline (String "t" "itle: A")
                      +:+ String newline ("---" +:+ String newline "Text."))
  = Some (String "t" "itle: A").
Proof.
  apply (matchFrontmatter_gives_block " " "t" "itle: A" (String newline "Text.")).
  - intros d Hd. apply list_elem_of_singleton in Hd as ->. split; [reflexivity | discriminate].
  - reflexivity.
  - reflexivity.
Defined.

Lemma readDocInfo_memoizes_witness :
  ∅ ⊆ ({["/repo/docs/r/notitle.md" := None]} : Cache)
  ∧ ({["/repo/docs/r/notitle.md" := None]} : Cache)
      !! Path.resolve Sample.cwd ["/repo/docs/r/notitle.md"] = Some None
  ∧ ∀ fs' docsDir' stack' later,
      ({["/repo/docs/r/notitle.md" := None]} : Cache) ⊆ later →
      readDocInfo fs' Sample.cwd "/repo/docs/r/notitle.md" docsDir' stack' later
      = Returned (None, later).
Proof.
  apply (readDocInfo_memoizes Sample.site Sample.cwd "/repo/docs/r/notitle.md" Sample.dir ∅ ∅).
  vm_compute. reflexivity.
Defined.

Lemma byRoute_last_registrant_wins_witness :
  byRoute (buildPlacementIndex Example.heldTwice) !! "x" = Some (mkPlacement 1 None)
  ∧ findPlacement "x" (buildPlacementIndex Example.heldTwice) = Some (mkPlacement 1 None).
Proof.
  apply (byRoute_last_registrant_wins Example.heldTwice [("x", mkPlacement 0 None)] []).
  - reflexivity.
  - apply not_elem_of_nil.
Defined.

Lemma findPlacement_none_iff_no_common_ancestor_witness :
  findPlacement "q/r" (buildPlacementIndex Sample.flatConfig) = None
  ↔ ∀ r j k, r ∈ routesOf Sample.flatConfig →
             Nat.iter j parentRoute "q/r" = Nat.iter k parentRoute r →
             Nat.iter j parentRoute "q/r" = "".
Proof.
  apply (findPlacement_none_iff_no_common_ancestor Sample.flatConfig "q/r"). discriminate.
Defined.

Lemma report_lists_have_no_duplicates_witness :
  ∃ log cache1 fs1,
    processDocsConfig Sample.cwd Sample.dir ∅ Sample.site = Returned (log, cache1, fs1)
    ∧ NoDup (skipped log) ∧ NoDup (missingFrontmatter log)
    ∧ NoDup (unmatched log) ∧ NoDup (missingFiles log).
Proof.
  destruct site_runs as (log & cache1 & fs1 & Hrun). exists log, cache1, fs1.
  split; [exact Hrun|].
  exact (report_lists_have_no_duplicates _ _ _ _ _ _ _ Hrun).
Defined.

Lemma unmatched_are_files_without_placement_witness :
  ∃ log cache1 config vs,
    configs Sample.site !! Path.join [Sample.dir; "config.json"] = Some config
    ∧ verdicts Sample.site Sample.cwd Sample.dir ∅ = Returned (vs, cache1)
    ∧ ∀ route, route ∈ unmatched log
               ↔ ∃ infoTitle, VPlace route infoTitle ∈ vs
                   ∧ findPlacement route (buildPlacementIndex config) = None.
Proof.
  destruct site_runs as (log & cache1 & fs1 & Hrun).
  destruct (unmatched_are_files_without_placement _ _ _ _ _ _ _ Hrun) as (config & vs & H).
  exists log, cache1, config, vs. exact H.
Defined.

Lemma missingFiles_are_entries_without_file_witness :
  ∃ log config,
    configs Sample.site !! Path.join [Sample.dir; "config.json"] = Some config
    ∧ ∀ route,
        route ∈ missingFiles log
        ↔ route ∈ routesOf config
          ∧ ∀ filePath, filePath ∈ listContentFiles Sample.site Sample.dir →
                        filePath ≠ Path.join [Sample.dir; "config.json"] →
                        routeFromFile Sample.cwd Sample.dir filePath ≠ route.
Proof.
  destruct site_runs as (log & cache1 & fs1 & Hrun).
  destruct (missingFiles_are_entries_without_file _ _ _ _ _ _ _ Hrun) as (config & H).
  exists log, config. exact H.
Defined.

Lemma mismatches_are_real_and_labels_kept_witness :
  ∃ log cache1 fs1 config1 vs,
    configs fs1 !! Path.join [Sample.dir; "config.json"] = Some config1
    ∧ verdicts Sample.site Sample.cwd Sample.dir ∅ = Returned (vs, cache1)
    ∧ ∀ m, m ∈ labelMismatch log →
        mm_existing m ≠ mm_incoming m
        ∧ (∃ infoTitle, VPlace (mm_to m) infoTitle ∈ vs
                        ∧ mm_incoming m = Js.trim infoTitle)
        ∧ (mm_to m ∈ skipRoutesOf vs
           ∨ ∃ p c item, containerOf config1 p = Some c ∧ item ∈ c
                         ∧ to item = mm_to m ∧ label item = mm_existing m).
Proof.
  destruct site_runs as (log & cache1 & fs1 & Hrun).
  destruct (mismatches_are_real_and_labels_kept _ _ _ _ _ _ _ Hrun) as (config1 & vs & H).
  exists log, cache1, fs1, config1, vs. exact H.
Defined.

Lemma routeFromFile_is_path_below_root_witness :
  routeFromFile Sample.cwd ("/" +:+ Path.joinWith "/" ["repo"; "docs"; "r"])
    ("/" +:+ Path.joinWith "/" ["repo"; "docs"; "r"] +:+ "/"
         +:+ Path.joinWith "/" (["guide"; "deep"] ++ ["x" +:+ ".MDX"]))
  = Path.joinWith "/" (["guide"; "deep"] ++ ["x"]).
Proof.
  apply (routeFromFile_is_path_below_root Sample.cwd ["repo"; "docs"; "r"] ["guide"; "deep"]
           "x" ".MDX").
  - repeat constructor.
  - repeat constructor.
  - reflexivity.
  - right. reflexivity.
Defined.

Lemma pass_fills_the_cache_witness :
  ∃ log cache1 fs1,
    processDocsConfig Sample.cwd Sample.dir ∅ Sample.site = Returned (log, cache1, fs1)
    ∧ ∅ ⊆ cache1
    ∧ ∀ filePath,
        filePath ∈ listContentFiles Sample.site Sample.dir →
        isReadme (Path.basename filePath) || isDraft (Path.basename filePath) = false →
        ∃ info,
          cache1 !! Path.resolve Sample.cwd [filePath] = Some info
          ∧ ∀ fs' docsDir stack,
              readDocInfo fs' Sample.cwd filePath docsDir stack cache1
              = Returned (info, cache1).
Proof.
  destruct site_runs as (log & cache1 & fs1 & Hrun). exists log, cache1, fs1.
  split; [exact Hrun|].
  exact (pass_fills_the_cache _ _ _ _ _ _ _ Hrun).
Defined.

(** The section of the sample has no entry: the page is not added to it. *)
Lemma emptyGuide_config :
  configs Example.emptyGuide !! Path.join [Sample.dir; "config.json"]
  = Some Example.emptyGuideConfig.
Proof. vm_compute. reflexivity. Qed.

Lemma emptyGuide_runs :
  ∃ log cache1 fs1,
    processDocsConfig Sample.cwd Sample.dir ∅ Example.emptyGuide
    = Returned (log, cache1, fs1).
Proof.
  exact (processDocsConfig_returns Sample.cwd Sample.dir ∅ Example.emptyGuide _
           emptyGuide_config).
Qed.

Example emptyGuide_report :
  reportOf (processDocsConfig Sample.cwd Sample.dir ∅ Example.emptyGuide)
  = Some {| added := []; labelMismatch := []; removed := []; skipped := [];
            missingFrontmatter := []; unmatched := ["guide/intro"]; missingFiles := [] |}.
Proof. vm_compute. reflexivity. Qed.

Lemma config_without_entries_gets_none_witness :
  ∃ log cache1 fs1,
    processDocsConfig Sample.cwd Sample.dir ∅ Example.emptyGuide = Returned (log, cache1, fs1)
    ∧ (∃ config1, configs fs1 !! Path.join [Sample.dir; "config.json"] = Some config1
                  ∧ sections config1 = sections Example.emptyGuideConfig)
    ∧ added log = [] ∧ labelMismatch log = [] ∧ removed log = [] ∧ missingFiles log = []
    ∧ ∀ vs, verdicts Example.emptyGuide Sample.cwd Sample.dir ∅ = Returned (vs, cache1) →
            ∀ route infoTitle, VPlace route infoTitle ∈ vs → route ∈ unmatched log.
Proof.
  destruct emptyGuide_runs as (log & cache1 & fs1 & Hrun). exists log, cache1, fs1.
  split; [exact Hrun|].
  apply (config_without_entries_gets_none _ _ _ _ _ _ _ Example.emptyGuideConfig Hrun).
  - exact emptyGuide_config.
  - reflexivity.
Defined.

Lemma parseLine_reads_key_and_value_witness :
  parseLine (mkFrontmatterInfo None None None)
            ("  " +:+ "title" +:+ "" +:+ ":" +:+ " " +:+ "Yes" +:+ " ")
  = setTitle (Js.trim (stripQuotes (beforeComment "Yes"))) (mkFrontmatterInfo None None None)
  ∧ parseLine (mkFrontmatterInfo None None None)
              ("  " +:+ "skip" +:+ "" +:+ ":" +:+ " " +:+ "Yes" +:+ " ")
    = setSkip (bool_decide (Js.toLowerCase (beforeComment "Yes") ∈ ["true"; "yes"; "1"]))
              (mkFrontmatterInfo None None None)
  ∧ parseLine (mkFrontmatterInfo None None None)
              ("  " +:+ "ref" +:+ "" +:+ ":" +:+ " " +:+ "Yes" +:+ " ")
    = setRef (stripQuotes (beforeComment "Yes")) (mkFrontmatterInfo None None None)
  ∧ ∀ key,
      key ≠ "" → Js.trimStart key = key → Js.trimEnd key = key →
      Js.startsWith "#" key = false → Js.indexOf ":" key = -1 →
      (key ∉ ["title"; "skip"; "ref"] →
       parseLine (mkFrontmatterInfo None None None)
                 ("  " +:+ key +:+ "" +:+ ":" +:+ " " +:+ "Yes" +:+ " ")
       = mkFrontmatterInfo None None None)
      ∧ parseLine (mkFrontmatterInfo None None None)
                  ("  " +:+ key +:+ "" +:+ ":" +:+ " " +:+ " ")
        = mkFrontmatterInfo None None None.
Proof.
  apply (parseLine_reads_key_and_value (mkFrontmatterInfo None None None) "  " "" " " "Yes" " ").
  - repeat constructor.
  - constructor.
  - repeat constructor.
  - repeat constructor.
  - discriminate.
  - reflexivity.
  - reflexivity.
Defined.

Lemma resolveRefPath_bases_witness :
  resolveRefPath ("/" +:+ Path.joinWith "/" ["repo"])
      ("/" +:+ Path.joinWith "/" (["repo"; "docs"; "r"; "g"] ++ ["page.md"]))
      ("./" +:+ Path.joinWith "/" ["shared"; "other.md"])
      ("/" +:+ Path.joinWith "/" ["repo"; "docs"; "r"])
  = Some ("/" +:+ Path.joinWith "/" (["repo"; "docs"; "r"; "g"] ++ ["shared"; "other.md"]))
  ∧ resolveRefPath ("/" +:+ Path.joinWith "/" ["repo"])
      ("/" +:+ Path.joinWith "/" (["repo"; "docs"; "r"; "g"] ++ ["page.md"]))
      ("docs/" +:+ Path.joinWith "/" ["shared"; "other.md"])
      ("/" +:+ Path.joinWith "/" ["repo"; "docs"; "r"])
    = Some ("/" +:+ Path.joinWith "/" (["repo"] ++ "docs" :: ["shared"; "other.md"]))
  ∧ (Js.startsWith "." (Path.joinWith "/" ["shared"; "other.md"]) = false →
     Js.startsWith "docs/" (Path.joinWith "/" ["shared"; "other.md"]) = false →
     resolveRefPath ("/" +:+ Path.joinWith "/" ["repo"])
       ("/" +:+ Path.joinWith "/" (["repo"; "docs"; "r"; "g"] ++ ["page.md"]))
       (Path.joinWith "/" ["shared"; "other.md"])
       ("/" +:+ Path.joinWith "/" ["repo"; "docs"; "r"])
     = Some ("/" +:+ Path.joinWith "/" (["repo"; "docs"; "r"] ++ ["shared"; "other.md"]))).
Proof.
  apply (resolveRefPath_bases ["repo"] ["repo"; "docs"; "r"; "g"] ["repo"; "docs"; "r"]
           ["shared"; "other.md"] "page.md").
  - repeat constructor.
  - repeat constructor.
  - reflexivity.
  - repeat constructor.
  - repeat constructor.
  - discriminate.
  - reflexivity.
Defined.

Lemma findPlacement_nearest_known_ancestor_witness :
  findPlacement "a/b/c" (buildPlacementIndex Sample.flatConfig) = Some (mkPlacement 0 None).
Proof.
  apply (findPlacement_nearest_known_ancestor (buildPlacementIndex Sample.flatConfig)
           "a/b/c" 1 (mkPlacement 0 None)).
  - intros j Hj. assert (j = 0%nat) as -> by lia. split; vm_compute; reflexivity.
  - intros _. vm_compute. discriminate.
  - left. vm_compute. reflexivity.
Defined.

Lemma readme_and_draft_files_are_set_aside_witness :
  processFile Sample.site Sample.cwd ("/" +:+ Path.joinWith "/" ["repo"; "docs"; "r"])
    (Path.join ["/" +:+ Path.joinWith "/" ["repo"; "docs"; "r"]; "config.json"])
    (buildPlacementIndex Sample.siteConfig)
    (mkSyncState Sample.siteConfig emptyLog ∅ ∅ ∅)
    ("/" +:+ Path.joinWith "/" ["repo"; "docs"; "r"] +:+ "/"
         +:+ Path.joinWith "/" (["guide"] ++ ["Intro.Draft" +:+ ".md"]))
  = Returned
      (mkSyncState Sample.siteConfig emptyLog
         ({[Path.joinWith "/" (["guide"] ++ ["Intro.Draft"])]} ∪ ∅)
         ({[Path.joinWith "/" (["guide"] ++ ["Intro.Draft"])]} ∪ ∅)
         ∅).
Proof.
  apply (readme_and_draft_files_are_set_aside Sample.site Sample.cwd ["repo"; "docs"; "r"]
           ["guide"] "Intro.Draft" ".md" (buildPlacementIndex Sample.siteConfig)
           (mkSyncState Sample.siteConfig emptyLog ∅ ∅ ∅)).
  - repeat constructor.
  - repeat constructor.
  - reflexivity.
  - left. reflexivity.
  - right. exists "intro". reflexivity.
Defined.

Lemma report_names_scanned_files_witness :
  ∃ log cache1 fs1,
    processDocsConfig Sample.cwd Sample.dir ∅ Sample.site = Returned (log, cache1, fs1)
    ∧ (∀ route, route ∈ skipped log ∨ route ∈ unmatched log ∨ route ∈ removed log →
         ∃ filePath, filePath ∈ listContentFiles Sample.site Sample.dir
                     ∧ routeFromFile Sample.cwd Sample.dir filePath = route)
    ∧ (∀ line, line ∈ added log →
         ∃ filePath label, filePath ∈ listContentFiles Sample.site Sample.dir
           ∧ line = label +:+ " -> " +:+ routeFromFile Sample.cwd Sample.dir filePath)
    ∧ (∀ file, file ∈ missingFrontmatter log →
         ∃ filePath, filePath ∈ listContentFiles Sample.site Sample.dir
                     ∧ Path.relative Sample.cwd Sample.dir filePath = file).
Proof.
  destruct site_runs as (log & cache1 & fs1 & Hrun). exists log, cache1, fs1.
  split; [exact Hrun|].
  exact (report_names_scanned_files _ _ _ _ _ _ _ Hrun).
Defined.

Lemma written_container_routes_witness :
  ∃ cache1 fs1 config config1 vs,
    configs Sample.site !! Path.join [Sample.dir; "config.json"] = Some config
    ∧ configs fs1 !! Path.join [Sample.dir; "config.json"] = Some config1
    ∧ verdicts Sample.site Sample.cwd Sample.dir ∅ = Returned (vs, cache1)
    ∧ ∀ p c, containerOf config p = Some c →
        ∃ c1, containerOf config1 p = Some c1
          ∧ ∀ route,
              route ∈ to <$> c1
              ↔ (route ∉ skipRoutesOf vs)
                ∧ (route ∈ to <$> c
                   ∨ ∃ infoTitle,
                       VPlace route infoTitle ∈ vs
                       ∧ findPlacement route (buildPlacementIndex config) = Some p).
Proof.
  destruct site_runs as (log & cache1 & fs1 & Hrun).
  destruct (written_container_routes _ _ _ _ _ _ _ Hrun) as (config & config1 & vs & H).
  exists cache1, fs1, config, config1, vs. exact H.
Defined.

Lemma parseBlock_reads_lines_in_order_witness :
  parseBlock ("title: A" +:+ String newline "title: B")
  = parseLine (parseBlock "title: A") "title: B".
Proof. apply (parseBlock_reads_lines_in_order "title: A" "title: B"); reflexivity. Defined.

Lemma readDocInfo_own_title_ignores_ref_witness :
  readDocInfo Example.titled Sample.cwd "/repo/docs/r/a.md" Sample.dir ∅ ∅
  = Returned (Some (mkFrontmatterInfo (Some "A") None (Some "./b.md")),
              <[Path.resolve Sample.cwd ["/repo/docs/r/a.md"]
                  := Some (mkFrontmatterInfo (Some "A") None (Some "./b.md"))]> ∅).
Proof.
  apply (readDocInfo_own_title_ignores_ref Example.titled Sample.cwd "/repo/docs/r/a.md"
           Sample.dir ∅ ∅ (Sample.document ["title: A"; "ref: ./b.md"] "")).
  - apply lookup_empty.
  - vm_compute. reflexivity.
  - vm_compute. reflexivity.
  - reflexivity.
Defined.

